(** * Stockspan-Visulizer: the analytics core, embedded and verified

    The development follows the TypeScript sources:
    - [utils/stockSpanCalculator.ts]  (class [StockSpanCalculator]),
    - [utils/movingAverageCalculator.ts] (class [MovingAverageCalculator]),
    - [utils/sentimentAnalyzer.ts] (class [SentimentAnalyzer]),
    - [utils/conversationalAI.ts] (class [ConversationalAI]),
    - [types/index.ts] (the record types).

    Numbers.  A JavaScript [number] that is finite is modelled by its exact
    rational value ([Q]); comparisons are then exactly those of the code and
    arithmetic is the exact one (IEEE-754 rounding and overflow are not part
    of this model).  The places where the code can produce a non-finite value
    out of finite ones (a division by zero) are modelled with [jsnum], which
    adds [NaN] and the two infinities.  Where the rounding of the arithmetic
    decides a property (the running sums of the moving averages, the sums of
    the correlation), the classes are embedded a second time, in module
    [Binary64], on IEEE-754 binary64 numbers.  The exact model has a single
    zero; a statement made on it that involves a division by zero, or a
    value next to a threshold that a rounded product decides, is worded so
    that it holds for either zero and either rounding. *)

From Stdlib Require Import ZArith QArith Qround Qabs Qreals Reals Lia Lra String
  Ascii List DecimalString.
From Stdlib Require PrimFloat FloatOps SpecFloat Uint63.
From stdpp Require Import base option list gmap strings.
Import ListNotations.

Set Default Proof Using "Type".

(* ================================================================== *)
(** * Part I.  The embedding                                            *)
(* ================================================================== *)

(** ** Numbers *)

(** The value of an arithmetic expression over finite numbers: a finite
    number, or what IEEE-754 yields on a division by zero. *)
Inductive jsnum := Fin (q : Q) | PInf | NInf | NaN.

(** [a / b] for finite [a] and [b] (a zero divisor is taken to be [+0]). *)
Definition js_div (a b : Q) : jsnum :=
  if Qeq_bool b 0 then
    match (a ?= 0)%Q with
    | Gt => PInf
    | Lt => NInf
    | Eq => NaN
    end
  else Fin (a / b).

(** [a < b] on finite numbers. *)
Definition Qlt_bool (a b : Q) : bool := negb (Qle_bool b a).

(** [n] as a number. *)
Definition of_nat (n : nat) : Q := inject_Z (Z.of_nat n).

(** ** [types/index.ts] *)

(** [span?: number]: an absent field is [None].  Spans are integers. *)
Record StockData := mkStockData {
  date : string;
  open : Q;
  high : Q;
  low : Q;
  close : Q;
  volume : Q;
  span : option Z
}.

(** The objects [calculateMovingAverages] builds start as [{ date }] and
    receive the property [ma<w>] for every window size [w]; [ma r !! w] is the
    property [ma<w>] of [r], [None] when the object has no such property.
    The interface [MovingAverage] names [ma5], [ma10] and [ma20]. *)
Record MovingAverage := mkMovingAverage {
  ma_date : string;
  ma : gmap nat jsnum
}.

Definition ma5 (r : MovingAverage) : option jsnum := ma r !! 5.
Definition ma10 (r : MovingAverage) : option jsnum := ma r !! 10.
Definition ma20 (r : MovingAverage) : option jsnum := ma r !! 20.

Record SentimentData := mkSentimentData {
  sentiment_date : string;
  score : Q;
  confidence : Q;
  sentiment_volume : Q
}.

(** [d.span || 0] *)
Definition span_or_0 (d : StockData) : Z := default 0%Z (span d).

Definition with_span (d : StockData) (s : option Z) : StockData :=
  {| date := date d; open := open d; high := high d; low := low d;
     close := close d; volume := volume d; span := s |}.

(** ** [utils/stockSpanCalculator.ts] *)

Module StockSpanCalculator.

(** An element of [this.stack]: [{ index: number; price: number }]. *)
Record entry := Entry { index : nat; price : Q }.

(** The instance: its only field is the working stack.  The list keeps the
    top of the stack at its head ([this.stack[this.stack.length - 1]]). *)
Record t := Make { stack : list entry }.

(** [while (stack.length > 0 && top.price <= prices[i]) stack.pop()] *)
Fixpoint pop_while (st : list entry) (p : Q) : list entry :=
  match st with
  | [] => []
  | top :: below => if Qle_bool (price top) p then pop_while below p else st
  end.

(** One iteration of the [for] loop at index [i] with [prices[i] = p]:
    the span pushed on [spans] and the stack after the push. *)
Definition step (i : nat) (p : Q) (st : list entry) : nat * list entry :=
  let st1 := pop_while st p in
  let sp := match st1 with
            | [] => i + 1
            | top :: _ => i - index top
            end in
  (sp, Entry i p :: st1).

(** The [for] loop from index [i] on; [rest] is [prices.slice(i)]. *)
Fixpoint loop (rest : list Q) (i : nat) (st : list entry) (spans : list nat)
  : list nat * list entry :=
  match rest with
  | [] => (spans, st)
  | p :: rest' =>
      let '(sp, st') := step i p st in
      loop rest' (S i) st' (spans ++ [sp])
  end.

(** [calculateSpan(prices)]: the stack of the instance is reset first, so
    the stack left by an earlier call is ignored. *)
Definition calculateSpan (self : t) (prices : list Q) : list nat * t :=
  let '(spans, st) := loop prices 0 [] [] in
  (spans, Make st).

(** [calculateSpanForStockData(stockData)]:
    [stockData.map((data, index) => ({ ...data, span: spans[index] }))]. *)
Definition calculateSpanForStockData (self : t) (stockData : list StockData)
  : list StockData * t :=
  let prices := map close stockData in
  let '(spans, self') := calculateSpan self prices in
  (imap (fun i d => with_span d (Z.of_nat <$> spans !! i)) stockData, self').

End StockSpanCalculator.

(** ** [utils/movingAverageCalculator.ts] *)

Module MovingAverageCalculator.

(** The instance: the constructor argument and the two [Map]s keyed by
    window size. *)
Record t := Make {
  windowSizes : list nat;
  queues : gmap nat (list Q);
  sums : gmap nat Q
}.

(** The [forEach] that (re)initialises both maps, in the constructor and at
    the start of every calculation. *)
Definition reset (self : t) : t :=
  fold_left
    (fun self size =>
       Make (windowSizes self)
            (<[size := []]> (queues self))
            (<[size := 0%Q]> (sums self)))
    (windowSizes self) self.

(** [constructor(private windowSizes: number[] = [5, 10, 20])] *)
Definition defaultWindowSizes : list nat := [5; 10; 20].

Definition new (sizes : list nat) : t := reset (Make sizes ∅ ∅).

(** Push [c] on the queue and add it to the sum; when the queue is longer
    than the window, shift the oldest value out and subtract it. *)
Definition push_window (w : nat) (c : Q) (queue : list Q) (sum : Q)
  : list Q * Q :=
  let queue := queue ++ [c] in
  let sum := (sum + c)%Q in
  if w <? length queue
  then (tail queue, (sum - hd 0%Q queue)%Q)
  else (queue, sum).

(** Body of the inner [forEach] for the bar [data] and the window size
    [windowSize].  [get(windowSize)!] reads an entry that [reset] created. *)
Definition window_step (data : StockData)
    (acc : t * gmap nat jsnum) (windowSize : nat) : t * gmap nat jsnum :=
  let '(self, averages) := acc in
  let queue := default [] (queues self !! windowSize) in
  let sum := default 0%Q (sums self !! windowSize) in
  let '(queue, sum) := push_window windowSize (close data) queue sum in
  let self := Make (windowSizes self)
                   (<[windowSize := queue]> (queues self))
                   (<[windowSize := sum]> (sums self)) in
  let average :=
    if length queue =? windowSize
    then js_div sum (of_nat windowSize)
    else js_div sum (of_nat (length queue)) in
  (self, <[windowSize := average]> averages).

(** Body of the outer [forEach]: one record per bar. *)
Definition data_step (acc : t * list MovingAverage) (data : StockData)
  : t * list MovingAverage :=
  let '(self, result) := acc in
  let '(self, averages) :=
    fold_left (window_step data) (windowSizes self) (self, ∅) in
  (self, result ++ [mkMovingAverage (date data) averages]).

Definition calculateMovingAverages (self : t) (stockData : list StockData)
  : list MovingAverage * t :=
  let '(self, result) := fold_left data_step stockData (reset self, []) in
  (result, self).

End MovingAverageCalculator.

(** ** [utils/sentimentAnalyzer.ts] *)

(** [xs.reduce((a, b) => a + b, 0)] *)
Definition Rsum (l : list R) : R := fold_right Rplus 0%R l.

Module SentimentAnalyzer.

(** [Math.sqrt]: [None] stands for [NaN]. *)
Definition sqrt_js (x : R) : option R :=
  if Rlt_dec x 0 then None else Some (sqrt x).

(** [pearsonCorrelation(x, y)]; [None] stands for [NaN].  [y[i]] is
    [undefined] past the end of [y], which turns [sumXY] into [NaN]. *)
Definition pearsonCorrelation (x y : list R) : option R :=
  let n := INR (length x) in
  if length x =? 0 then Some 0%R
  else
    let sumX := Rsum x in
    let sumY := Rsum y in
    let sumXY :=
      if length x <=? length y then Some (Rsum (zip_with Rmult x y))
      else None in
    let sumXX := Rsum (map (fun xi => xi * xi)%R x) in
    let sumYY := Rsum (map (fun yi => yi * yi)%R y) in
    let numerator := (fun sxy => n * sxy - sumX * sumY)%R <$> sumXY in
    let denominator :=
      sqrt_js ((n * sumXX - sumX * sumX) * (n * sumYY - sumY * sumY))%R in
    match denominator with
    | Some d =>
        if Req_dec_T d 0 then Some 0%R
        else (fun num => num / d)%R <$> numerator
    | None => None
    end.

Definition calculateSentimentSpanCorrelation
    (sentimentData : list SentimentData) (stockData : list StockData)
  : option R :=
  if negb (length sentimentData =? length stockData)
     || (length sentimentData <? 2)
  then Some 0%R
  else
    let sentimentScores := map (fun s => Q2R (score s)) sentimentData in
    let spans := map (fun s => IZR (span_or_0 s)) stockData in
    pearsonCorrelation sentimentScores spans.

End SentimentAnalyzer.

(** ** Text *)

(** A query is a [string]: a sequence of 8-bit character codes.  The model
    gives the ECMAScript meaning to the codes below 128 (ASCII); codes from
    128 on are carried along unchanged and match nothing but [.]. *)

Definition is_upper (c : ascii) : bool :=
  (65 <=? nat_of_ascii c) && (nat_of_ascii c <=? 90).

Definition is_digit (c : ascii) : bool :=
  (48 <=? nat_of_ascii c) && (nat_of_ascii c <=? 57).

(** TAB, LF, VT, FF, CR and SPACE: what [trim] strips. *)
Definition is_space (c : ascii) : bool :=
  ((9 <=? nat_of_ascii c) && (nat_of_ascii c <=? 13)) || (nat_of_ascii c =? 32).

(** LF and CR: what [.] refuses. *)
Definition is_line_terminator (c : ascii) : bool :=
  (nat_of_ascii c =? 10) || (nat_of_ascii c =? 13).

Definition lower (c : ascii) : ascii :=
  if is_upper c then ascii_of_nat (nat_of_ascii c + 32) else c.

(** [String.prototype.toLowerCase] *)
Fixpoint toLowerCase (s : string) : string :=
  match s with
  | EmptyString => EmptyString
  | String c s' => String (lower c) (toLowerCase s')
  end.

Fixpoint trimStart (s : string) : string :=
  match s with
  | EmptyString => EmptyString
  | String c s' => if is_space c then trimStart s' else s
  end.

(** Strips the white space at the end: a character survives when it is not
    white space or when something survives after it. *)
Fixpoint trimEnd (s : string) : string :=
  match s with
  | EmptyString => EmptyString
  | String c s' =>
      match trimEnd s' with
      | EmptyString => if is_space c then EmptyString else String c EmptyString
      | rest => String c rest
      end
  end.

(** [String.prototype.trim] *)
Definition trim (s : string) : string := trimEnd (trimStart s).

(** [String.prototype.includes] *)
Fixpoint includes (s needle : string) : bool :=
  String.prefix needle s
  || match s with
     | EmptyString => false
     | String _ s' => includes s' needle
     end.

(** [Array.prototype.join] *)
Fixpoint join (sep : string) (l : list string) : string :=
  match l with
  | [] => ""
  | [x] => x
  | x :: l' => x +:+ sep +:+ join sep l'
  end.

Definition newline : string := String (ascii_of_nat 10) EmptyString.

(** Decimal digits of a natural number, and of an integer as
    [Number.prototype.toString] prints it (below 10^21 in magnitude). *)
Definition digits (n : N) : string := NilZero.string_of_uint (N.to_uint n).

Definition show_int (z : Z) : string :=
  if (z <? 0)%Z then "-" +:+ digits (Z.to_N (- z)) else digits (Z.to_N z).

Fixpoint zeros (n : nat) : string :=
  match n with
  | O => ""
  | S n' => String "0" (zeros n')
  end.

(** [Number.prototype.toFixed(f)] on a finite number of magnitude below
    10^21 (from there on ECMAScript switches to the exponent notation, which
    this model does not print): [n] is the integer nearest to [|x| * 10^f],
    the larger one on a tie; its digits are padded with zeros to [f + 1]
    places and the point goes before the last [f]. *)
Definition toFixed_fin (f : nat) (x : Q) : string :=
  let sign := if Qle_bool 0 x then "" else "-" in
  let n := Qfloor (Qabs x * inject_Z (10 ^ Z.of_nat f) + (1 # 2)) in
  let m := digits (Z.to_N n) in
  let m := if String.length m <=? f
           then zeros (f + 1 - String.length m) +:+ m else m in
  let k := String.length m in
  let body := if f =? 0 then m
              else String.substring 0 (k - f) m +:+ "."
                   +:+ String.substring (k - f) f m in
  sign +:+ body.

Definition toFixed (f : nat) (x : jsnum) : string :=
  match x with
  | Fin q => toFixed_fin f q
  | PInf => "Infinity"
  | NInf => "-Infinity"
  | NaN => "NaN"
  end.

(** ** Regular expressions *)

Module Regex.

(** The fragment of the ECMAScript syntax the router uses, under the flag
    [i].  Groups only delimit: no handler reads a capture of its pattern.
    [Void] matches nothing and appears in derivatives only. *)
Inductive t :=
| Void
| Eps
| Chr (c : ascii)
| Dot
| Digit
| Seq (r s : t)
| Alt (r s : t)
| Star (r : t).

(** [r?], [r+] and a literal word. *)
Definition Opt (r : t) : t := Alt r Eps.
Definition Plus (r : t) : t := Seq r (Star r).
Fixpoint Lit (w : string) : t :=
  match w with
  | EmptyString => Eps
  | String c EmptyString => Chr c
  | String c w' => Seq (Chr c) (Lit w')
  end.

(** A literal character matches up to case (flag [i]). *)
Definition chr_matches (c x : ascii) : bool := Ascii.eqb (lower c) (lower x).

Fixpoint nullable (r : t) : bool :=
  match r with
  | Void | Chr _ | Dot | Digit => false
  | Eps | Star _ => true
  | Seq r s => nullable r && nullable s
  | Alt r s => nullable r || nullable s
  end.

(** Brzozowski derivative: what is left of [r] once [x] has been read. *)
Fixpoint deriv (x : ascii) (r : t) : t :=
  match r with
  | Void | Eps => Void
  | Chr c => if chr_matches c x then Eps else Void
  | Dot => if is_line_terminator x then Void else Eps
  | Digit => if is_digit x then Eps else Void
  | Seq r s =>
      if nullable r
      then Alt (Seq (deriv x r) s) (deriv x s)
      else Seq (deriv x r) s
  | Alt r s => Alt (deriv x r) (deriv x s)
  | Star r => Seq (deriv x r) (Star r)
  end.

(** Some prefix of [s] matches [r]. *)
Fixpoint matches_at_start (r : t) (s : string) : bool :=
  nullable r
  || match s with
     | EmptyString => false
     | String x s' => matches_at_start (deriv x r) s'
     end.

(** [s.match(r)] is not [null]: [r] matches somewhere in [s]. *)
Fixpoint test (r : t) (s : string) : bool :=
  matches_at_start r s
  || match s with
     | EmptyString => false
     | String _ s' => test r s'
     end.

End Regex.

(** [query.match(/(\d+)/)]: the first capture of the leftmost match, which is
    the longest run of digits that starts at the first digit. *)
Fixpoint digit_run (s : string) : string :=
  match s with
  | EmptyString => EmptyString
  | String c s' => if is_digit c then String c (digit_run s') else EmptyString
  end.

Fixpoint first_digits (s : string) : option string :=
  match s with
  | EmptyString => None
  | String c s' => if is_digit c then Some (digit_run s) else first_digits s'
  end.

(** [parseInt] on a non-empty run of decimal digits. *)
Definition parseInt_digits (ds : string) : N :=
  fold_left (fun acc c => (acc * 10 + N.of_nat (nat_of_ascii c - 48))%N)
            (list_ascii_of_string ds) 0%N.

(** ** [utils/conversationalAI.ts] *)

Module ConversationalAI.

(** The instance: the two private fields, set by [updateData]. *)
Record t := Make {
  stockData : list StockData;
  movingAverages : list MovingAverage
}.

Definition new : t := Make [] [].

Definition updateData (self : t) (sd : list StockData)
    (mas : list MovingAverage) : t :=
  Make sd mas.

(** The handlers, as tags: the [handler] field of an entry of [patterns]. *)
Inductive Intent :=
| MovingAverageQuery
| SpanQuery
| PriceQuery
| TrendQuery
| RecommendationQuery
| HighQuery
| LowQuery
| Unrecognized.

#[global] Instance Intent_eq_dec : EqDecision Intent.
Proof. solve_decision. Defined.

(** The seven patterns, in the order of the array. *)
Definition movingAveragePattern : Regex.t :=
  Regex.Seq
    (Regex.Alt
       (Regex.Seq (Regex.Lit "what")
          (Regex.Seq (Regex.Opt (Regex.Chr "'")) (Regex.Opt (Regex.Chr "s"))))
       (Regex.Alt (Regex.Lit "tell me") (Regex.Lit "show me")))
    (Regex.Seq (Regex.Star Regex.Dot)
       (Regex.Seq
          (Regex.Alt (Regex.Lit "average")
             (Regex.Alt (Regex.Lit "ma") (Regex.Lit "moving average")))
          (Regex.Seq (Regex.Star Regex.Dot) (Regex.Plus Regex.Digit)))).

Definition spanPattern : Regex.t :=
  Regex.Alt
    (Regex.Seq (Regex.Alt (Regex.Lit "span") (Regex.Lit "stock span"))
       (Regex.Seq (Regex.Star Regex.Dot) (Regex.Lit "today")))
    (Regex.Seq (Regex.Lit "current")
       (Regex.Seq (Regex.Star Regex.Dot) (Regex.Lit "span"))).

Definition pricePattern : Regex.t :=
  Regex.Alt (Regex.Lit "price")
    (Regex.Alt (Regex.Lit "current price") (Regex.Lit "latest price")).

Definition trendPattern : Regex.t :=
  Regex.Alt (Regex.Lit "trend")
    (Regex.Alt (Regex.Lit "trending") (Regex.Lit "direction")).

Definition recommendationPattern : Regex.t :=
  Regex.Alt (Regex.Lit "buy")
    (Regex.Alt (Regex.Lit "sell")
       (Regex.Alt (Regex.Lit "hold") (Regex.Lit "recommend"))).

Definition highPattern : Regex.t :=
  Regex.Alt (Regex.Lit "high")
    (Regex.Alt (Regex.Lit "highest") (Regex.Lit "peak")).

Definition lowPattern : Regex.t :=
  Regex.Alt (Regex.Lit "low")
    (Regex.Alt (Regex.Lit "lowest") (Regex.Lit "bottom")).

Definition patterns : list (Regex.t * Intent) :=
  [ (movingAveragePattern, MovingAverageQuery);
    (spanPattern, SpanQuery);
    (pricePattern, PriceQuery);
    (trendPattern, TrendQuery);
    (recommendationPattern, RecommendationQuery);
    (highPattern, HighQuery);
    (lowPattern, LowQuery) ].

(** Truthiness of a possibly absent number: [undefined], [0] and [NaN] are
    falsy. *)
Definition truthy (x : option jsnum) : bool :=
  match x with
  | Some (Fin q) => negb (Qeq_bool q 0)
  | Some PInf | Some NInf => true
  | Some NaN | None => false
  end.

(** [x?.toFixed(2) || 'N/A'] *)
Definition toFixedOrNA (x : option jsnum) : string :=
  match x with
  | Some v => toFixed 2 v
  | None => "N/A"
  end.

(** [x.toFixed(2)] where the guard before it made [x] truthy. *)
Definition toFixedOf (x : option jsnum) : string :=
  match x with
  | Some v => toFixed 2 v
  | None => "undefined"
  end.

Definition handleMovingAverageQuery (self : t) (query : string) : string :=
  match last (movingAverages self) with
  | None =>
      "I don't have any stock data loaded yet. Please upload some data first."
  | Some latest =>
      let days := match first_digits query with
                  | Some ds => parseInt_digits ds
                  | None => 10%N
                  end in
      if (days =? 5)%N && truthy (ma5 latest) then
        "The 5-day moving average is $" +:+ toFixedOf (ma5 latest) +:+ "."
      else if (days =? 10)%N && truthy (ma10 latest) then
        "The 10-day moving average is $" +:+ toFixedOf (ma10 latest) +:+ "."
      else if (days =? 20)%N && truthy (ma20 latest) then
        "The 20-day moving average is $" +:+ toFixedOf (ma20 latest) +:+ "."
      else
        "I have moving averages for 5, 10, and 20 days. The latest values are: 5-day: $"
        +:+ toFixedOrNA (ma5 latest) +:+ ", 10-day: $"
        +:+ toFixedOrNA (ma10 latest) +:+ ", 20-day: $"
        +:+ toFixedOrNA (ma20 latest) +:+ "."
  end.

Definition handleCurrentSpanQuery (self : t) : string :=
  match last (stockData self) with
  | None => "No stock data available. Please upload data to see span analysis."
  | Some latest =>
      let span := span_or_0 latest in
      let interpretation :=
        if (10 <? span)%Z then " This indicates a strong bullish trend!"
        else if (5 <? span)%Z then " This shows moderate bullish momentum."
        else if (span <=? 2)%Z then
          " This suggests bearish pressure or consolidation."
        else " This indicates neutral market sentiment." in
      "The current stock span is " +:+ show_int span +:+ " days."
      +:+ interpretation
  end.

(** [x * 100] and [x >= 0] on the value of a division. *)
Definition times100 (x : jsnum) : jsnum :=
  match x with
  | Fin q => Fin (q * 100)
  | other => other
  end.

Definition nonneg (x : jsnum) : bool :=
  match x with
  | Fin q => Qle_bool 0 q
  | PInf => true
  | NInf | NaN => false
  end.

Definition handlePriceQuery (self : t) : string :=
  match last (stockData self) with
  | None => "No stock data available. Please upload data to see current price."
  | Some latest =>
      let n := length (stockData self) in
      let previous := if 1 <? n then stockData self !! (n - 2) else None in
      let changeText :=
        match previous with
        | None => ""
        | Some previous =>
            let change := (close latest - close previous)%Q in
            let changePercent := times100 (js_div change (close previous)) in
            let direction := if Qle_bool 0 change then "📈" else "📉" in
            " " +:+ direction +:+ " "
            +:+ (if Qle_bool 0 change then "+" else "") +:+ "$"
            +:+ toFixed 2 (Fin change) +:+ " ("
            +:+ (if nonneg changePercent then "+" else "")
            +:+ toFixed 2 changePercent +:+ "%)"
        end in
      "The current price is $" +:+ toFixed 2 (Fin (close latest)) +:+ "."
      +:+ changeText
  end.

(** [recent.slice(1).map((data, i) => data.close - recent[i].close)] *)
Fixpoint priceChanges (recent : list StockData) : list Q :=
  match recent with
  | a :: ((b :: _) as tl) => (close b - close a)%Q :: priceChanges tl
  | _ => []
  end.

Definition handleTrendQuery (self : t) : string :=
  if length (stockData self) <? 5 then
    "I need more data to analyze the trend. Please provide at least 5 days of data."
  else
    let recent := drop (length (stockData self) - 5) (stockData self) in
    let changes := priceChanges recent in
    let upDays := length (List.filter (fun c => Qlt_bool 0 c) changes) in
    let downDays := length (List.filter (fun c => Qlt_bool c 0) changes) in
    let '(trend, emoji) :=
      if 3 <=? upDays then ("bullish uptrend", "🚀")
      else if 3 <=? downDays then ("bearish downtrend", "📉")
      else ("sideways consolidation", "↔️") in
    let spanTrend :=
      match last (stockData self) with
      | Some latest =>
          if (5 <? span_or_0 latest)%Z then "strong momentum"
          else "weak momentum"
      | None => "weak momentum"
      end in
    emoji +:+ " The stock is showing a " +:+ trend +:+ " with " +:+ spanTrend
    +:+ " based on the recent 5-day pattern.".

(** [latestMA.ma10 || 0] *)
Definition ma10_or_0 (r : MovingAverage) : jsnum :=
  if truthy (ma10 r) then default (Fin 0) (ma10 r) else Fin 0.

(** [a > b] and [a < b] for a finite [a]. *)
Definition gt_num (a : Q) (b : jsnum) : bool :=
  match b with
  | Fin q => Qlt_bool q a
  | NInf => true
  | PInf | NaN => false
  end.

Definition lt_num (a : Q) (b : jsnum) : bool :=
  match b with
  | Fin q => Qlt_bool a q
  | PInf => true
  | NInf | NaN => false
  end.

(** The [signals] array of [handleRecommendationQuery]. *)
Definition signalsOf (latest : StockData) (latestMA : MovingAverage)
  : list string :=
  let span := span_or_0 latest in
  (if gt_num (close latest) (ma10_or_0 latestMA)
   then ["Price above 10-day MA (Bullish)"] else [])
  ++ (if lt_num (close latest) (ma10_or_0 latestMA)
      then ["Price below 10-day MA (Bearish)"] else [])
  ++ (if (7 <? span)%Z
      then ["High span indicates strong momentum (Bullish)"] else [])
  ++ (if (span <=? 2)%Z
      then ["Low span indicates weak momentum (Bearish)"] else []).

Definition handleRecommendationQuery (self : t) : string :=
  match last (stockData self), last (movingAverages self) with
  | Some latest, Some latestMA =>
      let signals := signalsOf latest latestMA in
      let bullishSignals :=
        length (List.filter (fun s => includes s "Bullish") signals) in
      let bearishSignals :=
        length (List.filter (fun s => includes s "Bearish") signals) in
      let '(recommendation, reasoning) :=
        if bearishSignals <? bullishSignals then
          ("BUY",
           "Multiple bullish indicators align for a potential buying opportunity.")
        else if bullishSignals <? bearishSignals then
          ("SELL", "Bearish signals suggest considering a sell position.")
        else ("HOLD", "Mixed signals suggest holding current position.") in
      "📊 **" +:+ recommendation +:+ "** - " +:+ reasoning
      +:+ newline +:+ newline +:+ "Signals: " +:+ join ", " signals
  | _, _ =>
      "I need stock data to provide recommendations. Please upload data first."
  end.

(** [Math.max(...xs)] and [Math.min(...xs)] on a non-empty list. *)
Definition maxOf (x : Q) (xs : list Q) : Q :=
  fold_left (fun m y => if Qle_bool m y then y else m) xs x.

Definition minOf (x : Q) (xs : list Q) : Q :=
  fold_left (fun m y => if Qle_bool y m then y else m) xs x.

(** [Array.prototype.find] *)
Fixpoint find {A} (f : A -> bool) (l : list A) : option A :=
  match l with
  | [] => None
  | x :: l' => if f x then Some x else find f l'
  end.

(** [${day?.date}] *)
Definition dateOf (day : option StockData) : string :=
  match day with
  | Some d => date d
  | None => "undefined"
  end.

Definition handleHighQuery (self : t) : string :=
  match stockData self with
  | [] => "No data available to find highest price."
  | d :: ds =>
      let highestPrice := maxOf (high d) (map high ds) in
      let highestDay :=
        find (fun d => Qeq_bool (high d) highestPrice) (stockData self) in
      "The highest price was $" +:+ toFixed 2 (Fin highestPrice) +:+ " on "
      +:+ dateOf highestDay +:+ "."
  end.

Definition handleLowQuery (self : t) : string :=
  match stockData self with
  | [] => "No data available to find lowest price."
  | d :: ds =>
      let lowestPrice := minOf (low d) (map low ds) in
      let lowestDay :=
        find (fun d => Qeq_bool (low d) lowestPrice) (stockData self) in
      "The lowest price was $" +:+ toFixed 2 (Fin lowestPrice) +:+ " on "
      +:+ dateOf lowestDay +:+ "."
  end.

Definition responses : list string :=
  [ "I can help you analyze stock data! Try asking about moving averages, current prices, trends, or recommendations.";
    "Ask me about stock spans, price movements, or technical analysis. I'm here to help!";
    "I can provide insights on trends, moving averages, and trading recommendations. What would you like to know?" ].

(** [responses[Math.floor(Math.random() * responses.length)]], [random]
    being the value [Math.random()] returns; [None] is [undefined]. *)
Definition getDefaultResponse (random : Q) : option string :=
  let i := Qfloor (random * of_nat (length responses)) in
  if (i <? 0)%Z then None else responses !! Z.to_nat i.

(** [handler(normalizedQuery, match)] for the handler of an entry. *)
Definition run_handler (h : Intent) (self : t) (random : Q)
    (normalizedQuery : string) : option string :=
  match h with
  | MovingAverageQuery => Some (handleMovingAverageQuery self normalizedQuery)
  | SpanQuery => Some (handleCurrentSpanQuery self)
  | PriceQuery => Some (handlePriceQuery self)
  | TrendQuery => Some (handleTrendQuery self)
  | RecommendationQuery => Some (handleRecommendationQuery self)
  | HighQuery => Some (handleHighQuery self)
  | LowQuery => Some (handleLowQuery self)
  | Unrecognized => getDefaultResponse random
  end.

(** The [for] loop over [patterns]: the handler of the first entry whose
    pattern matches, the default response when the loop runs out. *)
Fixpoint dispatch (entries : list (Regex.t * Intent)) (self : t)
    (random : Q) (normalizedQuery : string) : option string :=
  match entries with
  | [] => getDefaultResponse random
  | (pattern, handler) :: entries' =>
      if Regex.test pattern normalizedQuery
      then run_handler handler self random normalizedQuery
      else dispatch entries' self random normalizedQuery
  end.

(** [processQuery(query)]; the promise it returns is resolved with the
    value given here. *)
Definition processQuery (self : t) (random : Q) (query : string)
  : option string :=
  let normalizedQuery := trim (toLowerCase query) in
  dispatch patterns self random normalizedQuery.

End ConversationalAI.

(** The moving average as the specification words it: the arithmetic mean of
    the last [min (i+1) w] closes among the closes up to bar [i]. *)
Definition Qsum (l : list Q) : Q := fold_right Qplus 0%Q l.

Definition mean (l : list Q) : Q := (Qsum l / of_nat (length l))%Q.

Definition last_n {A} (n : nat) (l : list A) : list A := drop (length l - n) l.

Definition window_mean (closes : list Q) (i w : nat) : Q :=
  mean (last_n (min (i + 1) w) (take (i + 1) closes)).

(** The span as the specification words it: the number of consecutive bars
    ending at [i], bar [i] included, whose close is [<=] the close of bar
    [i].  The bars are walked backwards from [i] while the test holds. *)
Fixpoint take_while {A} (f : A -> bool) (l : list A) : list A :=
  match l with
  | [] => []
  | x :: l' => if f x then x :: take_while f l' else []
  end.

Definition span_spec (closes : list Q) (i : nat) : nat :=
  match closes !! i with
  | Some c => length (take_while (fun x => Qle_bool x c) (rev (take (S i) closes)))
  | None => 0
  end.

Definition strictly_increasing (l : list Q) : Prop :=
  forall i a b, l !! i = Some a -> l !! S i = Some b -> (a < b)%Q.

Definition strictly_decreasing (l : list Q) : Prop :=
  forall i a b, l !! i = Some a -> l !! S i = Some b -> (b < a)%Q.

(** Pearson's coefficient as the textbooks define it: the sum of the products
    of the deviations from the means, over the product of the square roots of
    the sums of the squared deviations. *)
Definition Rmean (l : list R) : R := (Rsum l / INR (length l))%R.

Definition codeviation (x y : list R) : R :=
  Rsum (zip_with (fun a b => (a - Rmean x) * (b - Rmean y))%R x y).

Definition sq_deviation (x : list R) : R :=
  Rsum (map (fun a => (a - Rmean x) * (a - Rmean x))%R x).

(** The variance of [x] is [sq_deviation x / n]: it is zero exactly when
    [sq_deviation x] is. *)
Definition zero_variance (x : list R) : Prop := sq_deviation x = 0%R.

Definition pearson (x y : list R) : R :=
  (codeviation x y / (sqrt (sq_deviation x) * sqrt (sq_deviation y)))%R.

(** The language of a pattern: [matches r w] when the whole of [w] is
    matched by [r]. *)
Inductive matches : Regex.t -> string -> Prop :=
| matches_eps : matches Regex.Eps ""
| matches_chr c x :
    Regex.chr_matches c x = true -> matches (Regex.Chr c) (String x "")
| matches_dot x :
    is_line_terminator x = false -> matches Regex.Dot (String x "")
| matches_digit x :
    is_digit x = true -> matches Regex.Digit (String x "")
| matches_seq r s u v :
    matches r u -> matches s v -> matches (Regex.Seq r s) (u +:+ v)
| matches_alt_l r s w : matches r w -> matches (Regex.Alt r s) w
| matches_alt_r r s w : matches s w -> matches (Regex.Alt r s) w
| matches_star_nil r : matches (Regex.Star r) ""
| matches_star_cons r u v :
    matches r u -> matches (Regex.Star r) v -> matches (Regex.Star r) (u +:+ v).

(** The two series [calculateSentimentSpanCorrelation] correlates. *)
Definition scores_of (sentimentData : list SentimentData) : list R :=
  map (fun s => Q2R (score s)) sentimentData.

Definition spans_of (stockData : list StockData) : list R :=
  map (fun s => IZR (span_or_0 s)) stockData.

(** The intent of a query: the handler of the first entry of [entries] whose
    pattern matches, [Unrecognized] when none does. *)
Fixpoint first_match (entries : list (Regex.t * ConversationalAI.Intent))
    (normalizedQuery : string) : ConversationalAI.Intent :=
  match entries with
  | [] => ConversationalAI.Unrecognized
  | (pattern, handler) :: entries' =>
      if Regex.test pattern normalizedQuery then handler
      else first_match entries' normalizedQuery
  end.

Definition classify (query : string) : ConversationalAI.Intent :=
  first_match ConversationalAI.patterns (trim (toLowerCase query)).

(** The recommendation as the specification words it: the number of bullish
    and of bearish signals, and the verdict they give. *)
Definition bullishCount (latest : StockData) (latestMA : MovingAverage) : nat :=
  Nat.b2n (ConversationalAI.gt_num (close latest)
             (ConversationalAI.ma10_or_0 latestMA))
  + Nat.b2n (7 <? span_or_0 latest)%Z.

Definition bearishCount (latest : StockData) (latestMA : MovingAverage) : nat :=
  Nat.b2n (ConversationalAI.lt_num (close latest)
             (ConversationalAI.ma10_or_0 latestMA))
  + Nat.b2n (span_or_0 latest <=? 2)%Z.

Definition verdict (bullish bearish : nat) : string :=
  if bearish <? bullish then "BUY"
  else if bullish <? bearish then "SELL"
  else "HOLD".

Definition rationale (bullish bearish : nat) : string :=
  if bearish <? bullish then
    "Multiple bullish indicators align for a potential buying opportunity."
  else if bullish <? bearish then
    "Bearish signals suggest considering a sell position."
  else "Mixed signals suggest holding current position.".

Definition recommendationText (bullish bearish : nat) (signals : list string)
  : string :=
  "📊 **" +:+ verdict bullish bearish +:+ "** - " +:+ rationale bullish bearish
  +:+ newline +:+ newline +:+ "Signals: " +:+ join ", " signals.

(** [c] occurs in [s]. *)
Fixpoint has_char (c : ascii) (s : string) : bool :=
  match s with
  | EmptyString => false
  | String x s' => Ascii.eqb c x || has_char c s'
  end.

(** Notions used to state the loop invariant of [calculateSpan].  [rpre] is
    the list of the bars already read, the latest first. *)

(** Length of the run of bars at the head of [rpre] whose close is [<= p]. *)
Definition run (p : Q) (rpre : list Q) : nat :=
  length (take_while (fun x => Qle_bool x p) rpre).

(** The stack the loop holds once the bars [rpre] have been read. *)
Fixpoint canon (rpre : list Q) : list StockSpanCalculator.entry :=
  match rpre with
  | [] => []
  | p :: older =>
      StockSpanCalculator.Entry (length older) p
        :: StockSpanCalculator.pop_while (canon older) p
  end.

(** The spans of the bars [rest] that follow the bars [rpre]. *)
Fixpoint spans_from (rpre rest : list Q) : list nat :=
  match rest with
  | [] => []
  | p :: rest' => S (run p rpre) :: spans_from (p :: rpre) rest'
  end.

(** Notions used to state the loop invariant of [calculateMovingAverages]. *)

(** The average [window_step] stores for a queue and its sum. *)
Definition average_of (w : nat) (queue : list Q) (sum : Q) : jsnum :=
  if length queue =? w then js_div sum (of_nat w)
  else js_div sum (of_nat (length queue)).

(** After the closes [cs], the queue of window [w] holds the last
    [min (length cs) w] of them and the sum is the sum of the queue. *)
Definition win_inv (w : nat) (cs : list Q) (self : MovingAverageCalculator.t)
  : Prop :=
  exists q s,
    MovingAverageCalculator.queues self !! w = Some q
    /\ MovingAverageCalculator.sums self !! w = Some s
    /\ q = last_n (min (length cs) w) cs
    /\ (s == Qsum q)%Q.

(** ** Data for the examples *)

(** A bar with the given close, for the examples. *)
Definition bar (c : Q) : StockData := mkStockData "2024-01-01" c c c c 0 None.

(** A context with close 130 above a 10-day average of 123.45 and span 9. *)
Definition averages (a b c : Q) : MovingAverage :=
  mkMovingAverage "2024-01-02"
    (<[5 := Fin a]> (<[10 := Fin b]> (<[20 := Fin c]> ∅))).

Definition example_context : ConversationalAI.t :=
  ConversationalAI.updateData ConversationalAI.new
    [with_span (bar 100) (Some 1%Z); with_span (bar 130) (Some 9%Z)]
    [averages 100 100 100; averages 120 (12345 # 100) 110].

(** ** More of the code, and the notions used to state its properties *)

(** The shape of the stack [calculateSpan] works on: towards the bottom the
    indices go down and the prices go strictly up. *)
Fixpoint monotonic_stack (st : list StockSpanCalculator.entry) : Prop :=
  match st with
  | upper :: ((lower :: _) as below) =>
      StockSpanCalculator.index lower < StockSpanCalculator.index upper
      /\ (StockSpanCalculator.price upper < StockSpanCalculator.price lower)%Q
      /\ monotonic_stack below
  | _ => True
  end.

(** The queue and the sum one window holds after the closes [cs], starting
    from the empty queue and the zero sum. *)
Definition window_trace (w : nat) (cs : list Q) : list Q * Q :=
  fold_left (fun qs c => MovingAverageCalculator.push_window w c qs.1 qs.2)
            cs ([], 0%Q).

(** Two instances that are configured alike and hold the same queues and sums
    at the configured sizes. *)
Definition agree_on_sizes (s1 s2 : MovingAverageCalculator.t) : Prop :=
  MovingAverageCalculator.windowSizes s1 = MovingAverageCalculator.windowSizes s2
  /\ forall w, w ∈ MovingAverageCalculator.windowSizes s1 ->
       MovingAverageCalculator.queues s1 !! w
         = MovingAverageCalculator.queues s2 !! w
       /\ MovingAverageCalculator.sums s1 !! w
         = MovingAverageCalculator.sums s2 !! w.

(** ** [utils/sentimentAnalyzer.ts], [analyzeSentiment] *)

(** [SentimentData] as [analyzeSentiment] fills it: the score comes out of
    [Math.tanh], a real number ([None] is [NaN]); the volume is an integer. *)
Record SentimentSample := mkSentimentSample {
  sample_date : string;
  sample_score : option R;
  sample_confidence : R;
  sample_volume : Z
}.

(** [x * k] and [x / k] for a constant [k] above 0, on the value of a
    division. *)
Definition js_times (x : jsnum) (k : Q) : jsnum :=
  match x with
  | Fin q => Fin (q * k)
  | other => other
  end.

Definition js_over (x : jsnum) (k : Q) : jsnum :=
  match x with
  | Fin q => Fin (q / k)
  | other => other
  end.

(** [Math.tanh] *)
Definition tanh_js (x : jsnum) : option R :=
  match x with
  | Fin q => Some (tanh (Q2R q))
  | PInf => Some 1%R
  | NInf => Some (-1)%R
  | NaN => None
  end.

Module SentimentSimulation.

(** The callback of [stockData.map] at [index]; [previous] is
    [stockData[index - 1]], absent at index 0.  [random k] is the value the
    [k]-th call of [Math.random] returns, the calls being counted from 0 over
    the whole [map]: three per bar, for the noise, the confidence and the
    volume, in this order. *)
Definition sample (random : nat -> R) (previous : option StockData)
    (index : nat) (data : StockData) : SentimentSample :=
  let priceChange :=
    match previous with
    | Some prev =>
        js_times (js_div (close data - close prev) (close prev)) 100
    | None => Fin 0
    end in
  let baseSentiment := tanh_js (js_over priceChange 5) in
  let noise := ((random (3 * index)%nat - 5 / 10) * (4 / 10))%R in
  let sentiment :=
    (fun b => Rmax (-1) (Rmin 1 (b + noise)))%R <$> baseSentiment in
  let confidence := (6 / 10 + random (3 * index + 1)%nat * (4 / 10))%R in
  let volume := Int_part (100 + random (3 * index + 2)%nat * 900)%R in
  mkSentimentSample (date data) sentiment confidence volume.

Fixpoint samples_from (random : nat -> R) (previous : option StockData)
    (index : nat) (rest : list StockData) : list SentimentSample :=
  match rest with
  | [] => []
  | data :: rest' =>
      sample random previous index data
        :: samples_from random (Some data) (S index) rest'
  end.

(** [analyzeSentiment(stockData)] *)
Definition analyzeSentiment (random : nat -> R) (stockData : list StockData)
  : list SentimentSample :=
  samples_from random None 0 stockData.

(** [calculateSentimentSpanCorrelation] on the samples [analyzeSentiment]
    returns: a [NaN] among the scores makes every sum [NaN], and the result
    with it, once the two guards are passed. *)
Definition calculateSentimentSpanCorrelation
    (sentimentData : list SentimentSample) (stockData : list StockData)
  : option R :=
  if negb (length sentimentData =? length stockData)
     || (length sentimentData <? 2)
  then Some 0%R
  else
    match mapM sample_score sentimentData with
    | Some sentimentScores =>
        SentimentAnalyzer.pearsonCorrelation sentimentScores
          (map (fun s => IZR (span_or_0 s)) stockData)
    | None => None
    end.

End SentimentSimulation.

(** A record of rational numbers, read as a sample. *)
Definition sample_of (s : SentimentData) : SentimentSample :=
  mkSentimentSample (sentiment_date s) (Some (Q2R (score s)))
    (Q2R (confidence s)) (Qfloor (sentiment_volume s)).

(** [Math.random] returns a number in [[0, 1)]. *)
Definition unit_interval (random : nat -> R) : Prop :=
  forall k, (0 <= random k < 1)%R.

(** ** [App.tsx], [processStockData] *)

Module App.

Record AnalysisResult := mkAnalysisResult {
  stockData : list StockData;
  movingAverages : list MovingAverage;
  sentimentData : list SentimentSample;
  correlationScore : option R
}.

(** The value handed to [setAnalysisResult]. *)
Definition processStockData (random : nat -> R) (stockData : list StockData)
  : AnalysisResult :=
  let spanCalculator := StockSpanCalculator.Make [] in
  let maCalculator :=
    MovingAverageCalculator.new MovingAverageCalculator.defaultWindowSizes in
  let stockDataWithSpan :=
    (StockSpanCalculator.calculateSpanForStockData spanCalculator stockData).1 in
  let movingAverages :=
    (MovingAverageCalculator.calculateMovingAverages maCalculator stockData).1 in
  let sentimentData := SentimentSimulation.analyzeSentiment random stockData in
  let correlationScore :=
    SentimentSimulation.calculateSentimentSpanCorrelation
      sentimentData stockDataWithSpan in
  mkAnalysisResult stockDataWithSpan movingAverages sentimentData
    correlationScore.

(** The assistant of the chat tab: [ConversationalInterface] receives
    [stockData] and [movingAverages] of the result and passes them to
    [updateData] of a new [ConversationalAI]. *)
Definition assistant (result : AnalysisResult) : ConversationalAI.t :=
  ConversationalAI.updateData ConversationalAI.new
    (stockData result) (movingAverages result).

End App.

(** ** [components/StockChart.tsx], the geometry of the chart *)

Module StockChart.
Section Geometry.
(** [stockData] is [d :: ds]: the component returns before this point when
    the series is empty. *)
Variables (d : StockData) (ds : list StockData).

Definition maxPrice : Q := ConversationalAI.maxOf (high d) (map high ds).
Definition minPrice : Q := ConversationalAI.minOf (low d) (map low ds).
Definition priceRange : Q := maxPrice - minPrice.

(** [Math.max(...stockData.map(d => d.span || 0))] *)
Definition maxSpan : Z := fold_left Z.max (map span_or_0 ds) (span_or_0 d).

Definition getYPosition (value : Q) : jsnum :=
  js_times (js_div (maxPrice - value) priceRange) 200.

Definition getSpanHeight (span : Z) : jsnum :=
  js_times (js_div (inject_Z span) (inject_Z maxSpan)) 60.

End Geometry.
End StockChart.

(** ** [components/AnalysisResults.tsx], the key metrics *)

Module AnalysisResults.

(** [None]: the component returned before, the series being empty. *)
Definition priceChange (stockData : list StockData) : option jsnum :=
  match last stockData with
  | None => None
  | Some latest =>
      let previous :=
        if 1 <? length stockData
        then stockData !! (length stockData - 1) else None in
      Some match previous with
           | Some previous =>
               js_times
                 (js_div (close latest - close previous) (close previous)) 100
           | None => Fin 0
           end
  end.

Definition avgSpan (stockData : list StockData) : jsnum :=
  js_div
    (inject_Z (fold_left (fun sum data => (sum + span_or_0 data)%Z)
                 stockData 0%Z))
    (of_nat (length stockData)).

End AnalysisResults.

(** Two consecutive bars that both close at 0. *)
Definition flat_zero (stockData : list StockData) (i : nat) : Prop :=
  exists j d p, i = S j /\ stockData !! i = Some d /\ stockData !! j = Some p
    /\ (close d == 0)%Q /\ (close p == 0)%Q.

(** Some character of [s] is a decimal digit. *)
Fixpoint has_digit (s : string) : bool :=
  match s with
  | EmptyString => false
  | String c s' => is_digit c || has_digit s'
  end.

(** ** The arithmetic of the source: binary64 *)

(** The classes whose results depend on how sums, products and quotients are
    rounded, once more, on the numbers ECMAScript computes with: IEEE-754
    binary64, with its rounding to nearest, its two zeros, its infinities and
    [NaN] (Rocq's primitive [float]).  A decimal literal stands for the
    nearest binary64 number, as in the source text. *)

Module Binary64.
Import PrimFloat.
#[local] Set Warnings "-inexact-float".
#[local] Open Scope float_scope.

(** An array length or a window size as a number (exact below 2^53). *)
Definition of_nat (n : nat) : float := of_uint63 (Uint63.of_Z (Z.of_nat n)).

(** [types/index.ts] *)
Record StockData := mkStockData {
  date : string;
  open : float;
  high : float;
  low : float;
  close : float;
  volume : float;
  span : option float
}.

(** [date] and one property [ma<w>] per window size [w] that was set. *)
Record MovingAverage := mkMovingAverage {
  ma_date : string;
  ma : gmap nat float
}.

Record SentimentData := mkSentimentData {
  sentiment_date : string;
  score : float;
  confidence : float;
  sentiment_volume : float
}.

(** [d.span || 0]: [undefined], the zeros and [NaN] are falsy. *)
Definition span_or_0 (d : StockData) : float :=
  match span d with
  | Some s => if is_nan s || (s =? 0) then 0 else s
  | None => 0
  end.

(** A bar with the given close, a bar with the given span and a sentiment
    record with the given score, for the examples. *)
Definition bar (c : float) : StockData :=
  mkStockData "2024-01-01" c c c c 0 None.

Definition spanned (s : float) : StockData :=
  mkStockData "2024-01-01" 1 1 1 1 0 (Some s).

Definition scored (s : float) : SentimentData :=
  mkSentimentData "2024-01-01" s 1 100.

Module MovingAverageCalculator.

Record t := Make {
  windowSizes : list nat;
  queues : gmap nat (list float);
  sums : gmap nat float
}.

Definition reset (self : t) : t :=
  fold_left
    (fun self size =>
       Make (windowSizes self)
            (<[size := []]> (queues self))
            (<[size := 0]> (sums self)))
    (windowSizes self) self.

(** [constructor(private windowSizes: number[] = [5, 10, 20])] *)
Definition defaultWindowSizes : list nat := [5; 10; 20]%nat.

Definition new (sizes : list nat) : t := reset (Make sizes ∅ ∅).

(** [queue.push(data.close); sum += data.close;] then, when
    [queue.length > windowSize], [sum -= queue.shift()]. *)
Definition push_window (w : nat) (c : float) (queue : list float)
    (sum : float) : list float * float :=
  let queue := queue ++ [c] in
  let sum := sum + c in
  if (w <? length queue)%nat
  then (tail queue, sum - hd 0 queue)
  else (queue, sum).

(** Body of the inner [forEach]. *)
Definition window_step (data : StockData)
    (acc : t * gmap nat float) (windowSize : nat) : t * gmap nat float :=
  let '(self, averages) := acc in
  let queue := default [] (queues self !! windowSize) in
  let sum := default 0 (sums self !! windowSize) in
  let '(queue, sum) := push_window windowSize (close data) queue sum in
  let self := Make (windowSizes self)
                   (<[windowSize := queue]> (queues self))
                   (<[windowSize := sum]> (sums self)) in
  let average :=
    if (length queue =? windowSize)%nat
    then sum / of_nat windowSize
    else sum / of_nat (length queue) in
  (self, <[windowSize := average]> averages).

(** Body of the outer [forEach]: one record per bar. *)
Definition data_step (acc : t * list MovingAverage) (data : StockData)
  : t * list MovingAverage :=
  let '(self, result) := acc in
  let '(self, averages) :=
    fold_left (window_step data) (windowSizes self) (self, ∅) in
  (self, result ++ [mkMovingAverage (date data) averages]).

Definition calculateMovingAverages (self : t) (stockData : list StockData)
  : list MovingAverage * t :=
  let '(self, result) := fold_left data_step stockData (reset self, []) in
  (result, self).

End MovingAverageCalculator.

Module SentimentAnalyzer.

(** [pearsonCorrelation(x, y)]; [y[i]] is [undefined] past the end of [y],
    and a product with it is [NaN]. *)
Definition pearsonCorrelation (x y : list float) : float :=
  let n := of_nat (length x) in
  if (length x =? 0)%nat then 0
  else
    let sumX := fold_left add x 0 in
    let sumY := fold_left add y 0 in
    let sumXY :=
      fold_left (fun sum ix => sum + ix.2 * default nan (y !! ix.1))
                (imap pair x) 0 in
    let sumXX := fold_left (fun sum xi => sum + xi * xi) x 0 in
    let sumYY := fold_left (fun sum yi => sum + yi * yi) y 0 in
    let numerator := n * sumXY - sumX * sumY in
    let denominator :=
      sqrt ((n * sumXX - sumX * sumX) * (n * sumYY - sumY * sumY)) in
    if denominator =? 0 then 0 else numerator / denominator.

Definition calculateSentimentSpanCorrelation
    (sentimentData : list SentimentData) (stockData : list StockData)
  : float :=
  if negb (length sentimentData =? length stockData)%nat
     || (length sentimentData <? 2)%nat
  then 0
  else
    let sentimentScores := map score sentimentData in
    let spans := map span_or_0 stockData in
    pearsonCorrelation sentimentScores spans.

End SentimentAnalyzer.

(** The running sum of window [w] once [k] closes of [cs] are read: every
    close is added, and from the moment the window is full the close that
    leaves it, [w] places back, is subtracted; each operation is rounded. *)
Fixpoint running_sum (w : nat) (cs : list float) (k : nat) : float :=
  match k with
  | O => 0
  | S j =>
      let sum := running_sum w cs j + nth j cs 0 in
      if (w <=? j)%nat then sum - nth (j - w) cs 0 else sum
  end.

(** The rational number a finite binary64 number stands for. *)
Definition rational (x : float) : Q :=
  match FloatOps.Prim2SF x with
  | SpecFloat.S754_finite s m e =>
      ((if s then -1 else 1) * inject_Z (Z.pos m) * Qpower 2 e)%Q
  | _ => 0%Q
  end.

(** [x], the result of an operation, is finite and stands for [q], the
    exact result: the operation did not round. *)
Definition exactly (x : float) (q : Q) : Prop :=
  is_finite x = true /\ (rational x == q)%Q.

(** The average [window_step] stores for a queue and its sum. *)
Definition average_of (w : nat) (queue : list float) (sum : float) : float :=
  if (length queue =? w)%nat then sum / of_nat w
  else sum / of_nat (length queue).

(** No addition and no subtraction of the first [k] steps of the running
    sum rounds. *)
Definition no_rounding (w : nat) (cs : list float) (k : nat) : Prop :=
  forall j, (j < k)%nat ->
    let sum := running_sum w cs j in
    let c := nth j cs 0 in
    exactly (sum + c) (rational sum + rational c)
    /\ ((w <= j)%nat ->
        exactly (sum + c - nth (j - w) cs 0)
                (rational (sum + c) - rational (nth (j - w) cs 0))).

End Binary64.

(* ================================================================== *)
(** * Part II.  Properties                                              *)
(* ================================================================== *)

(** ** The span calculator *)

Section SpanProofs.
Import StockSpanCalculator.

Lemma take_while_length_le {A} (f : A -> bool) l :
  length (take_while f l) <= length l.
Proof. induction l as [|x l IH]; simpl; [lia|]. destruct (f x); simpl; lia. Qed.

Lemma take_while_all {A} (f : A -> bool) l :
  Forall (fun x => f x = true) l -> take_while f l = l.
Proof.
  induction 1 as [|x l Hx _ IH]; simpl; [done|]. by rewrite Hx, IH.
Qed.

(** A weaker test takes at least what a stronger one takes, then goes on. *)
Lemma take_while_weaken {A} (f g : A -> bool) l :
  (forall x, f x = true -> g x = true) ->
  take_while g l =
  take_while f l ++ take_while g (drop (length (take_while f l)) l).
Proof.
  intros Hfg. induction l as [|x l IH]; simpl; [done|].
  destruct (f x) eqn:Hf; simpl.
  - rewrite (Hfg _ Hf). by rewrite <- IH.
  - done.
Qed.

Lemma Qle_bool_trans x y z :
  Qle_bool x y = true -> Qle_bool y z = true -> Qle_bool x z = true.
Proof. rewrite !Qle_bool_iff. apply Qle_trans. Qed.

Lemma pop_while_canon_aux n : forall rpre p,
  length rpre <= n ->
  pop_while (canon rpre) p = canon (drop (run p rpre) rpre).
Proof.
  induction n as [|n IH]; intros [|q older] p Hn; simpl in *; try done; try lia.
  unfold run; simpl.
  destruct (Qle_bool q p) eqn:Hqp; simpl; [|done].
  rewrite (IH older q) by lia.
  rewrite (IH (drop (run q older) older) p)
    by (rewrite length_drop; lia).
  rewrite drop_drop. f_equal. f_equal.
  rewrite (take_while_weaken (fun x => Qle_bool x q) (fun x => Qle_bool x p))
    by (intros x Hx; eapply Qle_bool_trans; eauto).
  rewrite length_app. reflexivity.
Qed.

Lemma pop_while_canon rpre p :
  pop_while (canon rpre) p = canon (drop (run p rpre) rpre).
Proof. by apply (pop_while_canon_aux (length rpre)). Qed.

Lemma step_canon rpre p :
  step (length rpre) p (canon rpre) = (S (run p rpre), canon (p :: rpre)).
Proof.
  unfold step. simpl. f_equal.
  rewrite pop_while_canon.
  assert (Hle : run p rpre <= length rpre) by apply take_while_length_le.
  destruct (drop (run p rpre) rpre) as [|x r] eqn:Hd; simpl.
  - apply (f_equal length) in Hd. rewrite length_drop in Hd. simpl in Hd. lia.
  - apply (f_equal length) in Hd. rewrite length_drop in Hd. simpl in Hd. lia.
Qed.

Lemma loop_canon rest : forall rpre spans,
  loop rest (length rpre) (canon rpre) spans =
  (spans ++ spans_from rpre rest, canon (rev rest ++ rpre)).
Proof.
  induction rest as [|p rest IH]; intros rpre spans; cbn [loop].
  - by rewrite app_nil_r.
  - rewrite step_canon.
    change (S (length rpre)) with (length (p :: rpre)).
    rewrite IH. simpl. by rewrite <- !app_assoc.
Qed.

Lemma calculateSpan_spans self prices :
  fst (calculateSpan self prices) = spans_from [] prices.
Proof.
  unfold calculateSpan.
  pose proof (loop_canon prices [] []) as H. simpl in H. by rewrite H.
Qed.

Lemma spans_from_length rest : forall rpre,
  length (spans_from rpre rest) = length rest.
Proof. induction rest; intros; simpl; [done|]. by rewrite IHrest. Qed.

Lemma spans_from_lookup rest : forall rpre i c,
  rest !! i = Some c ->
  spans_from rpre rest !! i = Some (S (run c (rev (take i rest) ++ rpre))).
Proof.
  induction rest as [|p rest IH]; intros rpre i c Hi; [done|].
  destruct i as [|i]; simpl in *.
  - by inversion Hi.
  - rewrite (IH (p :: rpre) i c Hi). by rewrite <- app_assoc.
Qed.

Lemma span_spec_run closes i c :
  closes !! i = Some c ->
  span_spec closes i = S (run c (rev (take i closes))).
Proof.
  intros Hi. unfold span_spec. rewrite Hi.
  rewrite (take_S_r _ _ _ Hi), rev_app_distr. simpl.
  assert (Qle_bool c c = true) as -> by (apply Qle_bool_iff, Qle_refl).
  reflexivity.
Qed.

Lemma calculateSpan_length self prices :
  length (fst (calculateSpan self prices)) = length prices.
Proof. by rewrite calculateSpan_spans, spans_from_length. Qed.

Lemma calculateSpan_lookup self prices i c :
  prices !! i = Some c ->
  fst (calculateSpan self prices) !! i = Some (span_spec prices i).
Proof.
  intros Hi. rewrite calculateSpan_spans.
  rewrite (spans_from_lookup _ _ _ _ Hi), app_nil_r.
  by rewrite (span_spec_run _ _ _ Hi).
Qed.

Lemma run_le p rpre : run p rpre <= length rpre.
Proof. apply take_while_length_le. Qed.

Lemma increasing_all_before l :
  strictly_increasing l ->
  forall i j a b, j < i -> l !! j = Some a -> l !! i = Some b -> (a < b)%Q.
Proof.
  intros Hinc. induction i as [|i IH]; intros j a b Hji Ha Hb; [lia|].
  destruct (lookup_lt_is_Some_2 l i) as [m Hm].
  { apply lookup_lt_Some in Hb. lia. }
  pose proof (Hinc i m b Hm Hb) as Hmb.
  destruct (decide (j = i)) as [->|Hne].
  - congruence.
  - eapply Qlt_trans; [|exact Hmb]. eapply IH; eauto. lia.
Qed.

Lemma span_increasing closes i c :
  strictly_increasing closes -> closes !! i = Some c ->
  span_spec closes i = i + 1.
Proof.
  intros Hinc Hi. rewrite (span_spec_run _ _ _ Hi). unfold run.
  rewrite take_while_all.
  - rewrite length_rev, length_take.
    apply lookup_lt_Some in Hi. lia.
  - apply Forall_forall. intros x Hx. apply Qle_bool_iff, Qlt_le_weak.
    apply list_elem_of_In, in_rev, list_elem_of_In in Hx.
    apply list_elem_of_lookup in Hx as [j Hj].
    apply lookup_take_Some in Hj as [Hj Hlt].
    eapply increasing_all_before; eauto.
Qed.

Lemma span_decreasing closes i c :
  strictly_decreasing closes -> closes !! i = Some c ->
  span_spec closes i = 1.
Proof.
  intros Hdec Hi. rewrite (span_spec_run _ _ _ Hi). unfold run.
  destruct i as [|i]; [done|].
  destruct (lookup_lt_is_Some_2 closes i) as [m Hm].
  { apply lookup_lt_Some in Hi. lia. }
  rewrite (take_S_r _ _ _ Hm), rev_app_distr. simpl.
  pose proof (Hdec i m c Hm Hi) as Hlt.
  destruct (Qle_bool m c) eqn:Hle; [|done].
  apply Qle_bool_iff in Hle. exfalso. eapply Qlt_not_le; eauto.
Qed.

End SpanProofs.

(** C2.  [calculateSpan] returns one span per close, and the span of bar [i]
    is the number of consecutive bars ending at [i] (bar [i] included) whose
    close is at most the close of bar [i].  In particular: no bar, no span;
    strictly increasing closes give span [i+1] at every [i]; strictly
    decreasing closes give span [1] everywhere; and [5,5,5] gives [1,2,3]. *)
Theorem calculateSpan_counts_consecutive_bars
    (self : StockSpanCalculator.t) (closes : list Q) :
  let spans := fst (StockSpanCalculator.calculateSpan self closes) in
  length spans = length closes
  /\ (forall i, i < length closes -> spans !! i = Some (span_spec closes i))
  /\ fst (StockSpanCalculator.calculateSpan self []) = []
  /\ (strictly_increasing closes ->
      forall i, i < length closes -> spans !! i = Some (i + 1))
  /\ (strictly_decreasing closes ->
      forall i, i < length closes -> spans !! i = Some 1)
  /\ fst (StockSpanCalculator.calculateSpan self [5#1; 5#1; 5#1]%Q) = [1; 2; 3].
Proof.
  cbv zeta. split; [apply calculateSpan_length|].
  split.
  { intros i Hi. destruct (lookup_lt_is_Some_2 closes i Hi) as [c Hc].
    eapply calculateSpan_lookup; eauto. }
  split; [reflexivity|].
  split.
  { intros Hinc i Hi. destruct (lookup_lt_is_Some_2 closes i Hi) as [c Hc].
    rewrite (calculateSpan_lookup _ _ _ _ Hc).
    by rewrite (span_increasing _ _ _ Hinc Hc). }
  split.
  { intros Hdec i Hi. destruct (lookup_lt_is_Some_2 closes i Hi) as [c Hc].
    rewrite (calculateSpan_lookup _ _ _ _ Hc).
    by rewrite (span_decreasing _ _ _ Hdec Hc). }
  reflexivity.
Qed.

(** The conjuncts of C2 at [10,11,12,13]: a concrete strictly increasing
    series, every hypothesis discharged by computation. *)
Lemma calculateSpan_counts_consecutive_bars_witness :
  fst (StockSpanCalculator.calculateSpan (StockSpanCalculator.Make [])
         [10#1; 11#1; 12#1; 13#1]%Q) !! 3 = Some (3 + 1).
Proof.
  pose proof (calculateSpan_counts_consecutive_bars (StockSpanCalculator.Make [])
                [10#1; 11#1; 12#1; 13#1]%Q) as H.
  cbv zeta in H. destruct H as (_ & _ & _ & Hinc & _).
  apply Hinc.
  - intros [|[|[|[|i]]]] a b Ha Hb; simpl in Ha, Hb;
      try discriminate; inversion Ha; inversion Hb; subst; reflexivity.
  - simpl. lia.
Defined.

(** The examples of the specification, by evaluation. *)
Example calculateSpan_increasing_example :
  fst (StockSpanCalculator.calculateSpan (StockSpanCalculator.Make [])
         [10#1; 11#1; 12#1; 13#1]%Q) = [1; 2; 3; 4].
Proof. reflexivity. Qed.

Example calculateSpan_decreasing_example :
  fst (StockSpanCalculator.calculateSpan (StockSpanCalculator.Make [])
         [13#1; 12#1; 11#1; 10#1]%Q) = [1; 1; 1; 1].
Proof. reflexivity. Qed.

(** The stack left by an earlier call does not leak into the next one. *)
Lemma calculateSpan_resets_stack self self' prices :
  fst (StockSpanCalculator.calculateSpan self prices) =
  fst (StockSpanCalculator.calculateSpan self' prices).
Proof. reflexivity. Qed.

(** Every bar receives its span. *)
Lemma calculateSpanForStockData_lookup self stockData i d :
  stockData !! i = Some d ->
  (StockSpanCalculator.calculateSpanForStockData self stockData).1 !! i =
  Some (with_span d (Some (Z.of_nat (span_spec (map close stockData) i)))).
Proof.
  intros Hd. unfold StockSpanCalculator.calculateSpanForStockData.
  pose proof (calculateSpan_lookup self (map close stockData) i (close d)) as H.
  rewrite list_lookup_fmap, Hd in H. specialize (H eq_refl).
  destruct (StockSpanCalculator.calculateSpan self (map close stockData))
    as [spans self'] eqn:E.
  simpl in *. rewrite list_lookup_imap, Hd. simpl. by rewrite H.
Qed.

(** C7.  On a non-empty series the output of the span engine is as long as
    its input and every span lies between 1 and its 1-based position. *)
Theorem calculateSpan_bounds
    (self : StockSpanCalculator.t) (closes : list Q) :
  closes <> [] ->
  let spans := fst (StockSpanCalculator.calculateSpan self closes) in
  length spans = length closes
  /\ forall i s, spans !! i = Some s -> 1 <= s <= i + 1.
Proof.
  intros _. cbv zeta. split; [apply calculateSpan_length|].
  intros i s Hs.
  assert (Hi : i < length closes).
  { apply lookup_lt_Some in Hs. by rewrite calculateSpan_length in Hs. }
  destruct (lookup_lt_is_Some_2 closes i Hi) as [c Hc].
  rewrite (calculateSpan_lookup _ _ _ _ Hc) in Hs. inversion Hs; subst s.
  rewrite (span_spec_run _ _ _ Hc).
  pose proof (run_le c (rev (take i closes))) as Hle.
  rewrite length_rev, length_take in Hle. lia.
Qed.

Lemma calculateSpan_bounds_witness :
  [3#1; 1#1; 2#1]%Q <> []
  /\ length (fst (StockSpanCalculator.calculateSpan (StockSpanCalculator.Make [])
                    [3#1; 1#1; 2#1]%Q)) = 3
  /\ forall i s,
       fst (StockSpanCalculator.calculateSpan (StockSpanCalculator.Make [])
              [3#1; 1#1; 2#1]%Q) !! i = Some s -> 1 <= s <= i + 1.
Proof.
  split; [discriminate|].
  apply (calculateSpan_bounds (StockSpanCalculator.Make []) [3#1; 1#1; 2#1]%Q).
  discriminate.
Defined.

(** ** The moving-average calculator *)

Section MovingAverageProofs.
Import MovingAverageCalculator.

Lemma Qsum_snoc l c : (Qsum (l ++ [c]) == Qsum l + c)%Q.
Proof.
  induction l as [|x l IH]; simpl.
  - ring.
  - rewrite IH. ring.
Qed.

Lemma of_nat_pos n : 0 < n -> Qeq_bool (of_nat n) 0 = false.
Proof.
  intros Hn. destruct (Qeq_bool (of_nat n) 0) eqn:E; [|done].
  apply Qeq_bool_eq in E. unfold of_nat, Qeq in E. simpl in E. lia.
Qed.

Lemma js_div_pos s n : 0 < n -> js_div s (of_nat n) = Fin (s / of_nat n).
Proof. intros Hn. unfold js_div. by rewrite of_nat_pos. Qed.

Lemma last_n_length {A} n (l : list A) : length (last_n n l) = min n (length l).
Proof. unfold last_n. rewrite length_drop. lia. Qed.

(** The reset puts an empty queue and a zero sum at every configured size. *)
Lemma reset_fold ws : forall self,
  let self' :=
    fold_left (fun self size =>
                 Make (windowSizes self) (<[size := []]> (queues self))
                      (<[size := 0%Q]> (sums self))) ws self in
  windowSizes self' = windowSizes self
  /\ forall w, w ∈ ws -> queues self' !! w = Some [] /\ sums self' !! w = Some 0%Q.
Proof.
  induction ws as [|a ws IH] using rev_ind; intros self; simpl.
  - split; [done|]. intros w Hw. by apply elem_of_nil in Hw.
  - rewrite fold_left_app. simpl.
    destruct (IH self) as [Hws Hlk]. split; [done|].
    intros w Hw. destruct (decide (a = w)) as [->|Hne].
    + by rewrite !lookup_insert_eq.
    + rewrite !lookup_insert_ne by done. apply Hlk.
      apply elem_of_app in Hw as [Hw|Hw]; [done|].
      apply list_elem_of_singleton in Hw. congruence.
Qed.

Lemma reset_spec self :
  windowSizes (reset self) = windowSizes self
  /\ forall w, w ∈ windowSizes self ->
       queues (reset self) !! w = Some [] /\ sums (reset self) !! w = Some 0%Q.
Proof. apply reset_fold. Qed.

Lemma window_fold_frame data ws : forall self averages w,
  w ∉ ws ->
  let r := fold_left (window_step data) ws (self, averages) in
  windowSizes r.1 = windowSizes self
  /\ queues r.1 !! w = queues self !! w
  /\ sums r.1 !! w = sums self !! w
  /\ r.2 !! w = averages !! w.
Proof.
  induction ws as [|a ws IH]; intros self averages w Hw; simpl; [done|].
  apply not_elem_of_cons in Hw as [Hne Hw].
  destruct (push_window a (close data) _ _) as [q s] eqn:E.
  destruct (IH (Make (windowSizes self) (<[a:=q]> (queues self))
                   (<[a:=s]> (sums self)))
               (<[a:=average_of a q s]> averages) w Hw) as (H1 & H2 & H3 & H4).
  unfold average_of in *.
  rewrite H1, H2, H3, H4. simpl.
  by rewrite !lookup_insert_ne by done.
Qed.

Lemma window_fold_hit data ws : forall self averages w,
  NoDup ws -> w ∈ ws ->
  let r := fold_left (window_step data) ws (self, averages) in
  let qs := push_window w (close data) (default [] (queues self !! w))
              (default 0%Q (sums self !! w)) in
  queues r.1 !! w = Some qs.1
  /\ sums r.1 !! w = Some qs.2
  /\ r.2 !! w = Some (average_of w qs.1 qs.2).
Proof.
  induction ws as [|a ws IH]; intros self averages w Hnd Hw; simpl.
  { by apply elem_of_nil in Hw. }
  apply NoDup_cons in Hnd as [Ha Hnd].
  destruct (push_window a (close data) _ _) as [q s] eqn:E.
  destruct (decide (w = a)) as [->|Hne].
  - destruct (window_fold_frame data ws
                (Make (windowSizes self) (<[a:=q]> (queues self))
                      (<[a:=s]> (sums self)))
                (<[a:=average_of a q s]> averages) a Ha) as (_ & H2 & H3 & H4).
    unfold average_of in *. rewrite H2, H3, H4. simpl.
    rewrite !lookup_insert_eq. rewrite E. done.
  - apply elem_of_cons in Hw as [Hw|Hw]; [done|].
    destruct (IH (Make (windowSizes self) (<[a:=q]> (queues self))
                     (<[a:=s]> (sums self)))
                 (<[a:=average_of a q s]> averages) w Hnd Hw) as (H2 & H3 & H4).
    unfold average_of in *. rewrite H2, H3, H4. simpl.
    by rewrite !lookup_insert_ne by done.
Qed.

Lemma window_fold_sizes data ws : forall self averages,
  windowSizes (fold_left (window_step data) ws (self, averages)).1
  = windowSizes self.
Proof.
  induction ws as [|a ws IH]; intros self averages; simpl; [done|].
  destruct (push_window a (close data) _ _) as [q s]. by rewrite IH.
Qed.

(** One push keeps the queue equal to the last [min k w] closes read and
    the sum equal to the sum of the queue. *)
Lemma push_window_inv w c cs q s :
  0 < w ->
  q = last_n (min (length cs) w) cs ->
  (s == Qsum q)%Q ->
  let qs := push_window w c q s in
  qs.1 = last_n (min (length cs + 1) w) (cs ++ [c])
  /\ (qs.2 == Qsum qs.1)%Q.
Proof.
  intros Hw Hq Hs. unfold push_window.
  assert (Hlen : length q = min (length cs) w).
  { rewrite Hq, last_n_length. lia. }
  rewrite length_app. simpl.
  destruct (w <? length q + 1) eqn:Hcmp.
  - apply Nat.ltb_lt in Hcmp.
    assert (Hge : w <= length cs) by lia.
    destruct q as [|x q']; [simpl in Hlen; lia|]. simpl.
    split.
    + unfold last_n in *. rewrite length_app. simpl.
      replace (length cs + 1 - min (length cs + 1) w) with (S (length cs - min (length cs) w)) by lia.
      rewrite drop_app_le by lia.
      f_equal.
      replace (S (length cs - min (length cs) w))
        with ((length cs - min (length cs) w) + 1) by lia.
      by rewrite <- drop_drop, <- Hq.
    + simpl in Hs. rewrite Hs. rewrite Qsum_snoc. ring.
  - apply Nat.ltb_ge in Hcmp. simpl.
    assert (Hlt : length cs < w) by lia.
    split.
    + unfold last_n in *. rewrite length_app. simpl.
      replace (length cs + 1 - min (length cs + 1) w) with 0 by lia.
      replace (length cs - min (length cs) w) with 0 in Hq by lia.
      simpl in *. by subst.
    + rewrite Qsum_snoc, Hs. reflexivity.
Qed.

Lemma average_of_mean w q s :
  0 < length q -> (s == Qsum q)%Q ->
  exists v, average_of w q s = Fin v /\ (v == mean q)%Q.
Proof.
  intros Hq Hs. unfold average_of.
  exists (s / of_nat (length q))%Q. split.
  - destruct (length q =? w) eqn:E.
    + apply Nat.eqb_eq in E. rewrite <- E. by apply js_div_pos.
    + by apply js_div_pos.
  - unfold mean. by rewrite Hs.
Qed.

Lemma window_mean_app cs cs' i w :
  i < length cs -> window_mean (cs ++ cs') i w = window_mean cs i w.
Proof. intros Hi. unfold window_mean. by rewrite take_app_le by lia. Qed.

Lemma run_inv self l :
  NoDup (windowSizes self) ->
  let r := fold_left data_step l (reset self, []) in
  windowSizes r.1 = windowSizes self
  /\ length r.2 = length l
  /\ (forall w, w ∈ windowSizes self -> 0 < w -> win_inv w (map close l) r.1)
  /\ (forall i d w, w ∈ windowSizes self -> 0 < w -> l !! i = Some d ->
        exists rec v, r.2 !! i = Some rec /\ ma_date rec = date d
          /\ ma rec !! w = Some (Fin v)
          /\ (v == window_mean (map close l) i w)%Q).
Proof.
  intros Hnd. induction l as [|d l IH] using rev_ind; cbv zeta.
  - simpl. destruct (reset_spec self) as [Hws Hlk].
    split; [done|]. split; [done|]. split.
    + intros w Hw _. destruct (Hlk w Hw) as [Hq Hs].
      exists [], 0%Q. by rewrite Hq, Hs.
    + intros i d w _ _ Hi. done.
  - rewrite fold_left_app. simpl.
    destruct (fold_left data_step l (reset self, [])) as [self1 res1] eqn:E1.
    cbv zeta in IH. simpl in IH. destruct IH as (Hws & Hlen & Hinv & Hres).
    unfold data_step.
    destruct (fold_left (window_step d) (windowSizes self1) (self1, ∅))
      as [self2 avgs] eqn:E2.
    simpl.
    assert (Hhit : forall w, w ∈ windowSizes self -> 0 < w ->
              let qs := push_window w (close d)
                          (last_n (min (length l) w) (map close l))
                          (default 0%Q (sums self1 !! w)) in
              queues self2 !! w = Some qs.1 /\ sums self2 !! w = Some qs.2
              /\ avgs !! w = Some (average_of w qs.1 qs.2)
              /\ qs.1 = last_n (min (length l + 1) w) (map close l ++ [close d])
              /\ (qs.2 == Qsum qs.1)%Q).
    { intros w Hw Hpos. cbv zeta.
      destruct (Hinv w Hw Hpos) as (q & s & Hq & Hs & Hqeq & Hseq).
      rewrite length_map in Hqeq.
      pose proof (window_fold_hit d (windowSizes self1) self1 ∅ w) as Hh.
      rewrite Hws in Hh. specialize (Hh Hnd Hw). cbv zeta in Hh.
      rewrite <- Hws in Hh. rewrite E2 in Hh. simpl in Hh.
      rewrite Hq, Hs in Hh. simpl in Hh. rewrite Hs. simpl.
      rewrite <- Hqeq.
      destruct Hh as (H1 & H2 & H3). repeat (split; [done|]).
      pose proof (push_window_inv w (close d) (map close l) q s Hpos) as Hp.
      rewrite length_map in Hp. apply Hp; done. }
    split.
    { pose proof (window_fold_sizes d (windowSizes self1) self1 ∅) as Hs.
      rewrite E2 in Hs. simpl in Hs. congruence. }
    split.
    { rewrite length_app, length_app. simpl. lia. }
    split.
    { intros w Hw Hpos. destruct (Hhit w Hw Hpos) as (H1 & H2 & _ & H4 & H5).
      eexists _, _. split; [exact H1|]. split; [exact H2|].
      rewrite map_app. simpl. rewrite length_app, length_map. simpl.
      split; [exact H4|exact H5]. }
    intros i d' w Hw Hpos Hi.
    rewrite map_app. simpl.
    destruct (decide (i < length l)) as [Hlt|Hge].
    + rewrite lookup_app_l in Hi by done.
      destruct (Hres i d' w Hw Hpos Hi) as (rec & v & Hr & Hd & Hm & Hv).
      exists rec, v. rewrite lookup_app_l by lia.
      repeat (split; [done|]).
      rewrite window_mean_app by (rewrite length_map; lia). done.
    + assert (i = length l) as ->.
      { apply lookup_lt_Some in Hi. rewrite length_app in Hi. simpl in Hi. lia. }
      rewrite lookup_app_r in Hi by lia. rewrite Nat.sub_diag in Hi.
      simpl in Hi. inversion Hi; subst d'.
      destruct (Hhit w Hw Hpos) as (_ & _ & H3 & H4 & H5).
      set (qs := push_window w (close d)
                   (last_n (min (length l) w) (map close l))
                   (default 0%Q (sums self1 !! w))) in *.
      destruct (average_of_mean w qs.1 qs.2) as (v & Hv1 & Hv2).
      { rewrite H4, last_n_length, length_app, length_map. simpl. lia. }
      { done. }
      eexists _, v. rewrite lookup_app_r by lia.
      rewrite Hlen, Nat.sub_diag. simpl. split; [done|]. split; [done|].
      split; [simpl; by rewrite H3, Hv1|].
      rewrite Hv2. unfold window_mean.
      rewrite take_ge by (rewrite length_app, length_map; simpl; lia).
      by rewrite H4.
Qed.
End MovingAverageProofs.

Lemma calculateMovingAverages_run self l :
  MovingAverageCalculator.calculateMovingAverages self l =
  ((fold_left MovingAverageCalculator.data_step l
      (MovingAverageCalculator.reset self, [])).2,
   (fold_left MovingAverageCalculator.data_step l
      (MovingAverageCalculator.reset self, [])).1).
Proof.
  unfold MovingAverageCalculator.calculateMovingAverages.
  by destruct (fold_left _ l _).
Qed.

Lemma calculateMovingAverages_length self l :
  NoDup (MovingAverageCalculator.windowSizes self) ->
  length (MovingAverageCalculator.calculateMovingAverages self l).1 = length l.
Proof.
  intros Hnd. rewrite calculateMovingAverages_run. simpl.
  by destruct (run_inv self l Hnd) as (_ & H & _).
Qed.

Lemma calculateMovingAverages_lookup self l i d w :
  NoDup (MovingAverageCalculator.windowSizes self) ->
  w ∈ MovingAverageCalculator.windowSizes self -> 0 < w ->
  l !! i = Some d ->
  exists r v,
    (MovingAverageCalculator.calculateMovingAverages self l).1 !! i = Some r
    /\ ma_date r = date d
    /\ ma r !! w = Some (Fin v)
    /\ (v == window_mean (map close l) i w)%Q.
Proof.
  intros Hnd Hw Hpos Hi. rewrite calculateMovingAverages_run. simpl.
  destruct (run_inv self l Hnd) as (_ & _ & _ & H). eauto.
Qed.

Lemma window_mean_one closes i c :
  closes !! i = Some c -> (window_mean closes i 1 == c)%Q.
Proof.
  intros Hi. unfold window_mean, mean, last_n.
  replace (i + 1) with (S i) by lia.
  rewrite (take_S_r _ _ _ Hi).
  assert (Hlen : length (take i closes) = i).
  { rewrite length_take. apply lookup_lt_Some in Hi. lia. }
  rewrite length_app, Hlen.
  replace (i + length [c] - S i `min` 1) with (length (take i closes) + 0)
    by (simpl; lia).
  rewrite drop_app_add. simpl. unfold of_nat. simpl. field.
Qed.

(** In exact arithmetic: provided the configured window sizes are distinct,
    the value the engine reports for a positive window size [w] at index [i]
    is the exact mean of the last [min (i+1) w] closes; with window 1 it is
    the close of the bar itself; with window 3 on [1,2,3,4,5] the values are
    [1, 1.5, 2, 3, 4].  (What the rounded running sum makes of this is in the
    last part.) *)
Theorem calculateMovingAverages_is_window_mean
    (self : MovingAverageCalculator.t) (stockData : list StockData) :
  NoDup (MovingAverageCalculator.windowSizes self) ->
  let result := (MovingAverageCalculator.calculateMovingAverages self stockData).1 in
  (forall w i d,
      w ∈ MovingAverageCalculator.windowSizes self -> 0 < w ->
      stockData !! i = Some d ->
      exists r v, result !! i = Some r /\ ma r !! w = Some (Fin v)
        /\ (v == window_mean (map close stockData) i w)%Q)
  /\ (1 ∈ MovingAverageCalculator.windowSizes self ->
      forall i d, stockData !! i = Some d ->
      exists r v, result !! i = Some r /\ ma r !! 1 = Some (Fin v)
        /\ (v == close d)%Q)
  /\ Forall2 (fun r x => exists v, ma r !! 3 = Some (Fin v) /\ (v == x)%Q)
       (MovingAverageCalculator.calculateMovingAverages
          (MovingAverageCalculator.new [3])
          (map bar [1; 2; 3; 4; 5]%Q)).1
       [1; 3 # 2; 2; 3; 4]%Q.
Proof.
  intros Hnd. cbv zeta. split; [|split].
  - intros w i d Hw Hpos Hi.
    destruct (calculateMovingAverages_lookup self stockData i d w Hnd Hw Hpos Hi)
      as (r & v & Hr & _ & Hm & Hv).
    eauto.
  - intros Hw i d Hi.
    destruct (calculateMovingAverages_lookup self stockData i d 1 Hnd Hw
                ltac:(lia) Hi) as (r & v & Hr & _ & Hm & Hv).
    exists r, v. split; [done|]. split; [done|].
    rewrite Hv. apply window_mean_one. by rewrite list_lookup_fmap, Hi.
  - vm_compute.
    repeat (constructor; [eexists; split; [reflexivity|reflexivity]|]).
    constructor.
Qed.

Lemma calculateMovingAverages_is_window_mean_witness :
  exists r v,
    (MovingAverageCalculator.calculateMovingAverages
       (MovingAverageCalculator.new MovingAverageCalculator.defaultWindowSizes)
       (map bar [10; 20; 60]%Q)).1 !! 2 = Some r
    /\ ma r !! 5 = Some (Fin v)
    /\ (v == window_mean (map close (map bar [10; 20; 60]%Q)) 2 5)%Q.
Proof.
  assert (Hnd : NoDup (MovingAverageCalculator.windowSizes
            (MovingAverageCalculator.new MovingAverageCalculator.defaultWindowSizes))).
  { by apply (bool_decide_unpack _). }
  destruct (calculateMovingAverages_is_window_mean
              (MovingAverageCalculator.new MovingAverageCalculator.defaultWindowSizes)
              (map bar [10; 20; 60]%Q) Hnd) as (H & _ & _).
  apply (H 5 2 (bar 60)).
  - by apply (bool_decide_unpack _).
  - lia.
  - reflexivity.
Defined.

(** Outside the contract: when a size is configured twice, the one queue of
    that size receives every close twice. *)
Example calculateMovingAverages_duplicate_size :
  Forall2 (fun r x => exists v, ma r !! 3 = Some (Fin v) /\ (v == x)%Q)
    (MovingAverageCalculator.calculateMovingAverages
       (MovingAverageCalculator.new [3; 3]) (map bar [1; 2]%Q)).1
    [1; 5 # 3]%Q.
Proof.
  vm_compute. repeat (constructor; [eexists; split; reflexivity|]). constructor.
Qed.

(** ** The correlation *)

Section SentimentProofs.
Import SentimentAnalyzer.
Local Open Scope R_scope.

Lemma Rsum_zip_shift (m k : R) : forall x y : list R,
  length x = length y ->
  Rsum (zip_with (fun a b => (a - m) * (b - k)) x y) =
  Rsum (zip_with Rmult x y) - k * Rsum x - m * Rsum y
  + INR (length x) * m * k.
Proof.
  induction x as [|a x IH]; intros [|b y] Hlen; simpl in *; try discriminate.
  - ring.
  - rewrite IH by lia. destruct (length x); simpl; ring.
Qed.

Lemma Rsum_map_zip (f : R -> R -> R) : forall x : list R,
  Rsum (map (fun a => f a a) x) = Rsum (zip_with f x x).
Proof. induction x; simpl; congruence. Qed.

Lemma Rsum_sq_nonneg (f : R -> R) (x : list R) :
  0 <= Rsum (map (fun a => f a * f a) x).
Proof.
  induction x as [|a x IH]; simpl; [lra|].
  pose proof (Rle_0_sqr (f a)) as H. unfold Rsqr in H. lra.
Qed.

Lemma sq_deviation_nonneg x : 0 <= sq_deviation x.
Proof. apply (Rsum_sq_nonneg (fun a => a - Rmean x)). Qed.

Lemma codeviation_sums x y :
  length x = length y -> (0 < length x)%nat ->
  INR (length x) * Rsum (zip_with Rmult x y) - Rsum x * Rsum y
  = INR (length x) * codeviation x y.
Proof.
  intros Hlen Hpos. unfold codeviation.
  rewrite Rsum_zip_shift by done. unfold Rmean. rewrite <- Hlen.
  assert (INR (length x) <> 0) by (apply not_0_INR; lia).
  field. done.
Qed.

Lemma sq_deviation_sums x :
  (0 < length x)%nat ->
  INR (length x) * Rsum (map (fun a => a * a) x) - Rsum x * Rsum x
  = INR (length x) * sq_deviation x.
Proof.
  intros Hpos. unfold sq_deviation.
  rewrite (Rsum_map_zip (fun a b => (a - Rmean x) * (b - Rmean x))).
  rewrite (Rsum_map_zip Rmult).
  pose proof (codeviation_sums x x eq_refl Hpos) as H.
  unfold codeviation in H. exact H.
Qed.

Lemma pearsonCorrelation_spec x y :
  length x = length y -> (0 < length x)%nat ->
  exists r, pearsonCorrelation x y = Some r
    /\ (zero_variance x \/ zero_variance y -> r = 0)
    /\ (~ zero_variance x -> ~ zero_variance y -> r = pearson x y).
Proof.
  intros Hlen Hpos. unfold pearsonCorrelation.
  destruct (length x =? 0)%nat eqn:E0; [apply Nat.eqb_eq in E0; lia|].
  assert (Hle : (length x <=? length y)%nat = true) by (apply Nat.leb_le; lia).
  rewrite Hle. simpl.
  rewrite (sq_deviation_sums x Hpos).
  assert (Hy : (0 < length y)%nat) by lia.
  pose proof (sq_deviation_sums y Hy) as HY. rewrite <- Hlen in HY. rewrite HY.
  rewrite (codeviation_sums x y Hlen Hpos).
  set (n := INR (length x)).
  assert (Hn : 0 < n) by (apply lt_0_INR; lia).
  pose proof (sq_deviation_nonneg x) as Hvx.
  pose proof (sq_deviation_nonneg y) as Hvy.
  assert (Hrad : n * sq_deviation x * (n * sq_deviation y)
                 = (n * n) * (sq_deviation x * sq_deviation y)) by ring.
  rewrite Hrad.
  assert (Hnn : 0 <= n * n) by nra.
  assert (Hxy : 0 <= sq_deviation x * sq_deviation y) by nra.
  unfold sqrt_js.
  destruct (Rlt_dec (n * n * (sq_deviation x * sq_deviation y)) 0) as [Hneg|_];
    [nra|].
  rewrite sqrt_mult by done. rewrite sqrt_square by lra.
  rewrite sqrt_mult by done.
  unfold zero_variance.
  destruct (Req_dec_T (n * (sqrt (sq_deviation x) * sqrt (sq_deviation y))) 0)
    as [Hz|Hnz].
  - exists 0. split; [done|]. split; [done|].
    intros Hx Hy'. exfalso.
    apply Rmult_integral in Hz as [Hz|Hz]; [lra|].
    apply Rmult_integral in Hz as [Hz|Hz]; apply sqrt_eq_0 in Hz; auto.
  - eexists. split; [reflexivity|]. split.
    + intros [Hx|Hy']; exfalso; apply Hnz.
      * rewrite Hx, sqrt_0. ring.
      * rewrite Hy', sqrt_0. ring.
    + intros _ _. unfold pearson.
      assert (sqrt (sq_deviation x) * sqrt (sq_deviation y) <> 0).
      { intros H0. apply Hnz. rewrite H0. ring. }
      field. repeat split; try lra.
      * intros H0. apply H. rewrite H0. ring.
      * intros H0. apply H. rewrite H0. ring.
Qed.
End SentimentProofs.

(** In exact arithmetic: the correlation is always a number (never [NaN]);
    it is 0 when the two series differ in length, or hold fewer than two
    points, or when one of them has zero variance; otherwise it is Pearson's
    coefficient of the paired series.  (With rounded sums the radicand can
    come out below 0: see the last part.) *)
Theorem correlation_zero_or_pearson
    (sentimentData : list SentimentData) (stockData : list StockData) :
  exists r,
    SentimentAnalyzer.calculateSentimentSpanCorrelation sentimentData stockData
      = Some r
    /\ (length sentimentData <> length stockData
        \/ length sentimentData < 2
        \/ zero_variance (scores_of sentimentData)
        \/ zero_variance (spans_of stockData) -> r = 0%R)
    /\ (length sentimentData = length stockData ->
        2 <= length sentimentData ->
        ~ zero_variance (scores_of sentimentData) ->
        ~ zero_variance (spans_of stockData) ->
        r = pearson (scores_of sentimentData) (spans_of stockData)).
Proof.
  unfold SentimentAnalyzer.calculateSentimentSpanCorrelation.
  destruct (length sentimentData =? length stockData) eqn:Elen; simpl.
  - apply Nat.eqb_eq in Elen.
    destruct (length sentimentData <? 2) eqn:E2.
    + apply Nat.ltb_lt in E2. exists 0%R. split; [done|]. split; [done|]. lia.
    + apply Nat.ltb_ge in E2.
      destruct (pearsonCorrelation_spec (scores_of sentimentData)
                  (spans_of stockData)) as (r & Hr & Hzero & Hp).
      { unfold scores_of, spans_of. by rewrite !length_map. }
      { unfold scores_of. rewrite length_map. lia. }
      exists r. split; [exact Hr|]. split.
      * intros [H|[H|H]]; [done|lia|by apply Hzero].
      * intros _ _. exact Hp.
  - apply Nat.eqb_neq in Elen. exists 0%R. split; [done|]. split; [done|].
    intros H. done.
Qed.

Lemma correlation_zero_or_pearson_witness :
  exists r,
    SentimentAnalyzer.calculateSentimentSpanCorrelation
      [mkSentimentData "d1" 1 1 100; mkSentimentData "d2" (1 # 2) 1 100]
      [with_span (bar 10) (Some 1%Z); with_span (bar 9) (Some 3%Z)] = Some r
    /\ r = pearson
             (scores_of [mkSentimentData "d1" 1 1 100;
                         mkSentimentData "d2" (1 # 2) 1 100])
             (spans_of [with_span (bar 10) (Some 1%Z);
                        with_span (bar 9) (Some 3%Z)]).
Proof.
  destruct (correlation_zero_or_pearson
              [mkSentimentData "d1" 1 1 100; mkSentimentData "d2" (1 # 2) 1 100]
              [with_span (bar 10) (Some 1%Z); with_span (bar 9) (Some 3%Z)])
    as (r & Hr & _ & Hp).
  exists r. split; [exact Hr|]. apply Hp.
  - reflexivity.
  - simpl. lia.
  - unfold zero_variance, sq_deviation, Rmean, scores_of, Q2R, Rsum.
    cbn -[IZR INR Rplus Rmult Rinv Rminus Rdiv].
    change (INR 2) with 2%R. lra.
  - unfold zero_variance, sq_deviation, Rmean, spans_of, Rsum.
    cbn -[IZR INR Rplus Rmult Rinv Rminus Rdiv].
    change (INR 2) with 2%R. lra.
Defined.

(** A constant series paired with any other gives 0. *)
Example correlation_constant_spans :
  SentimentAnalyzer.calculateSentimentSpanCorrelation
    [mkSentimentData "d1" 1 1 100; mkSentimentData "d2" (1 # 2) 1 100]
    [with_span (bar 10) (Some 1%Z); with_span (bar 9) (Some 1%Z)] = Some 0%R.
Proof.
  destruct (correlation_zero_or_pearson
              [mkSentimentData "d1" 1 1 100; mkSentimentData "d2" (1 # 2) 1 100]
              [with_span (bar 10) (Some 1%Z); with_span (bar 9) (Some 1%Z)])
    as (r & Hr & Hz & _).
  rewrite Hr. f_equal. apply Hz. right. right. right.
  unfold zero_variance, sq_deviation, Rmean, spans_of, Rsum.
  cbn -[IZR INR Rplus Rmult Rinv Rminus Rdiv].
  change (INR 2) with 2%R. lra.
Qed.

(** ** Patterns *)

Section RegexProofs.
Import Regex.

Lemma append_nil_inv u v : u +:+ v = "" -> u = "" /\ v = "".
Proof. destruct u; simpl; [done|discriminate]. Qed.

Lemma append_cons_inv u v x w :
  u +:+ v = String x w ->
  (u = "" /\ v = String x w) \/ (exists u', u = String x u' /\ w = u' +:+ v).
Proof.
  destruct u as [|y u]; simpl; intros H; [by left|].
  inversion H; subst. right. eauto.
Qed.

Lemma nullable_matches r : nullable r = true <-> matches r "".
Proof.
  split.
  - induction r; simpl; intros H; try discriminate.
    + constructor.
    + apply andb_true_iff in H as [H1 H2].
      change "" with ("" +:+ ""). constructor; auto.
    + apply orb_true_iff in H as [H|H];
        [apply matches_alt_l|apply matches_alt_r]; auto.
    + constructor.
  - remember "" as w eqn:Hw. induction 1; simpl; try discriminate; auto.
    + apply append_nil_inv in Hw as [-> ->]. rewrite IHmatches1, IHmatches2; auto.
    + rewrite IHmatches; auto.
    + rewrite IHmatches; auto. apply orb_true_r.
Qed.

Lemma seq_inv r s w :
  matches (Seq r s) w ->
  exists u v, w = u +:+ v /\ matches r u /\ matches s v.
Proof. inversion 1; subst; eauto. Qed.

Lemma alt_inv r s w : matches (Alt r s) w -> matches r w \/ matches s w.
Proof. inversion 1; subst; auto. Qed.

Lemma star_cons_inv r x w :
  matches (Star r) (String x w) ->
  exists u v, w = u +:+ v /\ matches r (String x u) /\ matches (Star r) v.
Proof.
  remember (Star r) as sr eqn:Hsr. remember (String x w) as xw eqn:Hxw.
  intros H. revert r x w Hsr Hxw.
  induction H; intros r0 x0 w0 Hsr Hxw; try discriminate.
  inversion Hsr; subst r0.
  apply append_cons_inv in Hxw as [[-> ->]|(u' & -> & ->)].
  - eapply IHmatches2; eauto.
  - eauto.
Qed.

Lemma deriv_matches r : forall x w,
  matches (deriv x r) w <-> matches r (String x w).
Proof.
  induction r; intros x w; simpl.
  - split; inversion 1.
  - split; inversion 1.
  - destruct (chr_matches c x) eqn:E; split; intros H; inversion H; subst.
    + by constructor.
    + constructor.
    + congruence.
  - destruct (is_line_terminator x) eqn:E; split; intros H; inversion H; subst.
    + congruence.
    + by constructor.
    + constructor.
  - destruct (is_digit x) eqn:E; split; intros H; inversion H; subst.
    + by constructor.
    + constructor.
    + congruence.
  - destruct (nullable r1) eqn:E.
    + split; intros H.
      * apply alt_inv in H as [H|H].
        -- apply seq_inv in H as (u & v & -> & Hu & Hv).
           change (String x (u +:+ v)) with (String x u +:+ v).
           constructor; [by apply IHr1|done].
        -- change (String x w) with ("" +:+ String x w).
           constructor; [by apply nullable_matches|by apply IHr2].
      * apply seq_inv in H as (u & v & Heq & Hu & Hv). symmetry in Heq.
        apply append_cons_inv in Heq as [[-> ->]|(u' & -> & ->)].
        -- apply matches_alt_r. by apply IHr2.
        -- apply matches_alt_l. constructor; [by apply IHr1|done].
    + split; intros H.
      * apply seq_inv in H as (u & v & -> & Hu & Hv).
        change (String x (u +:+ v)) with (String x u +:+ v).
        constructor; [by apply IHr1|done].
      * apply seq_inv in H as (u & v & Heq & Hu & Hv). symmetry in Heq.
        apply append_cons_inv in Heq as [[-> ->]|(u' & -> & ->)].
        -- apply nullable_matches in Hu. congruence.
        -- constructor; [by apply IHr1|done].
  - split; intros H.
    + apply alt_inv in H as [H|H]; [apply matches_alt_l|apply matches_alt_r];
        [by apply IHr1|by apply IHr2].
    + apply alt_inv in H as [H|H]; [apply matches_alt_l|apply matches_alt_r];
        [by apply IHr1|by apply IHr2].
  - split; intros H.
    + apply seq_inv in H as (u & v & -> & Hu & Hv).
      change (String x (u +:+ v)) with (String x u +:+ v).
      constructor; [by apply IHr|done].
    + apply star_cons_inv in H as (u & v & -> & Hu & Hv).
      constructor; [by apply IHr|done].
Qed.

Lemma matches_at_start_spec r : forall s,
  matches_at_start r s = true <->
  exists u v, s = u +:+ v /\ matches r u.
Proof.
  intros s. revert r. induction s as [|x s IH]; intros r; simpl.
  - rewrite orb_false_r, nullable_matches. split.
    + intros H. by exists "", "".
    + intros (u & v & Heq & Hu). symmetry in Heq.
      apply append_nil_inv in Heq as [-> _]. done.
  - rewrite orb_true_iff, nullable_matches, IH. split.
    + intros [H|(u & v & -> & Hu)].
      * by exists "", (String x s).
      * exists (String x u), v. split; [done|]. by apply deriv_matches.
    + intros (u & v & Heq & Hu). symmetry in Heq.
      apply append_cons_inv in Heq as [[-> ->]|(u' & -> & ->)].
      * by left.
      * right. exists u', v. split; [done|]. by apply deriv_matches.
Qed.

(** [test r s] holds exactly when some substring of [s] is in the language
    of [r]. *)
Lemma test_spec r : forall s,
  test r s = true <->
  exists p u v, s = p +:+ u +:+ v /\ matches r u.
Proof.
  induction s as [|x s IH]; simpl.
  - rewrite !orb_false_r, nullable_matches. split.
    + intros H. by exists "", "", "".
    + intros (p & u & v & Heq & Hu). symmetry in Heq.
      apply append_nil_inv in Heq as [-> Heq].
      apply append_nil_inv in Heq as [-> _]. done.
  - rewrite orb_true_iff, IH.
    pose proof (matches_at_start_spec r (String x s)) as Hs. simpl in Hs.
    rewrite Hs. split.
    + intros [(u & v & Heq & Hu)|(p & u & v & -> & Hu)].
      * by exists "", u, v.
      * by exists (String x p), u, v.
    + intros (p & u & v & Heq & Hu).
      destruct p as [|y p]; simpl in Heq.
      * left. exists u, v. by split.
      * inversion Heq; subst. right. exists p, u, v. by split.
Qed.
End RegexProofs.

(** ** The query router *)

Section RouterProofs.
Import ConversationalAI.

Lemma dispatch_first_match entries self random q :
  dispatch entries self random q =
  run_handler (first_match entries q) self random q.
Proof.
  induction entries as [|[p h] entries IH]; simpl; [done|].
  by destruct (Regex.test p q).
Qed.

Lemma processQuery_classify self random query :
  processQuery self random query =
  run_handler (classify query) self random (trim (toLowerCase query)).
Proof. apply dispatch_first_match. Qed.

Lemma first_match_earliest entries q : forall k p h,
  entries !! k = Some (p, h) ->
  Regex.test p q = true ->
  (forall j p' h', j < k -> entries !! j = Some (p', h') ->
                   Regex.test p' q = false) ->
  first_match entries q = h.
Proof.
  induction entries as [|[p0 h0] entries IH]; intros k p h Hk Hp Hbefore;
    [done|].
  destruct k as [|k]; simpl in *.
  - inversion Hk; subst. by rewrite Hp.
  - rewrite (Hbefore 0 p0 h0) by (done || lia).
    eapply IH; eauto.
    intros j p' h' Hj. apply (Hbefore (S j)). lia.
Qed.

Lemma first_match_none entries q :
  (forall p h, (p, h) ∈ entries -> Regex.test p q = false) ->
  first_match entries q = Unrecognized.
Proof.
  induction entries as [|[p0 h0] entries IH]; intros Hall; simpl; [done|].
  rewrite (Hall p0 h0) by apply list_elem_of_here.
  apply IH. intros p h Hin. apply (Hall p h). by apply list_elem_of_further.
Qed.

(** The intent is that of the first matching entry, if any. *)
Lemma first_match_inv entries q :
  (first_match entries q = Unrecognized
   /\ forall p h, (p, h) ∈ entries -> Regex.test p q = false)
  \/ exists k p h,
       entries !! k = Some (p, h) /\ Regex.test p q = true
       /\ first_match entries q = h
       /\ forall j p' h', j < k -> entries !! j = Some (p', h') ->
                          Regex.test p' q = false.
Proof.
  induction entries as [|[p0 h0] entries IH]; simpl.
  - left. split; [done|]. intros p h Hin. by apply elem_of_nil in Hin.
  - destruct (Regex.test p0 q) eqn:E.
    + right. exists 0, p0, h0. repeat split; try done. intros; lia.
    + destruct IH as [[Hu Hall]|(k & p & h & Hk & Hp & Hf & Hb)].
      * left. split; [done|]. intros p h Hin.
        apply elem_of_cons in Hin as [Heq|Hin]; [by inversion Heq; subst|eauto].
      * right. exists (S k), p, h. repeat split; try done.
        intros [|j] p' h' Hj Hlk; simpl in Hlk.
        -- by inversion Hlk; subst.
        -- eapply Hb; eauto. lia.
Qed.

Lemma patterns_intents :
  map snd patterns =
  [MovingAverageQuery; SpanQuery; PriceQuery; TrendQuery;
   RecommendationQuery; HighQuery; LowQuery].
Proof. reflexivity. Qed.
End RouterProofs.

(** C5.  The router lower-cases and trims the query, tries the patterns in
    the order MovingAverageQuery, SpanQuery, PriceQuery, TrendQuery,
    RecommendationQuery, HighQuery, LowQuery, and answers with the handler of
    the first pattern that matches: [handleMovingAverageQuery] on the
    normalized query when the first pattern matches,
    [handleCurrentSpanQuery] when the first does not and the second does, and
    so on down the table; when none matches the intent is Unrecognized and
    the default response is given.  A query that several patterns match is
    never handled by a later one of them. *)
Theorem processQuery_first_match_wins
    (self : ConversationalAI.t) (random : Q) (query : string) :
  let normalizedQuery := trim (toLowerCase query) in
  let answer := ConversationalAI.processQuery self random query in
  ConversationalAI.patterns =
    [(ConversationalAI.movingAveragePattern,
      ConversationalAI.MovingAverageQuery);
     (ConversationalAI.spanPattern, ConversationalAI.SpanQuery);
     (ConversationalAI.pricePattern, ConversationalAI.PriceQuery);
     (ConversationalAI.trendPattern, ConversationalAI.TrendQuery);
     (ConversationalAI.recommendationPattern,
      ConversationalAI.RecommendationQuery);
     (ConversationalAI.highPattern, ConversationalAI.HighQuery);
     (ConversationalAI.lowPattern, ConversationalAI.LowQuery)]
  /\ (Regex.test ConversationalAI.movingAveragePattern normalizedQuery = true ->
      answer = Some (ConversationalAI.handleMovingAverageQuery
                       self normalizedQuery))
  /\ (Regex.test ConversationalAI.movingAveragePattern normalizedQuery = false ->
      Regex.test ConversationalAI.spanPattern normalizedQuery = true ->
      answer = Some (ConversationalAI.handleCurrentSpanQuery self))
  /\ (Regex.test ConversationalAI.movingAveragePattern normalizedQuery = false ->
      Regex.test ConversationalAI.spanPattern normalizedQuery = false ->
      Regex.test ConversationalAI.pricePattern normalizedQuery = true ->
      answer = Some (ConversationalAI.handlePriceQuery self))
  /\ (Regex.test ConversationalAI.movingAveragePattern normalizedQuery = false ->
      Regex.test ConversationalAI.spanPattern normalizedQuery = false ->
      Regex.test ConversationalAI.pricePattern normalizedQuery = false ->
      Regex.test ConversationalAI.trendPattern normalizedQuery = true ->
      answer = Some (ConversationalAI.handleTrendQuery self))
  /\ (Regex.test ConversationalAI.movingAveragePattern normalizedQuery = false ->
      Regex.test ConversationalAI.spanPattern normalizedQuery = false ->
      Regex.test ConversationalAI.pricePattern normalizedQuery = false ->
      Regex.test ConversationalAI.trendPattern normalizedQuery = false ->
      Regex.test ConversationalAI.recommendationPattern normalizedQuery = true ->
      answer = Some (ConversationalAI.handleRecommendationQuery self))
  /\ (Regex.test ConversationalAI.movingAveragePattern normalizedQuery = false ->
      Regex.test ConversationalAI.spanPattern normalizedQuery = false ->
      Regex.test ConversationalAI.pricePattern normalizedQuery = false ->
      Regex.test ConversationalAI.trendPattern normalizedQuery = false ->
      Regex.test ConversationalAI.recommendationPattern normalizedQuery = false ->
      Regex.test ConversationalAI.highPattern normalizedQuery = true ->
      answer = Some (ConversationalAI.handleHighQuery self))
  /\ (Regex.test ConversationalAI.movingAveragePattern normalizedQuery = false ->
      Regex.test ConversationalAI.spanPattern normalizedQuery = false ->
      Regex.test ConversationalAI.pricePattern normalizedQuery = false ->
      Regex.test ConversationalAI.trendPattern normalizedQuery = false ->
      Regex.test ConversationalAI.recommendationPattern normalizedQuery = false ->
      Regex.test ConversationalAI.highPattern normalizedQuery = false ->
      Regex.test ConversationalAI.lowPattern normalizedQuery = true ->
      answer = Some (ConversationalAI.handleLowQuery self))
  /\ ((forall pattern handler,
          (pattern, handler) ∈ ConversationalAI.patterns ->
          Regex.test pattern normalizedQuery = false) ->
      classify query = ConversationalAI.Unrecognized
      /\ answer = ConversationalAI.getDefaultResponse random)
  /\ (forall k pattern handler,
        ConversationalAI.patterns !! k = Some (pattern, handler) ->
        Regex.test pattern normalizedQuery = true ->
        (forall j pattern' handler',
            j < k -> ConversationalAI.patterns !! j = Some (pattern', handler') ->
            Regex.test pattern' normalizedQuery = false) ->
        classify query = handler)
  /\ (forall j k pj hj pk hk,
        j < k ->
        ConversationalAI.patterns !! j = Some (pj, hj) ->
        ConversationalAI.patterns !! k = Some (pk, hk) ->
        Regex.test pj normalizedQuery = true ->
        classify query <> hk).
Proof.
  cbv zeta. split; [reflexivity|].
  assert (Hrun : ConversationalAI.processQuery self random query
                 = ConversationalAI.dispatch ConversationalAI.patterns self
                     random (trim (toLowerCase query))) by reflexivity.
  rewrite Hrun. unfold ConversationalAI.patterns at 1 2 3 4 5 6 7.
  cbn [ConversationalAI.dispatch].
  split; [by intros ->|].
  split; [by intros -> ->|].
  split; [by intros -> -> ->|].
  split; [by intros -> -> -> ->|].
  split; [by intros -> -> -> -> ->|].
  split; [by intros -> -> -> -> -> ->|].
  split; [by intros -> -> -> -> -> -> ->|].
  split.
  { intros Hnone. pose proof (first_match_none _ _ Hnone) as Hc.
    split; [exact Hc|]. rewrite <- Hrun, processQuery_classify.
    unfold classify. by rewrite Hc. }
  split; [intros k p h; apply first_match_earliest|].
  intros j k pj hj pk hk Hjk Hj Hk Hpj Heq.
  unfold classify in Heq.
  destruct (first_match_inv ConversationalAI.patterns (trim (toLowerCase query)))
    as [[_ Hall]|(i & p & h & Hi & Hp & Hf & Hb)].
  - rewrite (Hall pj hj) in Hpj; [done|]. by eapply list_elem_of_lookup_2.
  - assert (Hij : i <= j).
    { destruct (decide (i <= j)); [done|].
      rewrite (Hb j pj hj) in Hpj; [done|lia|done]. }
    rewrite Hf in Heq. subst h.
    assert (Hnd : NoDup (map snd ConversationalAI.patterns)).
    { by apply (bool_decide_unpack _). }
    assert (Hsi : map snd ConversationalAI.patterns !! i = Some hk).
    { by rewrite list_lookup_fmap, Hi. }
    assert (Hsk : map snd ConversationalAI.patterns !! k = Some hk).
    { by rewrite list_lookup_fmap, Hk. }
    pose proof (NoDup_lookup _ _ _ _ Hnd Hsi Hsk). lia.
Qed.

Lemma processQuery_first_match_wins_witness :
  ConversationalAI.processQuery example_context 0 "What's the price trend?"
  = Some (ConversationalAI.handlePriceQuery example_context).
Proof.
  destruct (processQuery_first_match_wins example_context 0
              "What's the price trend?") as (_ & _ & _ & H & _).
  apply H; vm_compute; reflexivity.
Defined.

Section AnswerProofs.
Import ConversationalAI.

Lemma append_nonempty_l a b : a <> "" -> a +:+ b <> "".
Proof. destruct a; simpl; [done|discriminate]. Qed.

Lemma handleMovingAverageQuery_nonempty self q :
  handleMovingAverageQuery self q <> "".
Proof.
  unfold handleMovingAverageQuery.
  repeat case_match; by (discriminate || apply append_nonempty_l).
Qed.

Lemma handleCurrentSpanQuery_nonempty self : handleCurrentSpanQuery self <> "".
Proof.
  unfold handleCurrentSpanQuery.
  repeat case_match; by (discriminate || apply append_nonempty_l).
Qed.

Lemma handlePriceQuery_nonempty self : handlePriceQuery self <> "".
Proof.
  unfold handlePriceQuery.
  destruct (last (stockData self)); by (discriminate || apply append_nonempty_l).
Qed.

Lemma handleTrendQuery_nonempty self : handleTrendQuery self <> "".
Proof.
  unfold handleTrendQuery.
  destruct (_ <? 5); [discriminate|].
  destruct (3 <=? _); [by apply append_nonempty_l|].
  destruct (3 <=? _); by apply append_nonempty_l.
Qed.

Lemma handleRecommendationQuery_nonempty self :
  handleRecommendationQuery self <> "".
Proof.
  unfold handleRecommendationQuery.
  destruct (last (stockData self)); [|discriminate].
  destruct (last (movingAverages self)); [|discriminate].
  destruct (_ <? _); [by apply append_nonempty_l|].
  destruct (_ <? _); by apply append_nonempty_l.
Qed.

Lemma handleHighQuery_nonempty self : handleHighQuery self <> "".
Proof.
  unfold handleHighQuery.
  destruct (stockData self); by (discriminate || apply append_nonempty_l).
Qed.

Lemma handleLowQuery_nonempty self : handleLowQuery self <> "".
Proof.
  unfold handleLowQuery.
  destruct (stockData self); by (discriminate || apply append_nonempty_l).
Qed.

(** [Math.random()] lies in [[0, 1)], so the index is 0, 1 or 2. *)
Lemma getDefaultResponse_some random :
  (0 <= random)%Q -> (random < 1)%Q ->
  exists answer, getDefaultResponse random = Some answer
                 /\ answer ∈ responses.
Proof.
  intros H0 H1. unfold getDefaultResponse.
  set (i := Qfloor (random * of_nat (length responses))).
  assert (Hi : (0 <= i < 3)%Z).
  { subst i. split.
    - change 0%Z with (Qfloor 0). apply Qfloor_resp_le.
      apply Qmult_le_0_compat; [done|]. by vm_compute.
    - rewrite Zlt_Qlt.
      eapply Qle_lt_trans; [apply Qfloor_le|].
      change (inject_Z 3) with (1 * of_nat (length responses))%Q.
      apply Qmult_lt_compat_r; [by vm_compute|done]. }
  destruct (i <? 0)%Z eqn:E; [apply Z.ltb_lt in E; lia|].
  destruct (lookup_lt_is_Some_2 responses (Z.to_nat i)) as [answer Ha].
  { simpl. lia. }
  exists answer. split; [done|]. by eapply list_elem_of_lookup_2.
Qed.

Lemma responses_nonempty : Forall (fun s => s <> "") responses.
Proof. repeat constructor; discriminate. Qed.

Lemma run_handler_nonempty h self random q :
  (0 <= random)%Q -> (random < 1)%Q ->
  exists answer, run_handler h self random q = Some answer /\ answer <> "".
Proof.
  intros H0 H1. destruct h; simpl; try (eexists; split; [reflexivity|]).
  - apply handleMovingAverageQuery_nonempty.
  - apply handleCurrentSpanQuery_nonempty.
  - apply handlePriceQuery_nonempty.
  - apply handleTrendQuery_nonempty.
  - apply handleRecommendationQuery_nonempty.
  - apply handleHighQuery_nonempty.
  - apply handleLowQuery_nonempty.
  - destruct (getDefaultResponse_some random H0 H1) as (a & Ha & Hin).
    exists a. split; [done|].
    pose proof responses_nonempty as Hne.
    rewrite Forall_forall in Hne. by apply Hne.
Qed.
End AnswerProofs.

(** C8.  Whatever the query and the context, and whatever [Math.random]
    returns in [[0, 1)], [processQuery] returns a string and the string is not
    empty.  A handler that misses its data answers with its advisory text,
    and a query no pattern matches gets one of the three guidance strings,
    none of them empty. *)
Theorem processQuery_always_answers
    (self : ConversationalAI.t) (random : Q) (query : string) :
  (0 <= random)%Q -> (random < 1)%Q ->
  (exists answer,
      ConversationalAI.processQuery self random query = Some answer
      /\ answer <> "")
  /\ (classify query = ConversationalAI.Unrecognized ->
      exists answer,
        ConversationalAI.processQuery self random query = Some answer
        /\ answer ∈ ConversationalAI.responses)
  /\ (ConversationalAI.responses <> []
      /\ Forall (fun s => s <> "") ConversationalAI.responses)
  /\ (ConversationalAI.movingAverages self = [] ->
      forall q, ConversationalAI.handleMovingAverageQuery self q =
        "I don't have any stock data loaded yet. Please upload some data first.")
  /\ (ConversationalAI.stockData self = [] ->
      ConversationalAI.handleCurrentSpanQuery self =
        "No stock data available. Please upload data to see span analysis."
      /\ ConversationalAI.handlePriceQuery self =
        "No stock data available. Please upload data to see current price."
      /\ ConversationalAI.handleHighQuery self =
        "No data available to find highest price."
      /\ ConversationalAI.handleLowQuery self =
        "No data available to find lowest price.")
  /\ (length (ConversationalAI.stockData self) < 5 ->
      ConversationalAI.handleTrendQuery self =
        "I need more data to analyze the trend. Please provide at least 5 days of data.")
  /\ (ConversationalAI.stockData self = []
      \/ ConversationalAI.movingAverages self = [] ->
      ConversationalAI.handleRecommendationQuery self =
        "I need stock data to provide recommendations. Please upload data first.").
Proof.
  intros H0 H1. split.
  { rewrite processQuery_classify. by apply run_handler_nonempty. }
  split.
  { intros Hu. rewrite processQuery_classify, Hu. simpl.
    by apply getDefaultResponse_some. }
  split; [split; [discriminate|apply responses_nonempty]|].
  split.
  { intros Hm q. unfold ConversationalAI.handleMovingAverageQuery.
    by rewrite Hm. }
  split.
  { intros Hs.
    unfold ConversationalAI.handleCurrentSpanQuery,
      ConversationalAI.handlePriceQuery, ConversationalAI.handleHighQuery,
      ConversationalAI.handleLowQuery.
    by rewrite Hs. }
  split.
  { intros Hlt. unfold ConversationalAI.handleTrendQuery.
    apply Nat.ltb_lt in Hlt. by rewrite Hlt. }
  intros [Hs|Hm]; unfold ConversationalAI.handleRecommendationQuery.
  - by rewrite Hs.
  - rewrite Hm. simpl. by destruct (last (ConversationalAI.stockData self)).
Qed.

Lemma processQuery_always_answers_witness :
  exists answer,
    ConversationalAI.processQuery ConversationalAI.new (1 # 2) "" = Some answer
    /\ answer <> "".
Proof.
  apply (processQuery_always_answers ConversationalAI.new (1 # 2) "").
  - by vm_compute.
  - by vm_compute.
Defined.

(** Empty and meaningless queries get one of the guidance strings. *)
Example processQuery_empty_query :
  ConversationalAI.processQuery ConversationalAI.new (1 # 2) "" =
  Some "Ask me about stock spans, price movements, or technical analysis. I'm here to help!".
Proof. vm_compute. reflexivity. Qed.

Example processQuery_gibberish :
  ConversationalAI.processQuery ConversationalAI.new 0 "  xyzzy 42 qwerty  " =
  Some "I can help you analyze stock data! Try asking about moving averages, current prices, trends, or recommendations.".
Proof. vm_compute. reflexivity. Qed.

Section RecommendationProofs.
Import ConversationalAI.

Ltac decide_elem :=
  match goal with
  | |- _ ∈ _ <-> _ =>
      split;
      [ intros Hin; apply (bool_decide_pack _) in Hin; vm_compute in Hin;
        first [ reflexivity | by destruct Hin ]
      | intros Heq; first [ discriminate Heq
                          | apply (bool_decide_unpack _); vm_compute; exact I ] ]
  end.

Lemma signalsOf_members latest latestMA :
  ("Price above 10-day MA (Bullish)" ∈ signalsOf latest latestMA
     <-> gt_num (close latest) (ma10_or_0 latestMA) = true)
  /\ ("Price below 10-day MA (Bearish)" ∈ signalsOf latest latestMA
     <-> lt_num (close latest) (ma10_or_0 latestMA) = true)
  /\ ("High span indicates strong momentum (Bullish)"
        ∈ signalsOf latest latestMA
     <-> (7 <? span_or_0 latest)%Z = true)
  /\ ("Low span indicates weak momentum (Bearish)"
        ∈ signalsOf latest latestMA
     <-> (span_or_0 latest <=? 2)%Z = true).
Proof.
  unfold signalsOf.
  destruct (gt_num _ _), (lt_num _ _), (7 <? _)%Z, (_ <=? 2)%Z;
    (split; [|split; [|split]]); decide_elem.
Qed.

Lemma handleRecommendationQuery_text self latest latestMA :
  last (stockData self) = Some latest ->
  last (movingAverages self) = Some latestMA ->
  handleRecommendationQuery self =
  recommendationText (bullishCount latest latestMA)
    (bearishCount latest latestMA) (signalsOf latest latestMA).
Proof.
  intros Hl Hm. unfold handleRecommendationQuery. rewrite Hl, Hm.
  unfold recommendationText, verdict, rationale, bullishCount, bearishCount,
    signalsOf.
  destruct (gt_num _ _), (lt_num _ _), (7 <? _)%Z, (_ <=? 2)%Z; reflexivity.
Qed.

Lemma verdict_cases bullish bearish :
  (verdict bullish bearish = "BUY" <-> bearish < bullish)
  /\ (verdict bullish bearish = "SELL" <-> bullish < bearish)
  /\ (verdict bullish bearish = "HOLD" <-> bullish = bearish).
Proof.
  unfold verdict.
  destruct (bearish <? bullish) eqn:E1; [apply Nat.ltb_lt in E1|apply Nat.ltb_ge in E1];
    [|destruct (bullish <? bearish) eqn:E2;
       [apply Nat.ltb_lt in E2|apply Nat.ltb_ge in E2]];
    repeat split; intros H; try discriminate; try lia; reflexivity.
Qed.

Lemma last_is_Some {A} (l : list A) : l <> [] -> exists x, last l = Some x.
Proof.
  intros Hne. destruct (last l) as [x|] eqn:E; [eauto|].
  by apply last_None in E.
Qed.

Lemma classify_buy_or_sell :
  classify "should I buy or sell" = RecommendationQuery.
Proof. vm_compute. reflexivity. Qed.

Lemma Qlt_bool_iff a b : Qlt_bool a b = true <-> (a < b)%Q.
Proof.
  unfold Qlt_bool. rewrite negb_true_iff. split.
  - intros H. apply Qnot_le_lt. intros Hle.
    apply Qle_bool_iff in Hle. congruence.
  - intros H. destruct (Qle_bool b a) eqn:E; [|done].
    apply Qle_bool_iff in E. exfalso. eapply Qlt_not_le; eauto.
Qed.

(** With a 10-day average [m] on record, the two tests of the handler compare
    the close with [m]: [m || 0] is [m] itself, also when [m] is 0. *)
Lemma ma10_tests latestMA m c :
  ma10 latestMA = Some (Fin m) ->
  (gt_num c (ma10_or_0 latestMA) = true <-> (m < c)%Q)
  /\ (lt_num c (ma10_or_0 latestMA) = true <-> (c < m)%Q).
Proof.
  intros Hm. unfold ma10_or_0. rewrite Hm. simpl.
  destruct (Qeq_bool m 0) eqn:E; simpl; rewrite !Qlt_bool_iff.
  - apply Qeq_bool_eq in E. by rewrite E.
  - done.
Qed.

Lemma gt_num_above latestMA m c :
  ma10 latestMA = Some (Fin m) -> (m < c)%Q ->
  gt_num c (ma10_or_0 latestMA) = true
  /\ lt_num c (ma10_or_0 latestMA) = false.
Proof.
  intros Hm Hlt. destruct (ma10_tests latestMA m c Hm) as [Hgt Hlt'].
  split; [by apply Hgt|].
  apply not_true_is_false. intros E.
  apply Hlt' in E. eapply Qlt_irrefl, Qlt_trans; eauto.
Qed.
End RecommendationProofs.

(** C6.  With a non-empty series and non-empty averages, the signals of the
    recommendation handler are: price above the 10-day average (bullish) when
    the latest close is above it, price below (bearish) when it is below, high
    span (bullish) when the latest span exceeds 7, low span (bearish) when it
    is at most 2.  The answer is BUY exactly when the bullish signals
    outnumber the bearish ones, SELL when the bearish outnumber the bullish,
    HOLD otherwise, followed by the signals.  "should I buy or sell" with the
    close above the 10-day average and span 9 answers BUY with both bullish
    signals. *)
Theorem handleRecommendationQuery_counts_signals (self : ConversationalAI.t) :
  ConversationalAI.stockData self <> [] ->
  ConversationalAI.movingAverages self <> [] ->
  exists latest latestMA,
    last (ConversationalAI.stockData self) = Some latest
    /\ last (ConversationalAI.movingAverages self) = Some latestMA
    /\ (let signals := ConversationalAI.signalsOf latest latestMA in
        let above := ConversationalAI.gt_num (close latest)
                       (ConversationalAI.ma10_or_0 latestMA) in
        let below := ConversationalAI.lt_num (close latest)
                       (ConversationalAI.ma10_or_0 latestMA) in
        ("Price above 10-day MA (Bullish)" ∈ signals <-> above = true)
        /\ ("Price below 10-day MA (Bearish)" ∈ signals <-> below = true)
        /\ ("High span indicates strong momentum (Bullish)" ∈ signals
            <-> (7 < span_or_0 latest)%Z)
        /\ ("Low span indicates weak momentum (Bearish)" ∈ signals
            <-> (span_or_0 latest <= 2)%Z)
        /\ (forall m, ma10 latestMA = Some (Fin m) ->
            (above = true <-> (m < close latest)%Q)
            /\ (below = true <-> (close latest < m)%Q)))
    /\ (let bullish := bullishCount latest latestMA in
        let bearish := bearishCount latest latestMA in
        ConversationalAI.handleRecommendationQuery self =
          recommendationText bullish bearish
            (ConversationalAI.signalsOf latest latestMA)
        /\ (verdict bullish bearish = "BUY" <-> bearish < bullish)
        /\ (verdict bullish bearish = "SELL" <-> bullish < bearish)
        /\ (verdict bullish bearish = "HOLD" <-> bullish = bearish))
    /\ (forall random m,
          ma10 latestMA = Some (Fin m) -> (m < close latest)%Q ->
          span latest = Some 9%Z ->
          ConversationalAI.processQuery self random "should I buy or sell" =
          Some ("📊 **BUY** - Multiple bullish indicators align for a potential buying opportunity."
                +:+ newline +:+ newline
                +:+ "Signals: Price above 10-day MA (Bullish), High span indicates strong momentum (Bullish)")).
Proof.
  intros Hs Hm.
  destruct (last_is_Some _ Hs) as [latest Hl].
  destruct (last_is_Some _ Hm) as [latestMA Hlm].
  exists latest, latestMA. split; [done|]. split; [done|].
  split.
  { cbv zeta. destruct (signalsOf_members latest latestMA) as (H1 & H2 & H3 & H4).
    rewrite <- Z.ltb_lt, <- Z.leb_le. repeat (split; [done|]).
    intros m Hma. by apply ma10_tests. }
  split.
  { cbv zeta. split; [by apply handleRecommendationQuery_text|].
    apply verdict_cases. }
  intros random m Hma Hlt Hspan.
  rewrite processQuery_classify, classify_buy_or_sell. simpl. f_equal.
  rewrite (handleRecommendationQuery_text self latest latestMA Hl Hlm).
  unfold bullishCount, bearishCount, ConversationalAI.signalsOf, span_or_0.
  destruct (gt_num_above latestMA m (close latest) Hma Hlt) as [-> ->].
  rewrite Hspan. reflexivity.
Qed.

Lemma handleRecommendationQuery_counts_signals_witness :
  ConversationalAI.processQuery example_context 0 "should I buy or sell" =
  Some ("📊 **BUY** - Multiple bullish indicators align for a potential buying opportunity."
        +:+ newline +:+ newline
        +:+ "Signals: Price above 10-day MA (Bullish), High span indicates strong momentum (Bullish)").
Proof.
  destruct (handleRecommendationQuery_counts_signals example_context)
    as (latest & latestMA & Hl & Hm & _ & _ & H); [discriminate|discriminate|].
  inversion Hl; subst latest. inversion Hm; subst latestMA.
  apply (H 0%Q (12345 # 100)%Q); reflexivity.
Defined.

Section MovingAverageQueryProofs.
Import ConversationalAI.

Lemma classify_ten_day_average :
  classify "what's the 10 day average" = Unrecognized.
Proof. vm_compute. reflexivity. Qed.

Lemma responses_without_12345 :
  Forall (fun s => includes s "123.45" = false) responses.
Proof. repeat constructor. Qed.

Lemma getDefaultResponse_in random answer :
  getDefaultResponse random = Some answer -> answer ∈ responses.
Proof.
  unfold getDefaultResponse. destruct (_ <? 0)%Z; [done|].
  apply list_elem_of_lookup_2.
Qed.
End MovingAverageQueryProofs.

(** No part of the query is in the language of the first pattern. *)
Lemma movingAveragePattern_rejects_ten_day_average :
  ~ exists p u v,
      "what's the 10 day average" = p +:+ u +:+ v
      /\ matches ConversationalAI.movingAveragePattern u.
Proof.
  intros H. apply test_spec in H. vm_compute in H. discriminate.
Qed.

(** C1.  The query "what's the 10 day average" is matched by no pattern: the
    digits come before the word "average", while the first pattern wants
    them after it.  The answer is a default response, which does not hold
    "123.45".  With the digits after the word the same context answers with
    the 10-day average. *)
Theorem ten_day_average_query_is_unrecognized
    (self : ConversationalAI.t) (random : Q) :
  Regex.test ConversationalAI.movingAveragePattern "what's the 10 day average"
    = false
  /\ classify "what's the 10 day average" = ConversationalAI.Unrecognized
  /\ ConversationalAI.processQuery self random "what's the 10 day average"
     = ConversationalAI.getDefaultResponse random
  /\ (forall answer,
        ConversationalAI.processQuery self random "what's the 10 day average"
          = Some answer ->
        answer ∈ ConversationalAI.responses
        /\ includes answer "123.45" = false)
  /\ ma10 <$> last (ConversationalAI.movingAverages example_context)
     = Some (Some (Fin (12345 # 100)))
  /\ ConversationalAI.handleMovingAverageQuery example_context
       "what's the 10 day average"
     = "The 10-day moving average is $123.45."
  /\ ConversationalAI.processQuery example_context random
       "what's the average for 10 days"
     = Some "The 10-day moving average is $123.45.".
Proof.
  split; [by vm_compute|].
  split; [apply classify_ten_day_average|].
  assert (Hq : ConversationalAI.processQuery self random
                 "what's the 10 day average"
               = ConversationalAI.getDefaultResponse random).
  { by rewrite processQuery_classify, classify_ten_day_average. }
  split; [exact Hq|].
  split.
  { intros answer Ha. rewrite Hq in Ha.
    apply getDefaultResponse_in in Ha. split; [done|].
    pose proof responses_without_12345 as H.
    rewrite Forall_forall in H. by apply H. }
  split; [reflexivity|].
  split; [by vm_compute|].
  rewrite processQuery_classify.
  assert (classify "what's the average for 10 days"
          = ConversationalAI.MovingAverageQuery) as -> by (by vm_compute).
  by vm_compute.
Qed.

Section NoNAProofs.
Import ConversationalAI.

Lemma has_char_app c a b :
  has_char c (a +:+ b) = has_char c a || has_char c b.
Proof.
  induction a as [|x a IH]; simpl; [done|]. by rewrite IH, orb_assoc.
Qed.

(** A string that holds [needle] holds its first character. *)
Lemma includes_has_char s c needle :
  includes s (String c needle) = true -> has_char c s = true.
Proof.
  induction s as [|x s IH]; simpl; [done|].
  intros H. apply orb_true_iff in H as [H|H].
  - destruct (ascii_dec c x) as [->|]; [|done].
    by rewrite Ascii.eqb_refl.
  - rewrite (IH H). apply orb_true_r.
Qed.

Lemma has_char_substring c s : forall i j,
  has_char c (String.substring i j s) = true -> has_char c s = true.
Proof.
  induction s as [|x s IH]; intros [|i] [|j]; simpl; try done.
  - intros H. apply orb_true_iff in H as [H|H].
    + by rewrite H.
    + rewrite (IH _ _ H). apply orb_true_r.
  - intros H. rewrite (IH _ _ H). apply orb_true_r.
  - intros H. rewrite (IH _ _ H). apply orb_true_r.
Qed.

Lemma has_char_N_uint d : has_char "N" (NilEmpty.string_of_uint d) = false.
Proof. induction d; simpl; done. Qed.

Lemma has_char_N_digits n : has_char "N" (digits n) = false.
Proof.
  unfold digits, NilZero.string_of_uint.
  destruct (N.to_uint n); try apply has_char_N_uint. done.
Qed.

Lemma has_char_N_zeros n : has_char "N" (zeros n) = false.
Proof. induction n; simpl; done. Qed.

Lemma has_char_N_toFixed_fin f x : has_char "N" (toFixed_fin f x) = false.
Proof.
  unfold toFixed_fin. cbv zeta.
  set (m0 := digits _).
  set (m := if String.length m0 <=? f then _ else m0).
  assert (Hm : has_char "N" m = false).
  { subst m. destruct (_ <=? f).
    - rewrite has_char_app, has_char_N_zeros. apply has_char_N_digits.
    - apply has_char_N_digits. }
  assert (Hsub : forall i j, has_char "N" (String.substring i j m) = false).
  { intros i j. destruct (has_char "N" (String.substring i j m)) eqn:E; [|done].
    apply has_char_substring in E. congruence. }
  rewrite has_char_app.
  assert (has_char "N" (if Qle_bool 0 x then "" else "-") = false) as ->
      by (by destruct (Qle_bool 0 x)).
  destruct (f =? 0); [done|].
  rewrite !has_char_app, !Hsub. done.
Qed.

Lemma no_N_no_NA s : has_char "N" s = false -> includes s "N/A" = false.
Proof.
  intros H. destruct (includes s "N/A") eqn:E; [|done].
  apply includes_has_char in E. congruence.
Qed.
End NoNAProofs.

Section PipelineProofs.
Import ConversationalAI.

Lemma window_mean_first closes c w :
  0 < w -> closes !! 0 = Some c -> (window_mean closes 0 w == c)%Q.
Proof.
  intros Hw Hc. unfold window_mean, mean, last_n.
  destruct closes as [|c' closes]; [done|]. inversion Hc; subst c'.
  destruct w as [|w]; [lia|]. simpl.
  unfold of_nat. simpl. field.
Qed.

Lemma default_sizes_ok calc :
  MovingAverageCalculator.windowSizes calc
    = MovingAverageCalculator.defaultWindowSizes ->
  NoDup (MovingAverageCalculator.windowSizes calc)
  /\ 5 ∈ MovingAverageCalculator.windowSizes calc
  /\ 10 ∈ MovingAverageCalculator.windowSizes calc
  /\ 20 ∈ MovingAverageCalculator.windowSizes calc.
Proof.
  intros ->. repeat split; by apply (bool_decide_unpack _).
Qed.

Lemma pipeline_record calc stockData i d :
  MovingAverageCalculator.windowSizes calc
    = MovingAverageCalculator.defaultWindowSizes ->
  stockData !! i = Some d ->
  exists r a b c,
    (MovingAverageCalculator.calculateMovingAverages calc stockData).1 !! i
      = Some r
    /\ ma5 r = Some (Fin a) /\ ma10 r = Some (Fin b) /\ ma20 r = Some (Fin c)
    /\ (a == window_mean (map close stockData) i 5)%Q
    /\ (b == window_mean (map close stockData) i 10)%Q
    /\ (c == window_mean (map close stockData) i 20)%Q.
Proof.
  intros Hws Hd.
  destruct (default_sizes_ok calc Hws) as (Hnd & H5 & H10 & H20).
  destruct (calculateMovingAverages_lookup calc stockData i d 5 Hnd H5
              ltac:(lia) Hd) as (r & a & Hr & _ & Ha & Hva).
  destruct (calculateMovingAverages_lookup calc stockData i d 10 Hnd H10
              ltac:(lia) Hd) as (r' & b & Hr' & _ & Hb & Hvb).
  destruct (calculateMovingAverages_lookup calc stockData i d 20 Hnd H20
              ltac:(lia) Hd) as (r'' & c & Hr'' & _ & Hc & Hvc).
  assert (r' = r) as -> by congruence.
  assert (r'' = r) as -> by congruence.
  exists r, a, b, c. done.
Qed.
End PipelineProofs.

(** C10.  With the default window sizes, [calculateMovingAverages] returns
    one record per bar, each with [ma5], [ma10] and [ma20] defined; the first
    record already holds the first close in all three.  On such averages,
    whatever the series and the query, the answer of the moving-average
    handler does not hold ['N/A']: it is the text for an empty series, one of
    the three single-window texts or the listing, each written with the
    numbers of the latest record. *)
Theorem pipeline_averages_always_defined
    (calc : MovingAverageCalculator.t) (stockData : list StockData) :
  MovingAverageCalculator.windowSizes calc
    = MovingAverageCalculator.defaultWindowSizes ->
  let result :=
    (MovingAverageCalculator.calculateMovingAverages calc stockData).1 in
  length result = length stockData
  /\ (forall i r, result !! i = Some r ->
        exists a b c,
          ma5 r = Some (Fin a) /\ ma10 r = Some (Fin b)
          /\ ma20 r = Some (Fin c))
  /\ (forall d, stockData !! 0 = Some d ->
        exists r a b c,
          result !! 0 = Some r
          /\ ma5 r = Some (Fin a) /\ ma10 r = Some (Fin b)
          /\ ma20 r = Some (Fin c)
          /\ (a == close d)%Q /\ (b == close d)%Q /\ (c == close d)%Q)
  /\ (forall series query,
        includes
          (ConversationalAI.handleMovingAverageQuery
             (ConversationalAI.Make series result) query) "N/A" = false)
  /\ (forall series query latest,
        last result = Some latest ->
        exists a b c,
          ConversationalAI.toFixedOrNA (ma5 latest) = toFixed_fin 2 a
          /\ ConversationalAI.toFixedOrNA (ma10 latest) = toFixed_fin 2 b
          /\ ConversationalAI.toFixedOrNA (ma20 latest) = toFixed_fin 2 c
          /\ (let answer :=
                ConversationalAI.handleMovingAverageQuery
                  (ConversationalAI.Make series result) query in
              answer = "The 5-day moving average is $" +:+ toFixed_fin 2 a
                       +:+ "."
              \/ answer = "The 10-day moving average is $" +:+ toFixed_fin 2 b
                          +:+ "."
              \/ answer = "The 20-day moving average is $" +:+ toFixed_fin 2 c
                          +:+ "."
              \/ answer =
                 "I have moving averages for 5, 10, and 20 days. The latest values are: 5-day: $"
                 +:+ toFixed_fin 2 a +:+ ", 10-day: $" +:+ toFixed_fin 2 b
                 +:+ ", 20-day: $" +:+ toFixed_fin 2 c +:+ ".")).
Proof.
  intros Hws. cbv zeta.
  destruct (default_sizes_ok calc Hws) as (Hnd & _).
  pose proof (calculateMovingAverages_length calc stockData Hnd) as Hlen.
  assert (Hrec : forall i r,
             (MovingAverageCalculator.calculateMovingAverages calc stockData).1
               !! i = Some r ->
             exists a b c,
               ma5 r = Some (Fin a) /\ ma10 r = Some (Fin b)
               /\ ma20 r = Some (Fin c)).
  { intros i r Hr.
    destruct (lookup_lt_is_Some_2 stockData i) as [d Hd].
    { apply lookup_lt_Some in Hr. lia. }
    destruct (pipeline_record calc stockData i d Hws Hd)
      as (r' & a & b & c & Hr' & Ha & Hb & Hc & _).
    assert (r' = r) as -> by congruence. by exists a, b, c. }
  assert (Hans : forall series query latest,
             last (MovingAverageCalculator.calculateMovingAverages calc
                     stockData).1 = Some latest ->
             exists a b c,
               ConversationalAI.toFixedOrNA (ma5 latest) = toFixed_fin 2 a
               /\ ConversationalAI.toFixedOrNA (ma10 latest) = toFixed_fin 2 b
               /\ ConversationalAI.toFixedOrNA (ma20 latest) = toFixed_fin 2 c
               /\ (let answer :=
                     ConversationalAI.handleMovingAverageQuery
                       (ConversationalAI.Make series
                          (MovingAverageCalculator.calculateMovingAverages calc
                             stockData).1) query in
                   answer = "The 5-day moving average is $"
                            +:+ toFixed_fin 2 a +:+ "."
                   \/ answer = "The 10-day moving average is $"
                               +:+ toFixed_fin 2 b +:+ "."
                   \/ answer = "The 20-day moving average is $"
                               +:+ toFixed_fin 2 c +:+ "."
                   \/ answer =
                      "I have moving averages for 5, 10, and 20 days. The latest values are: 5-day: $"
                      +:+ toFixed_fin 2 a +:+ ", 10-day: $" +:+ toFixed_fin 2 b
                      +:+ ", 20-day: $" +:+ toFixed_fin 2 c +:+ ".")).
  { intros series query latest Hlast.
    pose proof Hlast as Hlk. rewrite last_lookup in Hlk.
    destruct (Hrec _ _ Hlk) as (a & b & c & Ha & Hb & Hc).
    exists a, b, c.
    unfold ConversationalAI.handleMovingAverageQuery. simpl.
    rewrite Hlast, Ha, Hb, Hc. simpl.
    repeat (split; [reflexivity|]).
    repeat case_match; auto. }
  split; [exact Hlen|]. split; [exact Hrec|]. split; [|split; [|exact Hans]].
  - intros d Hd.
    destruct (pipeline_record calc stockData 0 d Hws Hd)
      as (r & a & b & c & Hr & Ha & Hb & Hc & Hva & Hvb & Hvc).
    assert (Hc0 : map close stockData !! 0 = Some (close d)).
    { by rewrite list_lookup_fmap, Hd. }
    exists r, a, b, c. repeat (split; [done|]).
    split; [|split].
    + rewrite Hva. apply window_mean_first; [lia|done].
    + rewrite Hvb. apply window_mean_first; [lia|done].
    + rewrite Hvc. apply window_mean_first; [lia|done].
  - intros series query. apply no_N_no_NA.
    destruct (last (MovingAverageCalculator.calculateMovingAverages calc
                      stockData).1) as [latest|] eqn:Hlast.
    + destruct (Hans series query latest eq_refl)
        as (a & b & c & _ & _ & _ & [-> | [-> | [-> | ->]]]);
        rewrite !has_char_app, !has_char_N_toFixed_fin; reflexivity.
    + unfold ConversationalAI.handleMovingAverageQuery. simpl.
      rewrite Hlast. reflexivity.
Qed.

Lemma pipeline_averages_always_defined_witness :
  length
    (MovingAverageCalculator.calculateMovingAverages
       (MovingAverageCalculator.new MovingAverageCalculator.defaultWindowSizes)
       (map bar [10; 20; 60]%Q)).1 = 3.
Proof.
  apply (pipeline_averages_always_defined
           (MovingAverageCalculator.new
              MovingAverageCalculator.defaultWindowSizes)
           (map bar [10; 20; 60]%Q)).
  reflexivity.
Defined.

(** The guards [days === n && latest.ma<n>] test truthiness: an average of
    exactly 0 sends the query to the listing, rendered with numbers. *)
Example handleMovingAverageQuery_zero_average :
  ConversationalAI.handleMovingAverageQuery
    (ConversationalAI.Make []
       (MovingAverageCalculator.calculateMovingAverages
          (MovingAverageCalculator.new
             MovingAverageCalculator.defaultWindowSizes)
          (map bar [0; 0]%Q)).1)
    "what's the average for 10 days"
  = "I have moving averages for 5, 10, and 20 days. The latest values are: 5-day: $0.00, 10-day: $0.00, 20-day: $0.00.".
Proof. by vm_compute. Qed.

(* ================================================================== *)
(** * Part III.  Further properties of the code                        *)
(* ================================================================== *)

(** ** More on the span calculator *)

Section SpanExtras.
Import StockSpanCalculator.

Lemma take_while_stop {A} (f : A -> bool) l :
  length (take_while f l) < length l ->
  exists x, l !! length (take_while f l) = Some x /\ f x = false.
Proof.
  induction l as [|a l IH]; simpl; [lia|].
  destruct (f a) eqn:E; simpl.
  - intros H. apply IH. lia.
  - intros _. by exists a.
Qed.

Lemma take_while_holds {A} (f : A -> bool) l j x :
  j < length (take_while f l) -> l !! j = Some x -> f x = true.
Proof.
  revert j. induction l as [|a l IH]; intros j; simpl; [lia|].
  destruct (f a) eqn:E; simpl; [|lia].
  destruct j as [|j]; simpl.
  - intros _ H. by inversion H; subst.
  - intros H. apply IH. lia.
Qed.

Lemma rev_reverse {A} (l : list A) : rev l = reverse l.
Proof. unfold reverse. apply rev_alt. Qed.

Lemma rev_take_lookup {A} (l : list A) i j x :
  i <= length l -> j < i ->
  rev (take i l) !! j = Some x <-> l !! (i - 1 - j) = Some x.
Proof.
  intros Hi Hj. rewrite rev_reverse.
  assert (Hlen : length (take i l) = i) by (rewrite length_take; lia).
  rewrite reverse_lookup by lia. rewrite Hlen.
  replace (i - S j) with (i - 1 - j) by lia.
  rewrite lookup_take_lt by lia. done.
Qed.

Lemma spans_from_app l : forall rpre l',
  spans_from rpre (l ++ l') = spans_from rpre l ++ spans_from (rev l ++ rpre) l'.
Proof.
  induction l as [|p l IH]; intros rpre l'; simpl; [done|].
  rewrite IH. by rewrite <- app_assoc.
Qed.

Lemma pop_while_suffix st p : exists popped, st = popped ++ pop_while st p.
Proof.
  induction st as [|e st [popped IH]]; simpl; [by exists []|].
  destruct (Qle_bool (price e) p).
  - exists (e :: popped). simpl. by f_equal.
  - by exists [].
Qed.

Lemma monotonic_stack_suffix a b : monotonic_stack (a ++ b) -> monotonic_stack b.
Proof.
  induction a as [|x a IH]; simpl; [done|].
  destruct (a ++ b) as [|y r] eqn:E.
  - destruct a; [|discriminate]. simpl in E. subst b. done.
  - intros (_ & _ & H). by apply IH.
Qed.

Lemma pop_while_head st p e rest :
  pop_while st p = e :: rest -> (p < price e)%Q.
Proof.
  induction st as [|x st IH]; simpl; [done|].
  destruct (Qle_bool (price x) p) eqn:E; [done|].
  intros H. inversion H; subst. apply Qnot_le_lt. intros Hle.
  apply Qle_bool_iff in Hle. congruence.
Qed.

(** What the stack holds after the bars [rpre] (latest first). *)
Lemma canon_ok rpre :
  monotonic_stack (canon rpre)
  /\ Forall (fun e => rev rpre !! index e = Some (price e)) (canon rpre)
  /\ (head (canon rpre) = (fun p => Entry (length rpre - 1) p) <$> head rpre).
Proof.
  induction rpre as [|p older (Hmono & Hall & Hhead)]; simpl; [done|].
  destruct (pop_while_suffix (canon older) p) as [popped Hsuf].
  assert (Hall' : Forall (fun e => rev older !! index e = Some (price e))
                    (pop_while (canon older) p)).
  { rewrite Hsuf in Hall. by apply Forall_app in Hall as [_ H]. }
  assert (Hmono' : monotonic_stack (pop_while (canon older) p)).
  { rewrite Hsuf in Hmono. by eapply monotonic_stack_suffix. }
  split; [|split].
  - destruct (pop_while (canon older) p) as [|e rest] eqn:E; [done|].
    split; [|split; [|done]].
    + apply Forall_cons in Hall' as [He _].
      apply lookup_lt_Some in He. by rewrite length_rev in He.
    + simpl. by eapply pop_while_head.
  - constructor.
    + simpl. rewrite lookup_app_r by (rewrite length_rev; lia).
      by rewrite length_rev, Nat.sub_diag.
    + eapply Forall_impl; [exact Hall'|]. intros e He. simpl in *.
      rewrite lookup_app_l; [done|]. by apply lookup_lt_Some in He.
  - simpl. f_equal. f_equal. lia.
Qed.

Lemma calculateSpan_stack self prices :
  stack (calculateSpan self prices).2 = canon (rev prices).
Proof.
  unfold calculateSpan.
  pose proof (loop_canon prices [] []) as H. simpl in H. rewrite H. simpl.
  by rewrite app_nil_r.
Qed.

End SpanExtras.

(** X1.  [calculateSpanForStockData] returns as many bars as it receives;
    bar [i] keeps its date, prices and volume, and its span becomes the span
    [calculateSpan] gives to its close, a number between 1 and [i+1],
    whatever span the bar carried before. *)
Theorem calculateSpanForStockData_annotates
    (self : StockSpanCalculator.t) (stockData : list StockData) :
  let out := (StockSpanCalculator.calculateSpanForStockData self stockData).1 in
  length out = length stockData
  /\ forall i d, stockData !! i = Some d ->
       exists o s,
         out !! i = Some o
         /\ date o = date d /\ open o = open d /\ high o = high d
         /\ low o = low d /\ close o = close d /\ volume o = volume d
         /\ span o = Some (Z.of_nat s)
         /\ (StockSpanCalculator.calculateSpan self (map close stockData)).1 !! i
            = Some s
         /\ 1 <= s <= i + 1.
Proof.
  cbv zeta. split.
  - unfold StockSpanCalculator.calculateSpanForStockData.
    destruct (StockSpanCalculator.calculateSpan self (map close stockData)).
    simpl. by rewrite length_imap.
  - intros i d Hd.
    assert (Hc : map close stockData !! i = Some (close d)).
    { by rewrite list_lookup_fmap, Hd. }
    exists (with_span d (Some (Z.of_nat (span_spec (map close stockData) i)))),
      (span_spec (map close stockData) i).
    split; [by apply calculateSpanForStockData_lookup|].
    repeat (split; [reflexivity|]).
    split; [by eapply calculateSpan_lookup|].
    rewrite (span_spec_run _ _ _ Hc).
    pose proof (run_le (close d) (rev (take i (map close stockData)))) as Hle.
    rewrite length_rev, length_take in Hle. lia.
Qed.

Lemma calculateSpanForStockData_annotates_witness :
  exists o s,
    (StockSpanCalculator.calculateSpanForStockData (StockSpanCalculator.Make [])
       [with_span (bar 3) (Some 7%Z); bar 1; bar 2]).1 !! 2 = Some o
    /\ span o = Some (Z.of_nat s) /\ 1 <= s <= 2 + 1.
Proof.
  destruct (calculateSpanForStockData_annotates (StockSpanCalculator.Make [])
              [with_span (bar 3) (Some 7%Z); bar 1; bar 2]) as [_ H].
  destruct (H 2 (bar 2) eq_refl)
    as (o & s & Ho & _ & _ & _ & _ & _ & _ & Hs & _ & Hb).
  by exists o, s.
Defined.

(** X2.  The stack [calculateSpan] leaves in the instance is monotonic: from
    the top down the indices decrease and the prices strictly increase; every
    entry holds the price of the bar at its index; the top entry is the last
    bar; and the stack is empty only for an empty series. *)
Theorem calculateSpan_leaves_monotonic_stack
    (self : StockSpanCalculator.t) (prices : list Q) :
  let st := StockSpanCalculator.stack
              (StockSpanCalculator.calculateSpan self prices).2 in
  monotonic_stack st
  /\ Forall (fun e => prices !! StockSpanCalculator.index e
                     = Some (StockSpanCalculator.price e)) st
  /\ head st = (fun p => StockSpanCalculator.Entry (length prices - 1) p)
                 <$> last prices.
Proof.
  cbv zeta. rewrite calculateSpan_stack.
  destruct (canon_ok (rev prices)) as (H1 & H2 & H3).
  rewrite rev_involutive in H2. rewrite length_rev in H3.
  split; [done|]. split; [done|].
  rewrite H3. f_equal. rewrite rev_reverse. by rewrite head_reverse.
Qed.

(** X3.  The bar just before the run a span counts closes strictly higher
    than the bar itself: when [spans[i] = s] and [s <= i], bar [i - s] closes
    above bar [i], and every bar after it up to [i] closes at or below bar
    [i].  The span is [i + 1] exactly when no earlier bar closes higher. *)
Theorem calculateSpan_stops_at_higher_close
    (self : StockSpanCalculator.t) (prices : list Q) (i s : nat) (c : Q) :
  prices !! i = Some c ->
  (StockSpanCalculator.calculateSpan self prices).1 !! i = Some s ->
  (forall j x, i - s < j <= i -> prices !! j = Some x -> (x <= c)%Q)
  /\ (s <= i -> exists h, prices !! (i - s) = Some h /\ (c < h)%Q)
  /\ (s = i + 1 <-> forall j x, j < i -> prices !! j = Some x -> (x <= c)%Q).
Proof.
  intros Hc Hs.
  rewrite (calculateSpan_lookup _ _ _ _ Hc) in Hs.
  assert (Hs' : s = span_spec prices i) by congruence.
  rewrite (span_spec_run _ _ _ Hc) in Hs'. clear Hs. unfold run in Hs'.
  assert (Hi : i <= length prices) by (apply lookup_lt_Some in Hc; lia).
  pose proof (take_while_length_le (fun y => Qle_bool y c)
                (rev (take i prices))) as Hle.
  rewrite length_rev, length_take in Hle.
  pose proof (take_while_holds (fun y => Qle_bool y c) (rev (take i prices)))
    as Hholds.
  pose proof (take_while_stop (fun y => Qle_bool y c) (rev (take i prices)))
    as Hstop.
  rewrite length_rev, length_take in Hstop.
  set (k := length (take_while (fun y => Qle_bool y c) (rev (take i prices))))
    in *.
  assert (Hrun : forall j x, i - s < j < i -> prices !! j = Some x -> (x <= c)%Q).
  { intros j x Hj Hx. apply Qle_bool_iff.
    apply (Hholds (i - 1 - j)); [lia|].
    apply rev_take_lookup; [done|lia|].
    replace (i - 1 - (i - 1 - j)) with j by lia. done. }
  split; [|split].
  - intros j x Hj Hx. destruct (decide (j = i)) as [->|Hne].
    + rewrite Hc in Hx. inversion Hx. apply Qle_refl.
    + apply (Hrun j x); [|done].
      lia.
  - intros Hsi.
    destruct Hstop as (h & Hh & Hf); [lia|].
    apply rev_take_lookup in Hh; [|done|lia].
    exists h. split.
    + replace (i - s) with (i - 1 - k) by lia. done.
    + apply Qnot_le_lt. intros Hle'. apply Qle_bool_iff in Hle'. congruence.
  - split.
    + intros Heq j x Hj Hx. apply Qle_bool_iff.
      apply (Hholds (i - 1 - j)); [lia|].
      apply rev_take_lookup; [done|lia|].
      replace (i - 1 - (i - 1 - j)) with j by lia. done.
    + intros Hall.
      destruct (decide (k = i)) as [Heq|Hne]; [lia|].
      destruct Hstop as (h & Hh & Hf); [lia|].
      apply rev_take_lookup in Hh; [|done|lia].
      assert (Hle' : (h <= c)%Q) by (eapply Hall; [|exact Hh]; lia).
      apply Qle_bool_iff in Hle'. congruence.
Qed.

Lemma calculateSpan_stops_at_higher_close_witness :
  exists h, [5; 3; 1; 2]%Q !! (3 - 2) = Some h /\ (2 < h)%Q.
Proof.
  destruct (calculateSpan_stops_at_higher_close (StockSpanCalculator.Make [])
              [5; 3; 1; 2]%Q 3 2 2%Q eq_refl eq_refl) as (_ & H & _).
  apply H. lia.
Defined.

(** X4.  Later bars never change earlier spans: the spans of a series are a
    prefix of the spans of any series that extends it. *)
Theorem calculateSpan_prefix_stable
    (self self' : StockSpanCalculator.t) (prices later : list Q) :
  take (length prices)
    (StockSpanCalculator.calculateSpan self' (prices ++ later)).1
  = (StockSpanCalculator.calculateSpan self prices).1.
Proof.
  pose proof (calculateSpan_spans self' (prices ++ later)) as H1.
  pose proof (calculateSpan_spans self prices) as H2.
  simpl in H1, H2. rewrite H1, H2, spans_from_app.
  rewrite take_app_length'; [done|]. by rewrite spans_from_length.
Qed.

(** ** More on the moving-average calculator *)

Section MovingAverageExtras.
Import MovingAverageCalculator.

Lemma window_step_agree d s1 s2 a w :
  agree_on_sizes s1 s2 -> w ∈ windowSizes s1 ->
  agree_on_sizes (window_step d (s1, a) w).1 (window_step d (s2, a) w).1
  /\ (window_step d (s1, a) w).2 = (window_step d (s2, a) w).2
  /\ windowSizes (window_step d (s1, a) w).1 = windowSizes s1.
Proof.
  intros [Hws Hag] Hw. unfold window_step.
  destruct (Hag w Hw) as [Hq Hs]. rewrite <- Hq, <- Hs.
  destruct (push_window w (close d) _ _) as [q s]. simpl.
  split; [|done]. split; [done|]. simpl.
  intros w' Hw'. destruct (decide (w = w')) as [->|Hne].
  - by rewrite !lookup_insert_eq.
  - rewrite !lookup_insert_ne by done. by apply Hag.
Qed.

Lemma window_fold_agree d l : forall s1 s2 a,
  agree_on_sizes s1 s2 -> Forall (fun w => w ∈ windowSizes s1) l ->
  agree_on_sizes (fold_left (window_step d) l (s1, a)).1
                 (fold_left (window_step d) l (s2, a)).1
  /\ (fold_left (window_step d) l (s1, a)).2
     = (fold_left (window_step d) l (s2, a)).2
  /\ windowSizes (fold_left (window_step d) l (s1, a)).1 = windowSizes s1.
Proof.
  induction l as [|w l IH]; intros s1 s2 a Hag Hall; cbn [fold_left]; [done|].
  apply Forall_cons in Hall as [Hw Hall].
  destruct (window_step_agree d s1 s2 a w Hag Hw) as (Hag' & Ha & Hws).
  destruct (window_step d (s1, a) w) as [s1' a1] eqn:E1.
  destruct (window_step d (s2, a) w) as [s2' a2] eqn:E2.
  cbn [fst snd] in *. subst a2.
  destruct (IH s1' s2' a1 Hag') as (H1 & H2 & H3).
  { eapply Forall_impl; [exact Hall|]. intros x Hx. simpl. congruence. }
  split; [done|]. split; [done|]. congruence.
Qed.

Lemma data_step_agree d s1 s2 res :
  agree_on_sizes s1 s2 ->
  agree_on_sizes (data_step (s1, res) d).1 (data_step (s2, res) d).1
  /\ (data_step (s1, res) d).2 = (data_step (s2, res) d).2.
Proof.
  intros Hag. unfold data_step.
  destruct (window_fold_agree d (windowSizes s1) s1 s2 ∅ Hag) as (H1 & H2 & _).
  { by apply Forall_forall. }
  destruct Hag as [Hws _]. rewrite <- Hws.
  destruct (fold_left (window_step d) (windowSizes s1) (s1, ∅)) as [s1' a1].
  destruct (fold_left (window_step d) (windowSizes s1) (s2, ∅)) as [s2' a2].
  simpl in *. by subst.
Qed.

Lemma data_fold_agree l : forall s1 s2 res,
  agree_on_sizes s1 s2 ->
  agree_on_sizes (fold_left data_step l (s1, res)).1
                 (fold_left data_step l (s2, res)).1
  /\ (fold_left data_step l (s1, res)).2 = (fold_left data_step l (s2, res)).2.
Proof.
  induction l as [|d l IH]; intros s1 s2 res Hag; cbn [fold_left]; [done|].
  destruct (data_step_agree d s1 s2 res Hag) as [Hag' Hres].
  destruct (data_step (s1, res) d) as [s1' r1].
  destruct (data_step (s2, res) d) as [s2' r2].
  cbn [fst snd] in *. subst r2. by apply IH.
Qed.

Lemma reset_agree s1 s2 :
  windowSizes s1 = windowSizes s2 -> agree_on_sizes (reset s1) (reset s2).
Proof.
  intros Hws.
  destruct (reset_spec s1) as [H1 L1]. destruct (reset_spec s2) as [H2 L2].
  split; [congruence|].
  intros w Hw. rewrite H1 in Hw.
  destruct (L1 w Hw) as [-> ->].
  rewrite Hws in Hw. by destruct (L2 w Hw) as [-> ->].
Qed.

Lemma data_step_sizes d s res :
  windowSizes (data_step (s, res) d).1 = windowSizes s.
Proof.
  unfold data_step.
  pose proof (window_fold_sizes d (windowSizes s) s ∅) as H.
  by destruct (fold_left (window_step d) (windowSizes s) (s, ∅)) as [s' a].
Qed.

Lemma data_fold_sizes l : forall s res,
  windowSizes (fold_left data_step l (s, res)).1 = windowSizes s.
Proof.
  induction l as [|d l IH]; intros s res; cbn [fold_left]; [done|].
  pose proof (data_step_sizes d s res) as H.
  destruct (data_step (s, res) d) as [s' r']. rewrite IH. exact H.
Qed.

Lemma calculateMovingAverages_sizes self l :
  windowSizes (calculateMovingAverages self l).2 = windowSizes self.
Proof.
  rewrite calculateMovingAverages_run. simpl. rewrite data_fold_sizes.
  by destruct (reset_spec self).
Qed.

Lemma calculateMovingAverages_agree s1 s2 l :
  windowSizes s1 = windowSizes s2 ->
  (calculateMovingAverages s1 l).1 = (calculateMovingAverages s2 l).1.
Proof.
  intros Hws. rewrite !calculateMovingAverages_run. simpl.
  by destruct (data_fold_agree l (reset s1) (reset s2) [] (reset_agree _ _ Hws)).
Qed.

(** The keys of the averages built for one bar. *)
Lemma window_fold_keys d l : forall s a w,
  is_Some ((fold_left (window_step d) l (s, a)).2 !! w)
  <-> w ∈ l \/ is_Some (a !! w).
Proof.
  induction l as [|w0 l IH]; intros s a w; simpl.
  - rewrite elem_of_nil. tauto.
  - destruct (push_window w0 (close d) _ _) as [q sm].
    rewrite IH, elem_of_cons.
    destruct (decide (w0 = w)) as [->|Hne].
    + rewrite lookup_insert_eq. split; [|intros _; right; eauto].
      intros _. by left; left.
    + rewrite lookup_insert_ne by done. split.
      * intros [H|H]; [left; by right|by right].
      * intros [[H|H]|H]; [congruence|by left|by right].
Qed.

Lemma data_step_eq d s res :
  data_step (s, res) d
  = ((fold_left (window_step d) (windowSizes s) (s, ∅)).1,
     res ++ [mkMovingAverage (date d)
               (fold_left (window_step d) (windowSizes s) (s, ∅)).2]).
Proof.
  unfold data_step.
  by destruct (fold_left (window_step d) (windowSizes s) (s, ∅)).
Qed.

Lemma data_fold_shape l : forall s res,
  let r := fold_left data_step l (s, res) in
  length r.2 = length res + length l
  /\ (forall i, i < length res -> r.2 !! i = res !! i)
  /\ forall i d, l !! i = Some d ->
       exists rec, r.2 !! (length res + i) = Some rec
         /\ ma_date rec = date d
         /\ forall w, is_Some (ma rec !! w) <-> w ∈ windowSizes s.
Proof.
  induction l as [|d l IH]; intros s res; cbv zeta.
  - simpl. split; [lia|]. split; [done|]. intros i d H. done.
  - cbn [fold_left]. rewrite data_step_eq.
    pose proof (window_fold_keys d (windowSizes s) s ∅) as Hkeys.
    pose proof (window_fold_sizes d (windowSizes s) s ∅) as Hsz.
    set (s' := (fold_left (window_step d) (windowSizes s) (s, ∅)).1) in *.
    set (a := (fold_left (window_step d) (windowSizes s) (s, ∅)).2) in *.
    destruct (IH s' (res ++ [mkMovingAverage (date d) a])) as (H1 & H2 & H3).
    rewrite length_app in H1, H2, H3. simpl in H1, H2, H3.
    split; [simpl; lia|]. split.
    + intros i Hi. rewrite H2 by lia. by rewrite lookup_app_l.
    + intros [|i] d' Hd'; simpl in Hd'.
      * inversion Hd'; subst d'.
        exists (mkMovingAverage (date d) a). split.
        -- rewrite H2 by lia. rewrite Nat.add_0_r.
           rewrite lookup_app_r by lia. by rewrite Nat.sub_diag.
        -- split; [done|]. intros w. simpl. rewrite Hkeys.
           rewrite lookup_empty. split; [intros [H|H]; [done|by destruct H]|auto].
      * destruct (H3 i d' Hd') as (rec & Hr & Hdate & Hk).
        exists rec. replace (length res + S i) with (length res + 1 + i) by lia.
        split; [done|]. split; [done|]. intros w. rewrite Hk. by rewrite Hsz.
Qed.

(** One window, followed through the whole calculation. *)
Lemma trace_inv self l w :
  NoDup (windowSizes self) -> w ∈ windowSizes self ->
  let r := fold_left data_step l (reset self, []) in
  queues r.1 !! w = Some (window_trace w (map close l)).1
  /\ sums r.1 !! w = Some (window_trace w (map close l)).2
  /\ forall i, i < length l ->
       exists rec, r.2 !! i = Some rec
         /\ ma rec !! w
            = Some (average_of w
                      (window_trace w (take (S i) (map close l))).1
                      (window_trace w (take (S i) (map close l))).2).
Proof.
  intros Hnd Hw. induction l as [|d l IH] using rev_ind; cbv zeta.
  - simpl. destruct (reset_spec self) as [_ Hlk].
    destruct (Hlk w Hw) as [-> ->]. split; [done|]. split; [done|].
    intros i Hi. simpl in Hi. lia.
  - rewrite fold_left_app. simpl.
    pose proof (data_fold_sizes l (reset self) []) as Hsz.
    pose proof (data_fold_shape l (reset self) []) as (Hlen & _ & _).
    destruct (fold_left data_step l (reset self, [])) as [s1 res1] eqn:E1.
    cbv zeta in IH. simpl in IH, Hsz, Hlen. destruct IH as (Hq & Hs & Hres).
    destruct (reset_spec self) as [Hrs _]. rewrite Hrs in Hsz.
    unfold data_step.
    pose proof (window_fold_hit d (windowSizes s1) s1 ∅ w) as Hh.
    rewrite Hsz in Hh. specialize (Hh Hnd Hw). cbv zeta in Hh.
    rewrite Hq, Hs in Hh. simpl in Hh. rewrite <- Hsz in Hh.
    destruct (fold_left (window_step d) (windowSizes s1) (s1, ∅)) as [s2 a].
    simpl in Hh. destruct Hh as (H1 & H2 & H3).
    assert (Htr : window_trace w (map close (l ++ [d]))
                  = push_window w (close d) (window_trace w (map close l)).1
                      (window_trace w (map close l)).2).
    { unfold window_trace. rewrite map_app, fold_left_app. done. }
    simpl. rewrite Htr. split; [done|]. split; [done|].
    intros i Hi. rewrite length_app in Hi. simpl in Hi.
    destruct (decide (i < length l)) as [Hlt|Hge].
    + destruct (Hres i Hlt) as (rec & Hr & Hm).
      exists rec. rewrite lookup_app_l by lia. split; [done|].
      rewrite Hm. rewrite map_app, take_app_le; [done|].
      rewrite length_map. lia.
    + assert (i = length l) as -> by lia.
      exists (mkMovingAverage (date d) a).
      rewrite lookup_app_r by lia. rewrite Hlen. simpl. rewrite Nat.sub_diag.
      split; [done|]. simpl. rewrite H3.
      rewrite take_ge by (rewrite length_map, length_app; simpl; lia).
      by rewrite Htr.
Qed.

Lemma window_trace_zero cs :
  (window_trace 0 cs).1 = [] /\ ((window_trace 0 cs).2 == 0)%Q.
Proof.
  induction cs as [|c cs [Hq Hs]] using rev_ind; [done|].
  unfold window_trace in *. rewrite fold_left_app. cbn [fold_left].
  destruct (fold_left _ cs _) as [q s]. cbn [fst snd] in *. subst q.
  unfold push_window. simpl. split; [done|]. rewrite Hs. ring.
Qed.

End MovingAverageExtras.

(** X5.  A calculation does not depend on what the instance did before: two
    instances configured with the same window sizes return the same records,
    whatever their queues and sums hold, and a calculation leaves the
    configuration as it was, so a second calculation on the same instance
    gives what a fresh instance would give. *)
Theorem calculateMovingAverages_forgets_earlier_runs
    (self other : MovingAverageCalculator.t) (earlier stockData : list StockData) :
  MovingAverageCalculator.windowSizes self
    = MovingAverageCalculator.windowSizes other ->
  (MovingAverageCalculator.calculateMovingAverages self stockData).1
    = (MovingAverageCalculator.calculateMovingAverages other stockData).1
  /\ (MovingAverageCalculator.calculateMovingAverages
        (MovingAverageCalculator.calculateMovingAverages self earlier).2
        stockData).1
     = (MovingAverageCalculator.calculateMovingAverages
          (MovingAverageCalculator.new
             (MovingAverageCalculator.windowSizes self)) stockData).1.
Proof.
  intros Hws. split; [by apply calculateMovingAverages_agree|].
  apply calculateMovingAverages_agree.
  rewrite calculateMovingAverages_sizes.
  unfold MovingAverageCalculator.new. by destruct (reset_spec
    (MovingAverageCalculator.Make (MovingAverageCalculator.windowSizes self) ∅ ∅)).
Qed.

Lemma calculateMovingAverages_forgets_earlier_runs_witness :
  (MovingAverageCalculator.calculateMovingAverages
     (MovingAverageCalculator.calculateMovingAverages
        (MovingAverageCalculator.new [2; 3]) (map bar [7; 9; 4]%Q)).2
     (map bar [1; 2]%Q)).1
  = (MovingAverageCalculator.calculateMovingAverages
       (MovingAverageCalculator.new
          (MovingAverageCalculator.windowSizes
             (MovingAverageCalculator.new [2; 3]))) (map bar [1; 2]%Q)).1.
Proof.
  apply (calculateMovingAverages_forgets_earlier_runs
           (MovingAverageCalculator.new [2; 3])
           (MovingAverageCalculator.new [2; 3])
           (map bar [7; 9; 4]%Q) (map bar [1; 2]%Q)).
  reflexivity.
Defined.

(** X7.  The record built for bar [i] carries the date of bar [i], and it has
    the property [ma<w>] exactly for the configured window sizes [w]: with
    sizes other than 5, 10 and 20 the fields [ma5], [ma10] and [ma20] are
    absent. *)
Theorem calculateMovingAverages_record_shape
    (self : MovingAverageCalculator.t) (stockData : list StockData) :
  let result := (MovingAverageCalculator.calculateMovingAverages self stockData).1 in
  length result = length stockData
  /\ forall i d, stockData !! i = Some d ->
       exists r, result !! i = Some r
         /\ ma_date r = date d
         /\ forall w, is_Some (ma r !! w)
                      <-> w ∈ MovingAverageCalculator.windowSizes self.
Proof.
  cbv zeta. rewrite calculateMovingAverages_run. simpl.
  destruct (data_fold_shape stockData (MovingAverageCalculator.reset self) [])
    as (H1 & _ & H3).
  split; [exact H1|]. intros i d Hd.
  destruct (H3 i d Hd) as (r & Hr & Hdate & Hk). exists r.
  split; [exact Hr|]. split; [done|]. intros w. rewrite Hk.
  by destruct (reset_spec self) as [-> _].
Qed.

Lemma calculateMovingAverages_record_shape_witness :
  exists r,
    (MovingAverageCalculator.calculateMovingAverages
       (MovingAverageCalculator.new [3]) (map bar [7; 9]%Q)).1 !! 1 = Some r
    /\ ma_date r = date (bar 9)
    /\ forall w, is_Some (ma r !! w)
                 <-> w ∈ MovingAverageCalculator.windowSizes
                           (MovingAverageCalculator.new [3]).
Proof.
  destruct (calculateMovingAverages_record_shape
              (MovingAverageCalculator.new [3]) (map bar [7; 9]%Q)) as [_ H].
  apply (H 1 (bar 9)). reflexivity.
Defined.

(** X8.  A window size of 0 gives [NaN] in every record: the queue is
    emptied at once and the average is [0 / 0]. *)
Theorem calculateMovingAverages_zero_window_is_NaN
    (self : MovingAverageCalculator.t) (stockData : list StockData) :
  NoDup (MovingAverageCalculator.windowSizes self) ->
  0 ∈ MovingAverageCalculator.windowSizes self ->
  forall i r,
    (MovingAverageCalculator.calculateMovingAverages self stockData).1 !! i
      = Some r ->
    ma r !! 0 = Some NaN.
Proof.
  intros Hnd H0 i r Hr. rewrite calculateMovingAverages_run in Hr. simpl in Hr.
  destruct (trace_inv self stockData 0 Hnd H0) as (_ & _ & Hres).
  destruct (Hres i) as (rec & Hrec & Hm).
  { apply lookup_lt_Some in Hr.
    destruct (data_fold_shape stockData (MovingAverageCalculator.reset self) [])
      as (Hlen & _). simpl in Hlen. lia. }
  assert (rec = r) as -> by congruence.
  rewrite Hm. f_equal.
  destruct (window_trace_zero (take (S i) (map close stockData))) as [-> Hs].
  unfold average_of, js_div. simpl.
  by rewrite Hs.
Qed.

Lemma calculateMovingAverages_zero_window_is_NaN_witness :
  exists r,
    (MovingAverageCalculator.calculateMovingAverages
       (MovingAverageCalculator.new [0; 5]) (map bar [7; 9]%Q)).1 !! 1 = Some r
    /\ ma r !! 0 = Some NaN.
Proof.
  destruct (calculateMovingAverages_lookup
              (MovingAverageCalculator.new [0; 5]) (map bar [7; 9]%Q)
              1 (bar 9) 5)
    as (r & _ & Hr & _).
  - by apply (bool_decide_unpack _).
  - by apply (bool_decide_unpack _).
  - lia.
  - reflexivity.
  - exists r. split; [exact Hr|].
    apply (calculateMovingAverages_zero_window_is_NaN
             (MovingAverageCalculator.new [0; 5]) (map bar [7; 9]%Q)
             ltac:(by apply (bool_decide_unpack _))
             ltac:(by apply (bool_decide_unpack _)) 1 r Hr).
Defined.

(** ** The simulated sentiment *)

Section SentimentSimulationProofs.
Import SentimentSimulation.
Local Open Scope R_scope.

Lemma samples_from_length random : forall rest previous k,
  length (samples_from random previous k rest) = length rest.
Proof. induction rest as [|d rest IH]; intros; simpl; [done|by rewrite IH]. Qed.

Lemma samples_from_lookup random : forall rest previous k i d,
  rest !! i = Some d ->
  samples_from random previous k rest !! i =
  Some (sample random
          (match i with O => previous | S j => rest !! j end) (k + i) d).
Proof.
  induction rest as [|d0 rest IH]; intros previous k [|i] d Hd;
    simpl in *; try discriminate.
  - inversion Hd; subst. by rewrite Nat.add_0_r.
  - rewrite (IH _ _ _ _ Hd). rewrite Nat.add_succ_r. simpl.
    by destruct i.
Qed.

Lemma analyzeSentiment_lookup random stockData i d :
  stockData !! i = Some d ->
  analyzeSentiment random stockData !! i =
  Some (sample random
          (match i with O => None | S j => stockData !! j end) i d).
Proof. intros Hd. unfold analyzeSentiment. by rewrite (samples_from_lookup _ _ _ _ _ _ Hd). Qed.

Lemma analyzeSentiment_lookup_inv random stockData i s :
  analyzeSentiment random stockData !! i = Some s ->
  exists d, stockData !! i = Some d
    /\ s = sample random
             (match i with O => None | S j => stockData !! j end) i d.
Proof.
  intros Hs. destruct (stockData !! i) as [d|] eqn:Hd.
  - exists d. split; [done|].
    rewrite (analyzeSentiment_lookup _ _ _ _ Hd) in Hs. congruence.
  - apply lookup_ge_None in Hd. apply lookup_lt_Some in Hs.
    unfold analyzeSentiment in Hs. rewrite samples_from_length in Hs. lia.
Qed.

Lemma volume_bounds r :
  0 <= r < 1 -> (100 <= Int_part (100 + r * 900) <= 999)%Z.
Proof.
  intros Hr. destruct (base_Int_part (100 + r * 900)) as [Hlo Hhi].
  split.
  - assert (H : (99 < Int_part (100 + r * 900))%Z) by (apply lt_IZR; lra). lia.
  - assert (H : (Int_part (100 + r * 900) < 1000)%Z) by (apply lt_IZR; lra). lia.
Qed.

Lemma clamp_bounds x : -1 <= Rmax (-1) (Rmin 1 x) <= 1.
Proof.
  split; [apply Rmax_l|].
  apply Rmax_lub; [lra|apply Rmin_l].
Qed.

Lemma clamp_id x : -1 <= x <= 1 -> Rmax (-1) (Rmin 1 x) = x.
Proof. intros Hx. rewrite Rmin_right by lra. apply Rmax_right. lra. Qed.

Lemma tanh_0 : tanh 0 = 0.
Proof. unfold tanh. rewrite sinh_0, cosh_0. field. Qed.

(** The base sentiment is [NaN] for 0/0 only. *)
Lemma tanh_js_None a b :
  tanh_js (js_over (js_times (js_div a b) 100) 5) = None
  <-> (a == 0)%Q /\ (b == 0)%Q.
Proof.
  unfold js_div. destruct (Qeq_bool b 0) eqn:Hb.
  - apply Qeq_bool_iff in Hb.
    destruct (a ?= 0)%Q eqn:Ha; simpl.
    + apply Qeq_alt in Ha. done.
    + split; [done|]. intros [H _]. apply Qeq_alt in H. congruence.
    + split; [done|]. intros [H _]. apply Qeq_alt in H. congruence.
  - simpl. split; [done|]. intros [_ H]. apply Qeq_bool_iff in H. congruence.
Qed.

Lemma sample_score_None random previous i d :
  sample_score (sample random previous i d) = None
  <-> exists p, previous = Some p /\ (close d == 0)%Q /\ (close p == 0)%Q.
Proof.
  unfold sample. cbn [sample_score]. rewrite fmap_None.
  destruct previous as [p|].
  - rewrite tanh_js_None. split.
    + intros [H1 H2]. exists p. split; [done|]. split; [|done].
      rewrite H2 in H1. rewrite <- H1. ring.
    + intros (p' & [= <-] & H1 & H2). split; [|done]. rewrite H1, H2. ring.
  - simpl. split; [done|]. by intros (p & ? & _).
Qed.

(** On rational scores the correlation of samples is the correlation of
    the records. *)
Lemma simulated_correlation_rational sentimentData stockData :
  calculateSentimentSpanCorrelation (map sample_of sentimentData) stockData
  = SentimentAnalyzer.calculateSentimentSpanCorrelation sentimentData stockData.
Proof.
  unfold calculateSentimentSpanCorrelation,
    SentimentAnalyzer.calculateSentimentSpanCorrelation.
  rewrite length_map.
  assert (Hm : mapM sample_score (map sample_of sentimentData)
               = Some (map (fun s => Q2R (score s)) sentimentData)).
  { apply mapM_Some. apply Forall2_fmap_l, Forall2_fmap_r.
    by apply Forall_Forall2_diag, Forall_true. }
  by rewrite Hm.
Qed.

Lemma score_None_flat_zero random stockData i s :
  analyzeSentiment random stockData !! i = Some s ->
  sample_score s = None <-> flat_zero stockData i.
Proof.
  intros Hs.
  destruct (analyzeSentiment_lookup_inv _ _ _ _ Hs) as (d & Hd & ->).
  rewrite sample_score_None. unfold flat_zero. split.
  - intros (p & Hp & H1 & H2). destruct i as [|j]; [done|].
    exists j, d, p. done.
  - intros (j & d' & p & -> & Hd' & Hp & H1 & H2).
    exists p. assert (d' = d) as -> by congruence. done.
Qed.

End SentimentSimulationProofs.

Section SentimentExtras.
Import SentimentSimulation.
Local Open Scope R_scope.

Lemma tanh_sign x : (0 <= x -> 0 <= tanh x) /\ (x <= 0 -> tanh x <= 0).
Proof.
  assert (Hc : 0 < cosh x).
  { unfold cosh. pose proof (exp_pos x). pose proof (exp_pos (- x)). lra. }
  unfold tanh. split; intros Hx.
  - assert (0 <= sinh x).
    { unfold sinh. destruct (Req_dec_T x 0) as [->|Hne].
      - rewrite Ropp_0. lra.
      - assert (exp (- x) < exp x) by (apply exp_increasing; lra). lra. }
    apply Rmult_le_pos; [done|]. left. by apply Rinv_0_lt_compat.
  - assert (sinh x <= 0).
    { unfold sinh. destruct (Req_dec_T x 0) as [->|Hne].
      - rewrite Ropp_0. lra.
      - assert (exp x < exp (- x)) by (apply exp_increasing; lra). lra. }
    assert (0 < / cosh x) by (by apply Rinv_0_lt_compat).
    unfold Rdiv. nra.
Qed.

Lemma clamp_mono x y :
  x <= y -> Rmax (-1) (Rmin 1 x) <= Rmax (-1) (Rmin 1 y).
Proof.
  intros H. apply Rle_max_compat_l. apply Rmin_glb; [apply Rmin_l|].
  etrans; [apply Rmin_r|done].
Qed.

Lemma noise_bounds r :
  0 <= r < 1 -> - (2 / 10) <= (r - 5 / 10) * (4 / 10) < 2 / 10.
Proof. intros Hr. lra. Qed.

(** X12. Under [Math.random] in [[0, 1)], [analyzeSentiment] returns one
    record per bar, with the date of the bar, a confidence from 0.6 to 1, an
    integer volume from 100 to 999 (1000 is never reached), and a score that,
    when it is a number, lies in [[-1, 1]]. *)
Theorem analyzeSentiment_ranges (random : nat -> R)
    (stockData : list StockData) :
  unit_interval random ->
  length (analyzeSentiment random stockData) = length stockData
  /\ forall i s, analyzeSentiment random stockData !! i = Some s ->
       date <$> stockData !! i = Some (sample_date s)
       /\ 6 / 10 <= sample_confidence s <= 1
       /\ (100 <= sample_volume s <= 999)%Z
       /\ forall v, sample_score s = Some v -> -1 <= v <= 1.
Proof.
  intros Hr. split; [apply samples_from_length|].
  intros i s Hs.
  destruct (analyzeSentiment_lookup_inv _ _ _ _ Hs) as (d & Hd & ->).
  rewrite Hd. unfold sample.
  cbn [sample_date sample_confidence sample_volume sample_score].
  split; [done|]. split; [|split].
  - pose proof (Hr (3 * i + 1)%nat). lra.
  - apply volume_bounds, Hr.
  - intros v Hv. apply fmap_Some in Hv as (b & _ & ->). apply clamp_bounds.
Qed.

Lemma analyzeSentiment_ranges_witness :
  length (analyzeSentiment (fun _ => 1 / 2) [bar 5; bar 6]) = 2%nat.
Proof.
  refine (proj1 (analyzeSentiment_ranges (fun _ => 1 / 2) [bar 5; bar 6] _)).
  intros k. lra.
Defined.

(** X13. The simulated score of a bar is [NaN] exactly when the bar and the
    bar before it both close at 0 (the relative change is then 0/0); the
    score of the first bar is always a number. *)
Theorem analyzeSentiment_score_NaN (random : nat -> R)
    (stockData : list StockData) (i : nat) (s : SentimentSample) :
  analyzeSentiment random stockData !! i = Some s ->
  sample_score s = None <-> flat_zero stockData i.
Proof. apply score_None_flat_zero. Qed.

Lemma analyzeSentiment_score_NaN_witness :
  exists s,
    analyzeSentiment (fun _ => 1 / 2) [bar 0; bar 0] !! 1%nat = Some s
    /\ sample_score s = None.
Proof.
  eexists. split; [reflexivity|].
  apply (analyzeSentiment_score_NaN (fun _ => 1 / 2) [bar 0; bar 0] 1 _
           eq_refl).
  exists 0%nat, (bar 0), (bar 0). done.
Defined.

(** X14. The score follows the direction of the price: after a positive
    close, a bar that does not close lower has a score at least equal to its
    noise term [(random - 0.5) * 0.4], a bar that does not close higher has a
    score at most equal to it, and an unchanged close gives the noise itself;
    so does the first bar.  The noise lies in [[-0.2, 0.2)]. *)
Theorem analyzeSentiment_follows_price (random : nat -> R)
    (stockData : list StockData) (i : nat) (d : StockData)
    (s : SentimentSample) :
  unit_interval random ->
  stockData !! i = Some d ->
  analyzeSentiment random stockData !! i = Some s ->
  let noise := (random (3 * i)%nat - 5 / 10) * (4 / 10) in
  - (2 / 10) <= noise < 2 / 10
  /\ (i = 0%nat -> sample_score s = Some noise)
  /\ forall j p, i = S j -> stockData !! j = Some p -> (0 < close p)%Q ->
       exists v, sample_score s = Some v
         /\ ((close p <= close d)%Q -> noise <= v)
         /\ ((close d <= close p)%Q -> v <= noise).
Proof.
  intros Hr Hd Hs noise.
  pose proof (noise_bounds _ (Hr (3 * i)%nat)) as Hn. fold noise in Hn.
  rewrite (analyzeSentiment_lookup _ _ _ _ Hd) in Hs.
  injection Hs as <-.
  split; [done|]. split.
  - intros ->. unfold sample. cbn [sample_score js_over tanh_js fmap option_fmap option_map].
    f_equal.
    replace (Q2R (0 / 5)) with 0
      by (symmetry; rewrite <- RMicromega.Q2R_0; apply Qeq_eqR; reflexivity).
    rewrite tanh_0, Rplus_0_l. apply clamp_id. fold noise. lra.
  - intros j p -> Hp Hpos. rewrite Hp. unfold sample.
    cbn [sample_score]. unfold js_div.
    destruct (Qeq_bool (close p) 0) eqn:Hz.
    { apply Qeq_bool_iff in Hz. rewrite Hz in Hpos.
      by apply Qlt_irrefl in Hpos. }
    cbn [js_times js_over tanh_js fmap option_fmap option_map].
    fold noise.
    set (q := ((close d - close p) / close p * 100 / 5)%Q).
    eexists. split; [reflexivity|].
    rewrite <- (clamp_id noise) at 1 4 by lra.
    assert (Hinv : (0 < / close p)%Q) by (by apply Qinv_lt_0_compat).
    split; intros Hle; apply clamp_mono.
    + assert (Hq : (0 <= q)%Q).
      { unfold q, Qdiv. repeat apply Qmult_le_0_compat; try done.
        * rewrite <- (Qplus_opp_r (close p)).
          apply Qplus_le_compat; [done|apply Qle_refl].
        * by apply Qlt_le_weak. }
      apply Qle_Rle in Hq. rewrite RMicromega.Q2R_0 in Hq.
      pose proof (proj1 (tanh_sign (Q2R q)) Hq). lra.
    + assert (Hq : (q <= 0)%Q).
      { assert (Hq' : (0 <= - q)%Q).
        { assert (Heq : (- q == (close p - close d) / close p * 100 / 5)%Q)
            by (unfold q; field; intros H0; rewrite H0 in Hpos;
                by apply Qlt_irrefl in Hpos).
          rewrite Heq. unfold Qdiv.
          repeat apply Qmult_le_0_compat; try done.
          * rewrite <- (Qplus_opp_r (close d)).
            apply Qplus_le_compat; [done|apply Qle_refl].
          * by apply Qlt_le_weak. }
        apply Qopp_le_compat in Hq'. by rewrite Qopp_opp in Hq'. }
      apply Qle_Rle in Hq. rewrite RMicromega.Q2R_0 in Hq.
      pose proof (proj2 (tanh_sign (Q2R q)) Hq). lra.
Qed.

Lemma analyzeSentiment_follows_price_witness :
  exists v,
    sample_score (sample (fun _ => 1 / 2) (Some (bar 5)) 1 (bar 6)) = Some v
    /\ ((fun _ : nat => 1 / 2) (3 * 1)%nat - 5 / 10) * (4 / 10) <= v.
Proof.
  destruct (analyzeSentiment_follows_price (fun _ => 1 / 2) [bar 5; bar 6]
              1 (bar 6) (sample (fun _ => 1 / 2) (Some (bar 5)) 1 (bar 6))
              ltac:(intros k; lra) eq_refl eq_refl) as (_ & _ & H).
  destruct (H 0%nat (bar 5) eq_refl eq_refl ltac:(done))
    as (v & Hv & Hup & _).
  exists v. split; [exact Hv|]. apply Hup. done.
Defined.

End SentimentExtras.

(** ** The pipeline of [App.tsx] *)

Section AppProofs.
Import SentimentSimulation.
Local Open Scope R_scope.

Lemma calculateSpanForStockData_length self stockData :
  length (StockSpanCalculator.calculateSpanForStockData self stockData).1
  = length stockData.
Proof.
  unfold StockSpanCalculator.calculateSpanForStockData.
  destruct (StockSpanCalculator.calculateSpan self (map close stockData)).
  simpl. apply length_imap.
Qed.

Lemma span_spec_bounds closes i c :
  closes !! i = Some c -> (1 <= span_spec closes i <= i + 1)%nat.
Proof.
  intros Hc. rewrite (span_spec_run _ _ _ Hc).
  pose proof (run_le c (rev (take i closes))) as Hle.
  rewrite length_rev, length_take in Hle. lia.
Qed.

Lemma flat_zero_length stockData i :
  flat_zero stockData i -> (2 <= length stockData)%nat.
Proof.
  intros (j & d & p & -> & Hd & _). apply lookup_lt_Some in Hd. lia.
Qed.

(** A score that is [NaN] makes the correlation [NaN], once the two guards
    are passed; the guards give 0. *)
Lemma simulated_correlation_NaN sentimentData stockData :
  length sentimentData = length stockData ->
  (2 <= length stockData)%nat ->
  Exists (fun s => sample_score s = None) sentimentData ->
  calculateSentimentSpanCorrelation sentimentData stockData = None.
Proof.
  intros Hlen Hn Hex. unfold calculateSentimentSpanCorrelation.
  rewrite Hlen, Nat.eqb_refl. simpl.
  destruct (length stockData <? 2)%nat eqn:Hlt;
    [apply Nat.ltb_lt in Hlt; lia|].
  apply mapM_None in Hex. by rewrite Hex.
Qed.

Lemma simulated_correlation_short sentimentData stockData :
  (length sentimentData < 2)%nat ->
  calculateSentimentSpanCorrelation sentimentData stockData = Some 0.
Proof.
  intros Hn. unfold calculateSentimentSpanCorrelation.
  apply Nat.ltb_lt in Hn. rewrite Hn. by rewrite orb_true_r.
Qed.

Lemma processStockData_length random stockData :
  length (App.stockData (App.processStockData random stockData))
  = length stockData.
Proof. apply calculateSpanForStockData_length. Qed.

(** X15. [processStockData] returns four aligned results: the annotated
    bars, the moving averages and the sentiment records have the length of
    the input, and at every index they carry the date of the input bar; the
    annotated bar keeps the close and has a span between 1 and its position;
    the record of averages defines the 5-, 10- and 20-day averages. *)
Theorem processStockData_aligned (random : nat -> R)
    (stockData : list StockData) :
  let result := App.processStockData random stockData in
  length (App.stockData result) = length stockData
  /\ length (App.movingAverages result) = length stockData
  /\ length (App.sentimentData result) = length stockData
  /\ forall i d, stockData !! i = Some d ->
       exists b r s k,
         App.stockData result !! i = Some b
         /\ App.movingAverages result !! i = Some r
         /\ App.sentimentData result !! i = Some s
         /\ date b = date d /\ ma_date r = date d /\ sample_date s = date d
         /\ close b = close d
         /\ span b = Some (Z.of_nat k) /\ (1 <= k <= i + 1)%nat
         /\ is_Some (ma5 r) /\ is_Some (ma10 r) /\ is_Some (ma20 r).
Proof.
  set (calc := MovingAverageCalculator.new
                 MovingAverageCalculator.defaultWindowSizes).
  assert (Hws : MovingAverageCalculator.windowSizes calc
                = MovingAverageCalculator.defaultWindowSizes) by reflexivity.
  destruct (default_sizes_ok calc Hws) as (Hnd & H5 & _).
  cbn [App.processStockData App.stockData App.movingAverages
       App.sentimentData]. fold calc.
  split; [apply calculateSpanForStockData_length|].
  split; [by apply calculateMovingAverages_length|].
  split; [apply samples_from_length|].
  intros i d Hd.
  destruct (pipeline_record calc stockData i d Hws Hd)
    as (r & a & b & c & Hr & Ha & Hb & Hc & _).
  assert (Hc' : map close stockData !! i = Some (close d))
    by (by rewrite list_lookup_fmap, Hd).
  destruct (span_spec_bounds (map close stockData) i (close d) Hc')
    as [Hk1 Hk2].
  eexists _, r, _, (span_spec (map close stockData) i).
  split; [by apply calculateSpanForStockData_lookup|].
  split; [done|].
  split; [by apply analyzeSentiment_lookup|].
  assert (Hdate : ma_date r = date d).
  { destruct (calculateMovingAverages_lookup calc stockData i d 5 Hnd H5
                ltac:(lia) Hd) as (r' & v & Hr' & Hdt & _).
    congruence. }
  rewrite Ha, Hb, Hc. repeat split; eauto.
Qed.

(** X16. When two consecutive bars of the input both close at 0, the
    correlation computed by [processStockData] is [NaN], whatever
    [Math.random] returns: the score of the second of them is [NaN] and every
    sum of [pearsonCorrelation] with it.  With fewer than two bars the
    correlation is 0. *)
Theorem processStockData_correlation (random : nat -> R)
    (stockData : list StockData) :
  let result := App.processStockData random stockData in
  ((exists i, flat_zero stockData i) -> App.correlationScore result = None)
  /\ ((length stockData < 2)%nat -> App.correlationScore result = Some 0).
Proof.
  cbn [App.processStockData App.correlationScore].
  set (sd := analyzeSentiment random stockData).
  set (bars := (StockSpanCalculator.calculateSpanForStockData
                  (StockSpanCalculator.Make []) stockData).1).
  assert (Hsd : length sd = length stockData).
  { unfold sd, analyzeSentiment. by rewrite samples_from_length. }
  assert (Hbars : length bars = length stockData).
  { unfold bars. apply calculateSpanForStockData_length. }
  split.
  - intros [i Hi]. apply simulated_correlation_NaN.
    + by rewrite Hsd, Hbars.
    + rewrite Hbars. by eapply flat_zero_length.
    + pose proof Hi as (j & d & p & -> & Hd & _).
      apply Exists_exists.
      exists (sample random (stockData !! j) (S j) d). split.
      * apply list_elem_of_lookup. exists (S j).
        by apply (analyzeSentiment_lookup random stockData (S j) d).
      * eapply score_None_flat_zero; [|exact Hi].
        by apply (analyzeSentiment_lookup random stockData (S j) d).
  - intros Hn. apply simulated_correlation_short. by rewrite Hsd.
Qed.

Lemma processStockData_correlation_witness :
  App.correlationScore (App.processStockData (fun _ => 0) [bar 0; bar 0])
  = None.
Proof.
  apply (proj1 (processStockData_correlation (fun _ => 0) [bar 0; bar 0])).
  exists 1%nat, 0%nat, (bar 0), (bar 0). done.
Defined.

(** The bars of the result, one by one. *)
Lemma processStockData_bar random stockData i d :
  stockData !! i = Some d ->
  App.stockData (App.processStockData random stockData) !! i
  = Some (with_span d (Some (Z.of_nat (span_spec (map close stockData) i)))).
Proof. apply calculateSpanForStockData_lookup. Qed.

Lemma processStockData_spans random stockData x :
  x ∈ App.stockData (App.processStockData random stockData) ->
  (1 <= span_or_0 x <= Z.of_nat (length stockData))%Z.
Proof.
  intros Hx. apply list_elem_of_lookup in Hx as [i Hi].
  assert (Hlt : (i < length stockData)%nat).
  { apply lookup_lt_Some in Hi.
    by rewrite processStockData_length in Hi. }
  destruct (lookup_lt_is_Some_2 _ _ Hlt) as [d Hd].
  rewrite (processStockData_bar _ _ _ _ Hd) in Hi. injection Hi as <-.
  assert (Hc : map close stockData !! i = Some (close d))
    by (by rewrite list_lookup_fmap, Hd).
  pose proof (span_spec_bounds _ _ _ Hc). 
  unfold span_or_0, with_span. simpl. lia.
Qed.

Lemma fold_max_spec xs : forall x : Z,
  (x <= fold_left Z.max xs x)%Z
  /\ (forall y, y ∈ xs -> (y <= fold_left Z.max xs x)%Z)
  /\ (fold_left Z.max xs x = x \/ fold_left Z.max xs x ∈ xs).
Proof.
  induction xs as [|a xs IH]; intros x; simpl.
  - split; [lia|]. split; [|by left]. intros y Hy. by apply elem_of_nil in Hy.
  - destruct (IH (Z.max x a)) as (H1 & H2 & H3). split; [lia|]. split.
    + intros y Hy. apply elem_of_cons in Hy as [->|Hy]; [lia|auto].
    + destruct H3 as [H3|H3].
      * rewrite H3. destruct (Z.max_spec x a) as [[_ Hm]|[_ Hm]]; rewrite Hm.
        -- right. apply list_elem_of_here.
        -- by left.
      * right. by apply list_elem_of_further.
Qed.

Lemma maxSpan_spec d ds :
  (forall x, x ∈ d :: ds -> (span_or_0 x <= StockChart.maxSpan d ds)%Z)
  /\ exists x, x ∈ d :: ds /\ StockChart.maxSpan d ds = span_or_0 x.
Proof.
  unfold StockChart.maxSpan.
  destruct (fold_max_spec (map span_or_0 ds) (span_or_0 d)) as (H1 & H2 & H3).
  split.
  - intros x Hx. apply elem_of_cons in Hx as [->|Hx]; [done|].
    apply H2, list_elem_of_fmap. eauto.
  - destruct H3 as [H3|H3].
    + exists d. split; [apply list_elem_of_here|done].
    + apply list_elem_of_fmap in H3 as (x & Hx & Hin).
      exists x. split; [by apply list_elem_of_further|done].
Qed.

Lemma fold_sum_bounds (lo hi : Z) (l : list StockData) : forall acc,
  (forall x, x ∈ l -> (lo <= span_or_0 x <= hi)%Z) ->
  (acc + Z.of_nat (length l) * lo
   <= fold_left (fun sum data => sum + span_or_0 data) l acc
   <= acc + Z.of_nat (length l) * hi)%Z.
Proof.
  induction l as [|a l IH]; intros acc Hall; cbn [fold_left length].
  { change (Z.of_nat 0) with 0%Z. lia. }
  rewrite Nat2Z.inj_succ, !Z.mul_succ_l.
  assert (Ha : (lo <= span_or_0 a <= hi)%Z)
    by apply Hall, list_elem_of_here.
  assert (Hl : forall x, x ∈ l -> (lo <= span_or_0 x <= hi)%Z)
    by (intros x Hx; by apply Hall, list_elem_of_further).
  specialize (IH (acc + span_or_0 a)%Z Hl). lia.
Qed.

Lemma js_div_ratio (a b : Z) :
  (0 < b)%Z ->
  js_div (inject_Z a) (inject_Z b) = Fin (inject_Z a / inject_Z b).
Proof.
  intros Hb. unfold js_div.
  destruct (Qeq_bool (inject_Z b) 0) eqn:E; [|done].
  apply Qeq_bool_iff in E. unfold Qeq in E. simpl in E. lia.
Qed.

Lemma ratio_bounds (lo a hi b : Z) :
  (0 < b)%Z -> (b * lo <= a <= b * hi)%Z ->
  (inject_Z lo <= inject_Z a / inject_Z b <= inject_Z hi)%Q.
Proof.
  intros Hb [Hlo Hhi].
  assert (HbQ : (0 < inject_Z b)%Q)
    by (change 0%Q with (inject_Z 0); by rewrite <- Zlt_Qlt).
  split.
  - apply Qle_shift_div_l; [done|].
    rewrite <- inject_Z_mult, <- Zle_Qle. lia.
  - apply Qle_shift_div_r; [done|].
    rewrite <- inject_Z_mult, <- Zle_Qle. lia.
Qed.

End AppProofs.

Section DisplayExtras.
Import ConversationalAI.

(** X27. In the chat tab, after an analysis of a non-empty series, the
    answer about the current span reports the span of the latest bar as the
    span engine computed it, a number between 1 and the number of bars: the
    fallback to 0 is never taken. *)
Theorem handleCurrentSpanQuery_after_analysis (random : nat -> R)
    (stockData : list StockData) :
  stockData <> [] ->
  let self := App.assistant (App.processStockData random stockData) in
  let k := span_spec (map close stockData) (length stockData - 1) in
  1 <= k <= length stockData
  /\ handleCurrentSpanQuery self =
     "The current stock span is " +:+ show_int (Z.of_nat k) +:+ " days."
     +:+ (if 10 <? k then " This indicates a strong bullish trend!"
          else if 5 <? k then " This shows moderate bullish momentum."
          else if k <=? 2
               then " This suggests bearish pressure or consolidation."
               else " This indicates neutral market sentiment.").
Proof.
  intros Hne self k.
  assert (Hn : 0 < length stockData) by (destruct stockData; simpl; [done|lia]).
  destruct (lookup_lt_is_Some_2 stockData (length stockData - 1))
    as [d Hd]; [lia|].
  assert (Hc : map close stockData !! (length stockData - 1)
               = Some (close d)) by (by rewrite list_lookup_fmap, Hd).
  pose proof (span_spec_bounds _ _ _ Hc) as Hk. fold k in Hk.
  split; [lia|].
  unfold handleCurrentSpanQuery, self, App.assistant, updateData.
  cbn [ConversationalAI.stockData].
  rewrite last_lookup, processStockData_length.
  replace (Init.Nat.pred (length stockData)) with (length stockData - 1)
    by lia.
  rewrite (processStockData_bar _ _ _ _ Hd). fold k.
  change (span_or_0 (with_span d (Some (Z.of_nat k)))) with (Z.of_nat k).
  replace (10 <? Z.of_nat k)%Z with (10 <? k)
    by (destruct (10 <? k) eqn:E;
        [apply Nat.ltb_lt in E|apply Nat.ltb_ge in E];
        symmetry; [apply Z.ltb_lt|apply Z.ltb_ge]; lia).
  replace (5 <? Z.of_nat k)%Z with (5 <? k)
    by (destruct (5 <? k) eqn:E;
        [apply Nat.ltb_lt in E|apply Nat.ltb_ge in E];
        symmetry; [apply Z.ltb_lt|apply Z.ltb_ge]; lia).
  replace (Z.of_nat k <=? 2)%Z with (k <=? 2)
    by (destruct (k <=? 2) eqn:E;
        [apply Nat.leb_le in E|apply Nat.leb_gt in E];
        symmetry; [apply Z.leb_le|apply Z.leb_gt]; lia).
  reflexivity.
Qed.

Lemma handleCurrentSpanQuery_after_analysis_witness :
  handleCurrentSpanQuery
    (App.assistant (App.processStockData (fun _ => 0%R) [bar 1; bar 2; bar 3]))
  = "The current stock span is 3 days. This indicates neutral market sentiment.".
Proof.
  refine (proj2 (handleCurrentSpanQuery_after_analysis (fun _ => 0%R)
                   [bar 1; bar 2; bar 3] _)).
  done.
Defined.

(** X28. The price change shown among the key metrics compares the latest
    bar with itself: it is 0 whatever the earlier bars are, and [NaN] when
    the latest close is 0 and there are at least two bars. *)
Theorem priceChange_compares_latest_with_itself
    (stockData : list StockData) (latest : StockData) :
  last stockData = Some latest ->
  exists x,
    AnalysisResults.priceChange stockData = Some x
    /\ (length stockData = 1 -> x = Fin 0)
    /\ (1 < length stockData -> ~ (close latest == 0)%Q ->
        exists q, x = Fin q /\ (q == 0)%Q)
    /\ (1 < length stockData -> (close latest == 0)%Q -> x = NaN).
Proof.
  intros Hl. unfold AnalysisResults.priceChange. rewrite Hl.
  eexists. split; [reflexivity|].
  assert (Hprev : stockData !! (length stockData - 1) = Some latest).
  { rewrite last_lookup in Hl.
    by replace (length stockData - 1) with (Init.Nat.pred (length stockData))
      by lia. }
  split; [|split].
  - intros ->. reflexivity.
  - intros Hn Hz. apply Nat.ltb_lt in Hn. rewrite Hn, Hprev.
    unfold js_div.
    destruct (Qeq_bool (close latest) 0) eqn:E;
      [by apply Qeq_bool_iff in E|].
    eexists. split; [reflexivity|]. field. done.
  - intros Hn Hz. apply Nat.ltb_lt in Hn. rewrite Hn, Hprev.
    unfold js_div. rewrite (proj2 (Qeq_bool_iff _ _) Hz).
    assert (Hd : (close latest - close latest == 0)%Q) by ring.
    apply Qeq_alt in Hd. by rewrite Hd.
Qed.

Lemma priceChange_compares_latest_with_itself_witness :
  exists x, AnalysisResults.priceChange [bar 100; bar 150] = Some x
    /\ exists q, x = Fin q /\ (q == 0)%Q.
Proof.
  destruct (priceChange_compares_latest_with_itself [bar 100; bar 150]
              (bar 150) eq_refl) as (x & Hx & _ & H & _).
  exists x. split; [exact Hx|]. apply H; [simpl; lia|].
  intros E. discriminate E.
Defined.

(** X29. The vertical position of a value in the price chart: when the
    highest high is above the lowest low, every value between them is drawn
    between 0 and 200, the highest high at 0 and the lowest low at 200; when
    all highs and lows are equal the position of that price is [NaN]. *)
Theorem getYPosition_range (d : StockData) (ds : list StockData) :
  let top := StockChart.maxPrice d ds in
  let bottom := StockChart.minPrice d ds in
  ((bottom < top)%Q ->
   forall value, (bottom <= value)%Q -> (value <= top)%Q ->
     exists y, StockChart.getYPosition d ds value = Fin y
       /\ (0 <= y)%Q /\ (y <= 200)%Q
       /\ ((value == top)%Q -> (y == 0)%Q)
       /\ ((value == bottom)%Q -> (y == 200)%Q))
  /\ ((top == bottom)%Q -> StockChart.getYPosition d ds top = NaN).
Proof.
  intros top bottom. unfold StockChart.getYPosition, StockChart.priceRange.
  fold top bottom. split.
  - intros Hlt value Hlo Hhi.
    assert (Hr : (0 < top - bottom)%Q).
    { rewrite <- (Qplus_opp_r bottom). by apply Qplus_lt_l. }
    assert (Hne : ~ (top - bottom == 0)%Q).
    { intros E. rewrite E in Hr. by apply Qlt_irrefl in Hr. }
    unfold js_div.
    destruct (Qeq_bool (top - bottom) 0) eqn:E;
      [by apply Qeq_bool_iff in E|].
    eexists. split; [reflexivity|].
    assert (Hnum : (0 <= top - value)%Q).
    { rewrite <- (Qplus_opp_r value). by apply Qplus_le_l. }
    assert (Hnum' : (top - value <= top - bottom)%Q).
    { apply Qplus_le_r. by apply Qopp_le_compat. }
    split; [|split; [|split]].
    + apply Qmult_le_0_compat; [|done].
      apply Qle_shift_div_l; [done|]. by rewrite Qmult_0_l.
    + assert (H1 : ((top - value) / (top - bottom) <= 1)%Q).
      { apply Qle_shift_div_r; [done|]. by rewrite Qmult_1_l. }
      assert (H200 : (200 == 1 * 200)%Q) by ring.
      rewrite H200 at 2. by apply Qmult_le_compat_r.
    + intros Hv. rewrite Hv. field. done.
    + intros Hv. rewrite Hv. field. done.
  - intros Heq. unfold js_div.
    assert (Hz : (top - bottom == 0)%Q) by (rewrite Heq; ring).
    rewrite (proj2 (Qeq_bool_iff _ _) Hz).
    assert (Hd : (top - top == 0)%Q) by ring.
    apply Qeq_alt in Hd. by rewrite Hd.
Qed.

Lemma getYPosition_range_witness :
  exists y,
    StockChart.getYPosition (mkStockData "2024-01-01" 2 3 1 2 0 None) [] 2
    = Fin y
    /\ (0 <= y)%Q /\ (y <= 200)%Q.
Proof.
  destruct (proj1 (getYPosition_range
                     (mkStockData "2024-01-01" 2 3 1 2 0 None) [])
              ltac:(done) 2%Q ltac:(done) ltac:(done))
    as (y & Hy & H0 & H200 & _).
  exists y. split; [exact Hy|]. split; [exact H0|exact H200].
Defined.

(** X30. The span figures shown after an analysis: the largest span is at
    least 1 and at most the number of bars, the bar of every span in the span
    chart has a height above 0 and at most 60, and the average span is a
    number between 1 and the largest span. *)
Theorem span_metrics_after_analysis (random : nat -> R)
    (stockData : list StockData) (b : StockData) (bs : list StockData) :
  App.stockData (App.processStockData random stockData) = b :: bs ->
  let top := StockChart.maxSpan b bs in
  (1 <= top <= Z.of_nat (length stockData))%Z
  /\ (forall x, x ∈ b :: bs ->
        exists h, StockChart.getSpanHeight b bs (span_or_0 x) = Fin h
          /\ (0 < h)%Q /\ (h <= 60)%Q)
  /\ exists a, AnalysisResults.avgSpan (b :: bs) = Fin a
       /\ (1 <= a)%Q /\ (a <= inject_Z top)%Q.
Proof.
  intros Hres top.
  assert (Hspans : forall x, x ∈ b :: bs ->
            (1 <= span_or_0 x <= Z.of_nat (length stockData))%Z).
  { intros x Hx. rewrite <- Hres in Hx.
    by apply processStockData_spans in Hx. }
  destruct (maxSpan_spec b bs) as (Hmax & xm & Hxm & Hm). fold top in Hmax, Hm.
  assert (Htop : (1 <= top <= Z.of_nat (length stockData))%Z).
  { rewrite Hm. by apply Hspans. }
  split; [done|]. split.
  - intros x Hx. unfold StockChart.getSpanHeight. fold top.
    rewrite js_div_ratio by lia. eexists. split; [reflexivity|].
    pose proof (Hspans x Hx) as Hs. pose proof (Hmax x Hx) as Hle.
    assert (HtQ : (0 < inject_Z top)%Q)
      by (change 0%Q with (inject_Z 0); rewrite <- Zlt_Qlt; lia).
    split.
    + apply Qmult_lt_0_compat; [|done].
      apply Qlt_shift_div_l; [done|]. rewrite Qmult_0_l.
      change 0%Q with (inject_Z 0). rewrite <- Zlt_Qlt. lia.
    + assert (H1 : (inject_Z (span_or_0 x) / inject_Z top <= 1)%Q).
      { apply Qle_shift_div_r; [done|]. rewrite Qmult_1_l.
        by rewrite <- Zle_Qle. }
      assert (H60 : (60 == 1 * 60)%Q) by ring.
      rewrite H60 at 2. by apply Qmult_le_compat_r.
  - unfold AnalysisResults.avgSpan, of_nat.
    assert (Hlen : (0 < Z.of_nat (length (b :: bs)))%Z) by (simpl; lia).
    rewrite js_div_ratio by done. eexists. split; [reflexivity|].
    pose proof (fold_sum_bounds 1 top (b :: bs) 0%Z) as Hsum.
    destruct Hsum as [Hlo Hhi].
    { intros x Hx. split; [by apply Hspans|by apply Hmax]. }
    apply (ratio_bounds 1 _ top); [done|]. lia.
Qed.

Lemma span_metrics_after_analysis_witness :
  (1 <= StockChart.maxSpan (with_span (bar 1) (Some 1%Z))
          [with_span (bar 2) (Some 2%Z)] <= 2)%Z.
Proof.
  refine (proj1 (span_metrics_after_analysis (fun _ => 0%R) [bar 1; bar 2]
                   (with_span (bar 1) (Some 1%Z))
                   [with_span (bar 2) (Some 2%Z)] _)).
  reflexivity.
Defined.

End DisplayExtras.

(** ** More on the router *)

Section NormalizationProofs.

Lemma lower_lower c : lower (lower c) = lower c.
Proof. destruct c as [[] [] [] [] [] [] [] []]; reflexivity. Qed.

Lemma is_space_lower c : is_space (lower c) = is_space c.
Proof. destruct c as [[] [] [] [] [] [] [] []]; reflexivity. Qed.

Lemma toLowerCase_idem s : toLowerCase (toLowerCase s) = toLowerCase s.
Proof. induction s as [|c s IH]; simpl; [done|]. by rewrite lower_lower, IH. Qed.

Lemma toLowerCase_trimStart s :
  toLowerCase (trimStart s) = trimStart (toLowerCase s).
Proof.
  induction s as [|c s IH]; simpl; [done|].
  rewrite is_space_lower. by destruct (is_space c).
Qed.

Lemma toLowerCase_trimEnd s :
  toLowerCase (trimEnd s) = trimEnd (toLowerCase s).
Proof.
  induction s as [|c s IH]; simpl; [done|].
  rewrite <- IH, is_space_lower.
  destruct (trimEnd s); simpl; [by destruct (is_space c)|done].
Qed.

Lemma toLowerCase_trim s : toLowerCase (trim s) = trim (toLowerCase s).
Proof. unfold trim. by rewrite toLowerCase_trimEnd, toLowerCase_trimStart. Qed.

Lemma trimEnd_idem s : trimEnd (trimEnd s) = trimEnd s.
Proof.
  induction s as [|c s IH]; simpl; [done|].
  destruct (trimEnd s) as [|x r] eqn:E.
  - destruct (is_space c) eqn:Hc; simpl; [done|]. by rewrite Hc.
  - simpl in *. by rewrite IH.
Qed.

(** What [trimStart] returns does not start with white space. *)
Lemma trimStart_head s :
  match trimStart s with
  | EmptyString => True
  | String c _ => is_space c = false
  end.
Proof.
  induction s as [|c s IH]; simpl; [done|].
  destruct (is_space c) eqn:Hc; [done|]. simpl. done.
Qed.

Lemma trimEnd_head s :
  match s with
  | EmptyString => True
  | String c _ => is_space c = false
  end ->
  match trimEnd s with
  | EmptyString => s = EmptyString
  | String c _ => is_space c = false
  end.
Proof.
  destruct s as [|c s]; simpl; [done|]. intros Hc.
  destruct (trimEnd s); by rewrite ?Hc.
Qed.

Lemma trimStart_fix s :
  match s with
  | EmptyString => True
  | String c _ => is_space c = false
  end -> trimStart s = s.
Proof. destruct s as [|c s]; simpl; [done|]. by intros ->. Qed.

Lemma trim_idem s : trim (trim s) = trim s.
Proof.
  unfold trim.
  rewrite (trimStart_fix (trimEnd (trimStart s))).
  - apply trimEnd_idem.
  - pose proof (trimEnd_head _ (trimStart_head s)) as H.
    by destruct (trimEnd (trimStart s)).
Qed.

Lemma normalize_trim s : trim (toLowerCase (trim s)) = trim (toLowerCase s).
Proof. by rewrite toLowerCase_trim, trim_idem. Qed.

Lemma normalize_lower s :
  trim (toLowerCase (toLowerCase s)) = trim (toLowerCase s).
Proof. by rewrite toLowerCase_idem. Qed.

End NormalizationProofs.

Section KeywordProofs.
Import Regex ConversationalAI.

Lemma chr_matches_refl c : chr_matches c c = true.
Proof. unfold chr_matches. apply Ascii.eqb_refl. Qed.

Lemma matches_Lit w : matches (Lit w) w.
Proof.
  induction w as [|c w IH]; simpl; [constructor|].
  destruct w as [|c' w].
  - constructor. apply chr_matches_refl.
  - change (String c (String c' w)) with (String c "" +:+ String c' w).
    constructor; [|done]. constructor. apply chr_matches_refl.
Qed.

Lemma prefix_split w : forall s,
  String.prefix w s = true -> exists v, s = w +:+ v.
Proof.
  induction w as [|c w IH]; intros s H.
  - exists s. done.
  - destruct s as [|x s]; simpl in H; [done|].
    destruct (ascii_dec c x) as [->|]; [|done].
    destruct (IH s H) as [v ->]. by exists v.
Qed.

Lemma includes_split w : forall s,
  includes s w = true -> exists p v, s = p +:+ w +:+ v.
Proof.
  induction s as [|x s IH]; cbn [includes]; intros H.
  - rewrite orb_false_r in H. apply prefix_split in H as [v Hv].
    exists "", v. done.
  - apply orb_true_iff in H as [H|H].
    + apply prefix_split in H as [v ->]. by exists "", v.
    + destruct (IH H) as (p & v & ->). by exists (String x p), v.
Qed.

(** A pattern that accepts the word [w] matches every string that includes
    [w]. *)
Lemma includes_test r w s :
  matches r w -> includes s w = true -> test r s = true.
Proof.
  intros Hr H. apply test_spec.
  destruct (includes_split _ _ H) as (p & v & ->). by exists p, w, v.
Qed.

(** The intent found is that of the matching entry or of an earlier one. *)
Lemma first_match_before entries q : forall k p h,
  entries !! k = Some (p, h) -> test p q = true ->
  exists j p' , j <= k
    /\ entries !! j = Some (p', first_match entries q).
Proof.
  induction entries as [|[p0 h0] entries IH]; intros k p h Hk Hp; [done|].
  simpl. destruct (test p0 q) eqn:E.
  - exists 0, p0. split; [lia|done].
  - destruct k as [|k]; simpl in Hk.
    + inversion Hk; subst. congruence.
    + destruct (IH k p h Hk Hp) as (j & p' & Hj & Hl).
      exists (S j), p'. split; [lia|done].
Qed.

Lemma first_match_take entries q k p h :
  entries !! k = Some (p, h) -> test p q = true ->
  first_match entries q ∈ (take (S k) entries).*2.
Proof.
  intros Hk Hp.
  destruct (first_match_before entries q k p h Hk Hp) as (j & p' & Hj & Hl).
  apply list_elem_of_fmap. exists (p', first_match entries q).
  split; [done|]. apply list_elem_of_lookup. exists j.
  rewrite lookup_take_lt by lia. done.
Qed.

Lemma has_digit_app u v : has_digit (u +:+ v) = has_digit u || has_digit v.
Proof.
  induction u as [|c u IH]; simpl; [done|]. by rewrite IH, orb_assoc.
Qed.

Lemma first_digits_has_digit s :
  has_digit s = true ->
  exists c ds, first_digits s = Some (String c ds) /\ is_digit c = true.
Proof.
  induction s as [|c s IH]; simpl; [done|]. intros H.
  destruct (is_digit c) eqn:Hc.
  - exists c, (digit_run s). done.
  - simpl in H. by apply IH.
Qed.

Lemma matches_digit_has_digit u : matches Digit u -> has_digit u = true.
Proof. intros H. inversion H; subst. simpl. by rewrite orb_false_r. Qed.

End KeywordProofs.

Section RouterExtras.
Import Regex ConversationalAI.

(** X17. The answer does not depend on the case of the query nor on the
    white space around it: trimming the query or lower-casing it before the
    call changes nothing. *)
Theorem processQuery_normalizes (self : ConversationalAI.t) (random : Q)
    (query : string) :
  processQuery self random (trim query) = processQuery self random query
  /\ processQuery self random (toLowerCase query)
     = processQuery self random query
  /\ processQuery self random (trim (toLowerCase query))
     = processQuery self random query.
Proof.
  unfold processQuery. rewrite normalize_trim, normalize_lower.
  rewrite toLowerCase_trim, toLowerCase_idem, trim_idem. done.
Qed.

(** X18. A query that contains one of the key words, in any case and inside
    any longer word, is never left to the default response: it is answered
    by the handler of the key word or by one that comes earlier in the
    table.  So "price" goes to one of the first three handlers, "trend" or
    "direction" to one of the first four, "buy", "sell", "hold" or
    "recommend" to one of the first five, "high" or "peak" to one of the
    first six, and "low" or "bottom" to some handler. *)
Theorem processQuery_keyword_routing (query : string) :
  let q := trim (toLowerCase query) in
  (includes q "price" = true ->
   classify query ∈ [MovingAverageQuery; SpanQuery; PriceQuery])
  /\ (includes q "trend" = true \/ includes q "direction" = true ->
      classify query ∈ [MovingAverageQuery; SpanQuery; PriceQuery; TrendQuery])
  /\ (includes q "buy" = true \/ includes q "sell" = true
      \/ includes q "hold" = true \/ includes q "recommend" = true ->
      classify query ∈ [MovingAverageQuery; SpanQuery; PriceQuery; TrendQuery;
                        RecommendationQuery])
  /\ (includes q "high" = true \/ includes q "peak" = true ->
      classify query ∈ [MovingAverageQuery; SpanQuery; PriceQuery; TrendQuery;
                        RecommendationQuery; HighQuery])
  /\ (includes q "low" = true \/ includes q "bottom" = true ->
      classify query <> Unrecognized).
Proof.
  intros q. unfold classify. fold q.
  assert (Hroute : forall k p h w,
    patterns !! k = Some (p, h) -> matches p w -> includes q w = true ->
    first_match patterns q ∈ (take (S k) patterns).*2).
  { intros k p h w Hk Hp Hw. eapply first_match_take; [exact Hk|].
    by eapply includes_test. }
  split; [|split; [|split; [|split]]].
  - intros H. apply (Hroute 2 _ _ "price" eq_refl); [|done].
    apply matches_alt_l, (matches_Lit "price").
  - intros [H|H].
    + apply (Hroute 3 _ _ "trend" eq_refl); [|done].
      apply matches_alt_l, (matches_Lit "trend").
    + apply (Hroute 3 _ _ "direction" eq_refl); [|done].
      apply matches_alt_r, matches_alt_r, (matches_Lit "direction").
  - intros [H|[H|[H|H]]].
    + apply (Hroute 4 _ _ "buy" eq_refl); [|done].
      apply matches_alt_l, (matches_Lit "buy").
    + apply (Hroute 4 _ _ "sell" eq_refl); [|done].
      apply matches_alt_r, matches_alt_l, (matches_Lit "sell").
    + apply (Hroute 4 _ _ "hold" eq_refl); [|done].
      apply matches_alt_r, matches_alt_r, matches_alt_l, (matches_Lit "hold").
    + apply (Hroute 4 _ _ "recommend" eq_refl); [|done].
      apply matches_alt_r, matches_alt_r, matches_alt_r,
        (matches_Lit "recommend").
  - intros [H|H].
    + apply (Hroute 5 _ _ "high" eq_refl); [|done].
      apply matches_alt_l, (matches_Lit "high").
    + apply (Hroute 5 _ _ "peak" eq_refl); [|done].
      apply matches_alt_r, matches_alt_r, (matches_Lit "peak").
  - intros H Hu.
    assert (Hin : first_match patterns q ∈ (take 7 patterns).*2).
    { destruct H as [H|H].
      - apply (Hroute 6 _ _ "low" eq_refl); [|done].
        apply matches_alt_l, (matches_Lit "low").
      - apply (Hroute 6 _ _ "bottom" eq_refl); [|done].
        apply matches_alt_r, matches_alt_r, (matches_Lit "bottom"). }
    rewrite Hu in Hin. revert Hin. by apply (bool_decide_unpack _).
Qed.

Lemma processQuery_keyword_routing_witness :
  classify "How far BELOW the average?" <> Unrecognized.
Proof.
  apply (proj2 (proj2 (proj2 (proj2
    (processQuery_keyword_routing "How far BELOW the average?"))))).
  left. reflexivity.
Defined.

(** X19. The first pattern only matches a query that contains a digit, so
    in [handleMovingAverageQuery] the search for digits always succeeds when
    the handler is reached through [processQuery]: the fallback of 10 days is
    never taken, and the number of days is read from the first run of digits
    of the query. *)
Theorem movingAverage_default_days_unreachable (query : string) :
  classify query = MovingAverageQuery ->
  exists c ds,
    first_digits (trim (toLowerCase query)) = Some (String c ds)
    /\ is_digit c = true.
Proof.
  unfold classify. set (q := trim (toLowerCase query)). intros Hc.
  assert (Ht : test movingAveragePattern q = true).
  { destruct (first_match_inv patterns q) as [[Hu _]|(k & p & h & Hk & Hp & Hh & _)].
    - congruence.
    - rewrite Hc in Hh. subst h.
      destruct k as [|[|[|[|[|[|[|k]]]]]]]; simpl in Hk; try done;
        inversion Hk; subst; done. }
  apply first_digits_has_digit.
  apply test_spec in Ht as (p & u & v & -> & Hu).
  rewrite !has_digit_app.
  unfold movingAveragePattern in Hu.
  apply seq_inv in Hu as (u1 & u2 & -> & _ & Hu).
  apply seq_inv in Hu as (u3 & u4 & -> & _ & Hu).
  apply seq_inv in Hu as (u5 & u6 & -> & _ & Hu).
  apply seq_inv in Hu as (u7 & u8 & -> & _ & Hu).
  apply seq_inv in Hu as (u9 & u10 & -> & Hd & _).
  rewrite !has_digit_app, (matches_digit_has_digit _ Hd).
  by rewrite !orb_true_r.
Qed.

Lemma movingAverage_default_days_unreachable_witness :
  exists c ds,
    first_digits (trim (toLowerCase "What's the average for 10 days"))
      = Some (String c ds)
    /\ is_digit c = true.
Proof.
  apply (movingAverage_default_days_unreachable
           "What's the average for 10 days").
  vm_compute. reflexivity.
Defined.

End RouterExtras.

(** ** More on the handlers *)

Section HandlerProofs.
Import ConversationalAI.

Lemma maxOf_spec xs : forall x,
  (x <= maxOf x xs)%Q
  /\ (forall y, y ∈ xs -> (y <= maxOf x xs)%Q)
  /\ (maxOf x xs = x \/ maxOf x xs ∈ xs).
Proof.
  unfold maxOf. induction xs as [|a xs IH]; intros x; simpl.
  - split; [apply Qle_refl|]. split; [|by left].
    intros y Hy. by apply elem_of_nil in Hy.
  - destruct (Qle_bool x a) eqn:E.
    + apply Qle_bool_iff in E. destruct (IH a) as (H1 & H2 & H3).
      split; [by eapply Qle_trans|]. split.
      * intros y Hy. apply elem_of_cons in Hy as [->|Hy]; auto.
      * right. destruct H3 as [->|H3]; [apply list_elem_of_here|].
        by apply list_elem_of_further.
    + assert (Hlt : (a <= x)%Q).
      { apply Qlt_le_weak, Qnot_le_lt. intros H.
        apply Qle_bool_iff in H. congruence. }
      destruct (IH x) as (H1 & H2 & H3).
      split; [done|]. split.
      * intros y Hy. apply elem_of_cons in Hy as [->|Hy]; auto.
        by eapply Qle_trans.
      * destruct H3 as [H3|H3]; [by left|right].
        by apply list_elem_of_further.
Qed.

Lemma minOf_spec xs : forall x,
  (minOf x xs <= x)%Q
  /\ (forall y, y ∈ xs -> (minOf x xs <= y)%Q)
  /\ (minOf x xs = x \/ minOf x xs ∈ xs).
Proof.
  unfold minOf. induction xs as [|a xs IH]; intros x; simpl.
  - split; [apply Qle_refl|]. split; [|by left].
    intros y Hy. by apply elem_of_nil in Hy.
  - destruct (Qle_bool a x) eqn:E.
    + apply Qle_bool_iff in E. destruct (IH a) as (H1 & H2 & H3).
      split; [by eapply Qle_trans|]. split.
      * intros y Hy. apply elem_of_cons in Hy as [->|Hy]; auto.
      * right. destruct H3 as [->|H3]; [apply list_elem_of_here|].
        by apply list_elem_of_further.
    + assert (Hlt : (x <= a)%Q).
      { apply Qlt_le_weak, Qnot_le_lt. intros H.
        apply Qle_bool_iff in H. congruence. }
      destruct (IH x) as (H1 & H2 & H3).
      split; [done|]. split.
      * intros y Hy. apply elem_of_cons in Hy as [->|Hy]; auto.
        by eapply Qle_trans.
      * destruct H3 as [H3|H3]; [by left|right].
        by apply list_elem_of_further.
Qed.

(** [find] returns the first element that passes the test. *)
Lemma find_first {A} (f : A -> bool) (l : list A) x :
  x ∈ l -> f x = true ->
  exists k y, find f l = Some y /\ l !! k = Some y /\ f y = true
    /\ forall j z, j < k -> l !! j = Some z -> f z = false.
Proof.
  induction l as [|a l IH]; intros Hin Hx.
  - by apply elem_of_nil in Hin.
  - simpl. destruct (f a) eqn:E.
    + exists 0, a. repeat split; try done. intros; lia.
    + apply elem_of_cons in Hin as [->|Hin]; [congruence|].
      destruct (IH Hin Hx) as (k & y & Hf & Hk & Hy & Hbefore).
      exists (S k), y. repeat split; try done.
      intros [|j] z Hj Hz; simpl in Hz; [congruence|].
      apply (Hbefore j); [lia|done].
Qed.

Lemma highest_day d ds :
  let m := maxOf (high d) (map high ds) in
  exists k day,
    find (fun x => Qeq_bool (high x) m) (d :: ds) = Some day
    /\ (d :: ds) !! k = Some day
    /\ (m == high day)%Q
    /\ (forall x, x ∈ d :: ds -> (high x <= high day)%Q)
    /\ forall j x, j < k -> (d :: ds) !! j = Some x -> (high x < high day)%Q.
Proof.
  intros m. destruct (maxOf_spec (map high ds) (high d)) as (Hd & Hds & Hin).
  fold m in Hd, Hds, Hin.
  assert (Hall : forall y, y ∈ d :: ds -> (high y <= m)%Q).
  { intros y Hy. apply elem_of_cons in Hy as [->|Hy]; [done|].
    apply Hds, list_elem_of_fmap. eauto. }
  assert (Hex : exists x, x ∈ d :: ds /\ high x = m).
  { destruct Hin as [->|Hin].
    - exists d. split; [apply list_elem_of_here|done].
    - apply list_elem_of_fmap in Hin as (x & -> & Hx).
      exists x. split; [by apply list_elem_of_further|done]. }
  destruct Hex as (x & Hx & Hxm).
  destruct (find_first (fun x => Qeq_bool (high x) m) (d :: ds) x Hx)
    as (k & day & Hf & Hk & Hday & Hbefore).
  { apply Qeq_bool_iff. by rewrite Hxm. }
  apply Qeq_bool_iff in Hday.
  exists k, day. split; [done|]. split; [done|]. split; [by symmetry|].
  split.
  - intros y Hy. rewrite Hday. by apply Hall.
  - intros j y Hj Hy. rewrite Hday.
    assert (Hle : (high y <= m)%Q).
    { apply Hall, list_elem_of_lookup. eauto. }
    apply Qle_lteq in Hle as [Hlt|Heq]; [done|].
    apply Qeq_bool_iff in Heq. rewrite (Hbefore j y Hj Hy) in Heq. done.
Qed.

Lemma lowest_day d ds :
  let m := minOf (low d) (map low ds) in
  exists k day,
    find (fun x => Qeq_bool (low x) m) (d :: ds) = Some day
    /\ (d :: ds) !! k = Some day
    /\ (m == low day)%Q
    /\ (forall x, x ∈ d :: ds -> (low day <= low x)%Q)
    /\ forall j x, j < k -> (d :: ds) !! j = Some x -> (low day < low x)%Q.
Proof.
  intros m. destruct (minOf_spec (map low ds) (low d)) as (Hd & Hds & Hin).
  fold m in Hd, Hds, Hin.
  assert (Hall : forall y, y ∈ d :: ds -> (m <= low y)%Q).
  { intros y Hy. apply elem_of_cons in Hy as [->|Hy]; [done|].
    apply Hds, list_elem_of_fmap. eauto. }
  assert (Hex : exists x, x ∈ d :: ds /\ low x = m).
  { destruct Hin as [->|Hin].
    - exists d. split; [apply list_elem_of_here|done].
    - apply list_elem_of_fmap in Hin as (x & -> & Hx).
      exists x. split; [by apply list_elem_of_further|done]. }
  destruct Hex as (x & Hx & Hxm).
  destruct (find_first (fun x => Qeq_bool (low x) m) (d :: ds) x Hx)
    as (k & day & Hf & Hk & Hday & Hbefore).
  { apply Qeq_bool_iff. by rewrite Hxm. }
  apply Qeq_bool_iff in Hday.
  exists k, day. split; [done|]. split; [done|]. split; [by symmetry|].
  split.
  - intros y Hy. rewrite Hday. by apply Hall.
  - intros j y Hj Hy. rewrite Hday.
    assert (Hle : (m <= low y)%Q).
    { apply Hall, list_elem_of_lookup. eauto. }
    apply Qle_lteq in Hle as [Hlt|Heq]; [done|].
    symmetry in Heq.
    apply Qeq_bool_iff in Heq. rewrite (Hbefore j y Hj Hy) in Heq. done.
Qed.

Lemma last_drop {A} (l : list A) n : n < length l -> last (drop n l) = last l.
Proof.
  intros Hn. rewrite !last_lookup, length_drop, lookup_drop. f_equal. lia.
Qed.

Lemma last_app_two {A} (pre : list A) a b :
  last (pre ++ [a; b]) = Some b
  /\ length (pre ++ [a; b]) = S (S (length pre))
  /\ (pre ++ [a; b]) !! (length (pre ++ [a; b]) - 2) = Some a.
Proof.
  split; [|split].
  - change [a; b] with ([a] ++ [b]). by rewrite app_assoc, last_snoc.
  - rewrite length_app. simpl. lia.
  - rewrite length_app. simpl.
    replace (length pre + 2 - 2) with (length pre + 0) by lia.
    by rewrite lookup_app_r, Nat.add_0_r, Nat.sub_diag by lia.
Qed.

End HandlerProofs.

Section HandlerExtras.
Import ConversationalAI.

(** X20. With data loaded, the answer about the highest price names a true
    maximum of the highs and the date of the first bar that reaches it; the
    date is never "undefined". *)
Theorem handleHighQuery_reports_maximum (self : ConversationalAI.t) :
  stockData self <> [] ->
  exists k day m,
    stockData self !! k = Some day
    /\ (m == high day)%Q
    /\ (forall x, x ∈ stockData self -> (high x <= high day)%Q)
    /\ (forall j x, j < k -> stockData self !! j = Some x ->
          (high x < high day)%Q)
    /\ handleHighQuery self =
       "The highest price was $" +:+ toFixed 2 (Fin m) +:+ " on "
       +:+ date day +:+ ".".
Proof.
  intros Hne. unfold handleHighQuery.
  destruct (stockData self) as [|d ds]; [done|].
  destruct (highest_day d ds) as (k & day & Hf & Hk & Hm & Hall & Hbefore).
  exists k, day, (maxOf (high d) (map high ds)).
  cbv zeta in Hf. rewrite Hf. done.
Qed.

Lemma handleHighQuery_reports_maximum_witness :
  exists k day m,
    stockData example_context !! k = Some day
    /\ (m == high day)%Q
    /\ (forall x, x ∈ stockData example_context -> (high x <= high day)%Q)
    /\ (forall j x, j < k -> stockData example_context !! j = Some x ->
          (high x < high day)%Q)
    /\ handleHighQuery example_context =
       "The highest price was $" +:+ toFixed 2 (Fin m) +:+ " on "
       +:+ date day +:+ ".".
Proof. apply (handleHighQuery_reports_maximum example_context). done. Defined.

(** X21. With data loaded, the answer about the lowest price names a true
    minimum of the lows and the date of the first bar that reaches it. *)
Theorem handleLowQuery_reports_minimum (self : ConversationalAI.t) :
  stockData self <> [] ->
  exists k day m,
    stockData self !! k = Some day
    /\ (m == low day)%Q
    /\ (forall x, x ∈ stockData self -> (low day <= low x)%Q)
    /\ (forall j x, j < k -> stockData self !! j = Some x ->
          (low day < low x)%Q)
    /\ handleLowQuery self =
       "The lowest price was $" +:+ toFixed 2 (Fin m) +:+ " on "
       +:+ date day +:+ ".".
Proof.
  intros Hne. unfold handleLowQuery.
  destruct (stockData self) as [|d ds]; [done|].
  destruct (lowest_day d ds) as (k & day & Hf & Hk & Hm & Hall & Hbefore).
  exists k, day, (minOf (low d) (map low ds)).
  cbv zeta in Hf. rewrite Hf. done.
Qed.

Lemma handleLowQuery_reports_minimum_witness :
  exists k day m,
    stockData example_context !! k = Some day
    /\ (m == low day)%Q
    /\ (forall x, x ∈ stockData example_context -> (low day <= low x)%Q)
    /\ (forall j x, j < k -> stockData example_context !! j = Some x ->
          (low day < low x)%Q)
    /\ handleLowQuery example_context =
       "The lowest price was $" +:+ toFixed 2 (Fin m) +:+ " on "
       +:+ date day +:+ ".".
Proof. apply (handleLowQuery_reports_minimum example_context). done. Defined.

(** X22. The answer about the trend reads the last five bars only, and of
    the averages nothing: two contexts whose series have the same last five
    bars get the same answer. *)
Theorem handleTrendQuery_reads_last_five (self other : ConversationalAI.t) :
  5 <= length (stockData self) -> 5 <= length (stockData other) ->
  drop (length (stockData self) - 5) (stockData self)
  = drop (length (stockData other) - 5) (stockData other) ->
  handleTrendQuery self = handleTrendQuery other.
Proof.
  intros H1 H2 Heq. unfold handleTrendQuery.
  destruct (length (stockData self) <? 5) eqn:E1;
    [apply Nat.ltb_lt in E1; lia|].
  destruct (length (stockData other) <? 5) eqn:E2;
    [apply Nat.ltb_lt in E2; lia|].
  rewrite <- (last_drop (stockData self) (length (stockData self) - 5))
    by lia.
  rewrite <- (last_drop (stockData other) (length (stockData other) - 5))
    by lia.
  by rewrite Heq.
Qed.

Lemma handleTrendQuery_reads_last_five_witness :
  handleTrendQuery
    (Make [bar 9; bar 1; bar 2; bar 3; bar 4; bar 5] [])
  = handleTrendQuery
      (Make [bar 1; bar 2; bar 3; bar 4; bar 5] [averages 1 2 3]).
Proof.
  apply (handleTrendQuery_reads_last_five
           (Make [bar 9; bar 1; bar 2; bar 3; bar 4; bar 5] [])
           (Make [bar 1; bar 2; bar 3; bar 4; bar 5] [averages 1 2 3]));
    simpl; (lia || reflexivity).
Defined.

(** X23. The trend follows the last five closes: when they rise strictly
    the answer is the bullish one, when they fall strictly the bearish one,
    and in both the momentum is "strong" exactly when the span of the latest
    bar exceeds 5. *)
Theorem handleTrendQuery_monotone (self : ConversationalAI.t)
    (pre : list StockData) (a b c d e : StockData) :
  stockData self = pre ++ [a; b; c; d; e] ->
  let momentum :=
    if (5 <? span_or_0 e)%Z then "strong momentum" else "weak momentum" in
  ((close a < close b)%Q -> (close b < close c)%Q ->
   (close c < close d)%Q -> (close d < close e)%Q ->
   handleTrendQuery self =
   "🚀 The stock is showing a bullish uptrend with " +:+ momentum
   +:+ " based on the recent 5-day pattern.")
  /\ ((close b < close a)%Q -> (close c < close b)%Q ->
      (close d < close c)%Q -> (close e < close d)%Q ->
      handleTrendQuery self =
      "📉 The stock is showing a bearish downtrend with " +:+ momentum
      +:+ " based on the recent 5-day pattern.").
Proof.
  intros Hsd momentum.
  assert (Hlen : length (stockData self) = length pre + 5)
    by (rewrite Hsd, length_app; reflexivity).
  assert (Hdrop : drop (length (stockData self) - 5) (stockData self)
                  = [a; b; c; d; e]).
  { rewrite Hlen, Hsd. replace (length pre + 5 - 5) with (length pre) by lia.
    by rewrite drop_app_length. }
  assert (Hlast : last (stockData self) = Some e).
  { rewrite Hsd. change [a; b; c; d; e] with ([a; b; c; d] ++ [e]).
    by rewrite app_assoc, last_snoc. }
  assert (Hup : forall x y, (x < y)%Q ->
            Qlt_bool 0 (y - x) = true /\ Qlt_bool (y - x) 0 = false).
  { intros x y Hxy. split.
    - apply Qlt_bool_iff. rewrite <- (Qplus_opp_r x).
      apply Qplus_lt_l. done.
    - apply not_true_is_false. intros H. apply Qlt_bool_iff in H.
      apply (Qlt_irrefl y). eapply Qlt_trans; [|exact Hxy].
      apply (Qplus_lt_l _ _ (- x)). rewrite Qplus_opp_r. done. }
  assert (Hdown : forall x y, (y < x)%Q ->
            Qlt_bool 0 (y - x) = false /\ Qlt_bool (y - x) 0 = true).
  { intros x y Hxy. split.
    - apply not_true_is_false. intros H. apply Qlt_bool_iff in H.
      apply (Qlt_irrefl y). eapply Qlt_trans; [exact Hxy|].
      apply (Qplus_lt_l _ _ (- x)). rewrite Qplus_opp_r. done.
    - apply Qlt_bool_iff. rewrite <- (Qplus_opp_r x).
      apply Qplus_lt_l. done. }
  unfold handleTrendQuery.
  destruct (length (stockData self) <? 5) eqn:E;
    [apply Nat.ltb_lt in E; lia|].
  rewrite Hdrop, Hlast. cbn [priceChanges List.filter].
  split.
  - intros H1 H2 H3 H4.
    destruct (Hup _ _ H1) as [-> ->], (Hup _ _ H2) as [-> ->],
      (Hup _ _ H3) as [-> ->], (Hup _ _ H4) as [-> ->].
    reflexivity.
  - intros H1 H2 H3 H4.
    destruct (Hdown _ _ H1) as [-> ->], (Hdown _ _ H2) as [-> ->],
      (Hdown _ _ H3) as [-> ->], (Hdown _ _ H4) as [-> ->].
    reflexivity.
Qed.

Lemma handleTrendQuery_monotone_witness :
  handleTrendQuery (Make [bar 1; bar 2; bar 3; bar 4; bar 5] []) =
  "🚀 The stock is showing a bullish uptrend with weak momentum based on the recent 5-day pattern.".
Proof.
  apply (proj1 (handleTrendQuery_monotone
    (Make [bar 1; bar 2; bar 3; bar 4; bar 5] []) []
    (bar 1) (bar 2) (bar 3) (bar 4) (bar 5) eq_refl)); reflexivity.
Defined.

(** X24. The answer about the price: with one bar it is the price alone;
    with more it carries the change since the bar before, and when that bar
    closed at 0 the percentage printed is not a finite number: "NaN%" when
    the latest close is 0 too, "+Infinity%" or "-Infinity%" otherwise (the
    sign is that of the quotient by the zero, which has a sign of its
    own). *)
Theorem handlePriceQuery_edges (self : ConversationalAI.t) :
  (forall d, stockData self = [d] ->
     handlePriceQuery self =
     "The current price is $" +:+ toFixed 2 (Fin (close d)) +:+ ".")
  /\ forall pre previous latest,
       stockData self = pre ++ [previous; latest] ->
       (close previous == 0)%Q ->
       let change := (close latest - close previous)%Q in
       exists percent,
         handlePriceQuery self =
         "The current price is $" +:+ toFixed 2 (Fin (close latest)) +:+ "."
         +:+ " " +:+ (if Qle_bool 0 change then "📈" else "📉") +:+ " "
         +:+ (if Qle_bool 0 change then "+" else "") +:+ "$"
         +:+ toFixed 2 (Fin change) +:+ " (" +:+ percent +:+ "%)"
         /\ if Qeq_bool (close latest) 0 then percent = "NaN"
            else percent = "+Infinity" \/ percent = "-Infinity".
Proof.
  split.
  - intros d Hsd. unfold handlePriceQuery. rewrite Hsd. reflexivity.
  - intros pre previous latest Hsd Hz change.
    destruct (last_app_two pre previous latest) as (Hlast & Hlen & Hprev).
    unfold handlePriceQuery. rewrite Hsd, Hlast, Hprev, Hlen.
    cbn [Nat.ltb Nat.leb]. fold change.
    assert (Hc : (change == close latest)%Q)
      by (unfold change; rewrite Hz; ring).
    unfold js_div. rewrite (proj2 (Qeq_bool_iff _ _) Hz).
    destruct (change ?= 0)%Q eqn:E.
    + apply Qeq_alt in E. rewrite Hc in E.
      exists "NaN". split; [reflexivity|].
      by rewrite (proj2 (Qeq_bool_iff _ _) E).
    + apply Qlt_alt in E. rewrite Hc in E.
      exists "-Infinity". split; [reflexivity|].
      destruct (Qeq_bool (close latest) 0) eqn:E0; [|by right].
      apply Qeq_bool_iff in E0. rewrite E0 in E. by apply Qlt_irrefl in E.
    + apply Qgt_alt in E. rewrite Hc in E.
      exists "+Infinity". split; [reflexivity|].
      destruct (Qeq_bool (close latest) 0) eqn:E0; [|by left].
      apply Qeq_bool_iff in E0. rewrite E0 in E. by apply Qlt_irrefl in E.
Qed.

Lemma handlePriceQuery_edges_witness :
  exists percent,
    handlePriceQuery (Make [bar 0; bar 5] []) =
    "The current price is $5.00. 📈 +$5.00 (" +:+ percent +:+ "%)"
    /\ (percent = "+Infinity" \/ percent = "-Infinity").
Proof.
  destruct (proj2 (handlePriceQuery_edges (Make [bar 0; bar 5] []))
              [] (bar 0) (bar 5) eq_refl ltac:(reflexivity))
    as (percent & Htext & Hp).
  exists percent. split; [exact Htext|exact Hp].
Defined.

(** In exact arithmetic the default response is chosen by thirds of the
    unit interval. *)
Lemma getDefaultResponse_exact_thirds (random : Q) :
  (0 <= random)%Q -> (random < 1)%Q ->
  getDefaultResponse random =
  responses !! (if Qlt_bool random (1 # 3) then 0
                else if Qlt_bool random (2 # 3) then 1 else 2).
Proof.
  intros H0 H1. unfold getDefaultResponse.
  change (of_nat (length responses)) with 3%Q.
  assert (Hfloor : forall k : Z,
            (inject_Z k <= random * 3)%Q -> (random * 3 < inject_Z (k + 1))%Q ->
            Qfloor (random * 3) = k).
  { intros k Hlo Hhi.
    assert (k <= Qfloor (random * 3))%Z.
    { rewrite <- (Qfloor_Z k). by apply Qfloor_resp_le. }
    assert (Qfloor (random * 3) < k + 1)%Z.
    { rewrite Zlt_Qlt. eapply Qle_lt_trans; [apply Qfloor_le|done]. }
    lia. }
  assert (Hq : forall a b : Q, Qle_bool a b = true -> (a <= b)%Q)
    by (intros a b; apply Qle_bool_iff).
  destruct (Qlt_bool random (1 # 3)) eqn:E1.
  { apply Qlt_bool_iff in E1. rewrite (Hfloor 0%Z); [done| |].
    - change (inject_Z 0) with 0%Q. by apply Qmult_le_0_compat.
    - eapply Qlt_le_trans; [apply Qmult_lt_r; [done|exact E1]|].
      by apply Hq. }
  assert (H13 : (1 # 3 <= random)%Q).
  { apply Qnot_lt_le. intros H. apply Qlt_bool_iff in H. congruence. }
  destruct (Qlt_bool random (2 # 3)) eqn:E2.
  { apply Qlt_bool_iff in E2. rewrite (Hfloor 1%Z); [done| |].
    - eapply Qle_trans; [|apply Qmult_le_compat_r; [exact H13|done]].
      by apply Hq.
    - eapply Qlt_le_trans; [apply Qmult_lt_r; [done|exact E2]|].
      by apply Hq. }
  assert (H23 : (2 # 3 <= random)%Q).
  { apply Qnot_lt_le. intros H. apply Qlt_bool_iff in H. congruence. }
  rewrite (Hfloor 2%Z); [done| |].
  - eapply Qle_trans; [|apply Qmult_le_compat_r; [exact H23|done]].
    by apply Hq.
  - eapply Qlt_le_trans; [apply Qmult_lt_r; [done|exact H1]|].
    by apply Hq.
Qed.

(** X25. The default response is chosen by thirds of the unit interval: the
    first text for [Math.random()] up to 0.33, the second from 0.34 to 0.66,
    the third from 0.67 on.  (Next to 1/3 and 2/3 the rounding of the
    product [Math.random() * 3] decides; these values are left out.) *)
Theorem getDefaultResponse_thirds (random : Q) :
  (0 <= random)%Q -> (random < 1)%Q ->
  ((random <= 33 # 100)%Q -> getDefaultResponse random = responses !! 0)
  /\ ((34 # 100 <= random)%Q -> (random <= 66 # 100)%Q ->
      getDefaultResponse random = responses !! 1)
  /\ ((67 # 100 <= random)%Q -> getDefaultResponse random = responses !! 2).
Proof.
  intros H0 H1. rewrite (getDefaultResponse_exact_thirds random H0 H1).
  assert (Hlt : forall a b c : Q, (a <= b)%Q -> Qlt_bool b c = true ->
            Qlt_bool a c = true).
  { intros a b c Hab Hbc. apply Qlt_bool_iff. apply Qlt_bool_iff in Hbc.
    by eapply Qle_lt_trans. }
  assert (Hge : forall a b c : Q, (b <= a)%Q -> Qlt_bool b c = false ->
            Qlt_bool a c = false).
  { intros a b c Hba Hbc. apply not_true_is_false. intros H.
    apply Qlt_bool_iff in H.
    assert (Qlt_bool b c = true)
      by (apply Qlt_bool_iff; by eapply Qle_lt_trans).
    congruence. }
  split; [|split].
  - intros H. by rewrite (Hlt _ (33 # 100) (1 # 3) H eq_refl).
  - intros Hlo Hhi.
    rewrite (Hge _ (34 # 100) (1 # 3) Hlo eq_refl).
    by rewrite (Hlt _ (66 # 100) (2 # 3) Hhi eq_refl).
  - intros H.
    assert (H' : (34 # 100 <= random)%Q).
    { eapply Qle_trans; [|exact H]. by apply Qle_bool_iff. }
    rewrite (Hge _ (34 # 100) (1 # 3) H' eq_refl).
    by rewrite (Hge _ (67 # 100) (2 # 3) H eq_refl).
Qed.

Lemma getDefaultResponse_thirds_witness :
  getDefaultResponse (1 # 2) = responses !! 1.
Proof.
  apply (proj1 (proj2 (getDefaultResponse_thirds (1 # 2)
                         ltac:(done) ltac:(done)))); done.
Defined.

(** X26. The recommendation as a table of the two readings it uses.  With
    the 10-day average [m] of the latest record a number and [span] the span
    of the latest bar: BUY is answered exactly when the close is above [m]
    and the span above 2, or the close equals [m] and the span is above 7;
    SELL exactly when the close is below [m] and the span at most 7, or the
    close equals [m] and the span at most 2; HOLD in the three remaining
    cases. *)
Theorem handleRecommendationQuery_table (self : ConversationalAI.t)
    (latest : StockData) (latestMA : MovingAverage) (m : Q) :
  last (stockData self) = Some latest ->
  last (movingAverages self) = Some latestMA ->
  ma10 latestMA = Some (Fin m) ->
  let span := span_or_0 latest in
  let c := close latest in
  exists v,
    handleRecommendationQuery self =
    "📊 **" +:+ v +:+ "** - "
    +:+ rationale (bullishCount latest latestMA) (bearishCount latest latestMA)
    +:+ newline +:+ newline +:+ "Signals: "
    +:+ join ", " (signalsOf latest latestMA)
    /\ (v = "BUY" <->
        ((m < c)%Q /\ (2 < span)%Z) \/ ((c == m)%Q /\ (7 < span)%Z))
    /\ (v = "SELL" <->
        ((c < m)%Q /\ (span <= 7)%Z) \/ ((c == m)%Q /\ (span <= 2)%Z))
    /\ (v = "HOLD" <->
        ((m < c)%Q /\ (span <= 2)%Z) \/ ((c < m)%Q /\ (7 < span)%Z)
        \/ ((c == m)%Q /\ (2 < span <= 7)%Z)).
Proof.
  intros Hl Hm H10 span c.
  exists (verdict (bullishCount latest latestMA) (bearishCount latest latestMA)).
  split; [by apply handleRecommendationQuery_text|].
  destruct (ma10_tests latestMA m c H10) as [Hgt Hlt].
  destruct (verdict_cases (bullishCount latest latestMA)
              (bearishCount latest latestMA)) as (Hb & Hs & Hh).
  rewrite Hb, Hs, Hh. unfold bullishCount, bearishCount.
  fold c span.
  assert (Htri : ((m < c)%Q /\ ~ (c < m)%Q /\ ~ (c == m)%Q)
                 \/ ((c < m)%Q /\ ~ (m < c)%Q /\ ~ (c == m)%Q)
                 \/ ((c == m)%Q /\ ~ (m < c)%Q /\ ~ (c < m)%Q)).
  { destruct (Q_dec m c) as [[H|H]|H].
    - left. split; [done|]. split.
      + intros H'. apply (Qlt_irrefl m). by eapply Qlt_trans.
      + intros H'. rewrite H' in H. by apply Qlt_irrefl in H.
    - right. left. split; [done|]. split.
      + intros H'. apply (Qlt_irrefl m). by eapply Qlt_trans.
      + intros H'. rewrite H' in H. by apply Qlt_irrefl in H.
    - right. right. split; [by symmetry|]. split.
      + intros H'. rewrite H in H'. by apply Qlt_irrefl in H'.
      + intros H'. rewrite H in H'. by apply Qlt_irrefl in H'. }
  destruct (gt_num c (ma10_or_0 latestMA)) eqn:Eg;
    destruct (lt_num c (ma10_or_0 latestMA)) eqn:El;
    destruct (7 <? span)%Z eqn:E7;
    destruct (span <=? 2)%Z eqn:E2;
    try apply Z.ltb_lt in E7; try apply Z.ltb_ge in E7;
    try apply Z.leb_le in E2; try apply Z.leb_gt in E2;
    try (apply Hgt in Eg); try (apply Hlt in El);
    try (assert (~ (m < c)%Q) by (intros H'; apply Hgt in H'; congruence));
    try (assert (~ (c < m)%Q) by (intros H'; apply Hlt in H'; congruence));
    cbn [Nat.b2n Nat.add]; intuition (try lia; try done).
Qed.

Lemma handleRecommendationQuery_table_witness :
  exists v,
    handleRecommendationQuery example_context =
    "📊 **" +:+ v +:+ "** - "
    +:+ rationale
          (bullishCount (with_span (bar 130) (Some 9%Z))
             (averages 120 (12345 # 100) 110))
          (bearishCount (with_span (bar 130) (Some 9%Z))
             (averages 120 (12345 # 100) 110))
    +:+ newline +:+ newline +:+ "Signals: "
    +:+ join ", "
          (signalsOf (with_span (bar 130) (Some 9%Z))
             (averages 120 (12345 # 100) 110))
    /\ v = "BUY".
Proof.
  destruct (handleRecommendationQuery_table example_context
              (with_span (bar 130) (Some 9%Z))
              (averages 120 (12345 # 100) 110) (12345 # 100)
              eq_refl eq_refl eq_refl) as (v & Hv & Hbuy & _).
  exists v. split; [exact Hv|]. apply Hbuy. left. split; [done|]. done.
Defined.

End HandlerExtras.

(* ================================================================== *)
(** * Part IV.  The arithmetic of the source                          *)
(* ================================================================== *)

(** ** The moving averages in binary64 *)

Section Binary64MovingAverage.
Import PrimFloat Binary64.MovingAverageCalculator.
Local Arguments Binary64.running_sum : simpl never.

Lemma b64_reset_fold ws : forall self,
  let self' :=
    fold_left (fun self size =>
                 Make (windowSizes self) (<[size := []]> (queues self))
                      (<[size := 0%float]> (sums self))) ws self in
  windowSizes self' = windowSizes self
  /\ forall w, w ∈ ws ->
       queues self' !! w = Some [] /\ sums self' !! w = Some 0%float.
Proof.
  induction ws as [|a ws IH] using rev_ind; intros self; simpl.
  - split; [done|]. intros w Hw. by apply elem_of_nil in Hw.
  - rewrite fold_left_app. simpl.
    destruct (IH self) as [Hws Hlk]. split; [done|].
    intros w Hw. destruct (decide (a = w)) as [->|Hne].
    + by rewrite !lookup_insert_eq.
    + rewrite !lookup_insert_ne by done. apply Hlk.
      apply elem_of_app in Hw as [Hw|Hw]; [done|].
      apply list_elem_of_singleton in Hw. congruence.
Qed.

Lemma b64_reset_spec self :
  windowSizes (reset self) = windowSizes self
  /\ forall w, w ∈ windowSizes self ->
       queues (reset self) !! w = Some []
       /\ sums (reset self) !! w = Some 0%float.
Proof. apply b64_reset_fold. Qed.

Lemma b64_window_fold_frame data ws : forall self averages w,
  w ∉ ws ->
  let r := fold_left (window_step data) ws (self, averages) in
  windowSizes r.1 = windowSizes self
  /\ queues r.1 !! w = queues self !! w
  /\ sums r.1 !! w = sums self !! w
  /\ r.2 !! w = averages !! w.
Proof.
  induction ws as [|a ws IH]; intros self averages w Hw; simpl; [done|].
  apply not_elem_of_cons in Hw as [Hne Hw].
  destruct (push_window a (Binary64.close data) _ _) as [q s] eqn:E.
  destruct (IH (Make (windowSizes self) (<[a:=q]> (queues self))
                   (<[a:=s]> (sums self)))
               (<[a:=Binary64.average_of a q s]> averages) w Hw)
    as (H1 & H2 & H3 & H4).
  unfold Binary64.average_of in *.
  rewrite H1, H2, H3, H4. simpl.
  by rewrite !lookup_insert_ne by done.
Qed.

Lemma b64_window_fold_hit data ws : forall self averages w,
  NoDup ws -> w ∈ ws ->
  let r := fold_left (window_step data) ws (self, averages) in
  let qs := push_window w (Binary64.close data)
              (default [] (queues self !! w))
              (default 0%float (sums self !! w)) in
  queues r.1 !! w = Some qs.1
  /\ sums r.1 !! w = Some qs.2
  /\ r.2 !! w = Some (Binary64.average_of w qs.1 qs.2).
Proof.
  induction ws as [|a ws IH]; intros self averages w Hnd Hw; simpl.
  { by apply elem_of_nil in Hw. }
  apply NoDup_cons in Hnd as [Ha Hnd].
  destruct (push_window a (Binary64.close data) _ _) as [q s] eqn:E.
  destruct (decide (w = a)) as [->|Hne].
  - destruct (b64_window_fold_frame data ws
                (Make (windowSizes self) (<[a:=q]> (queues self))
                      (<[a:=s]> (sums self)))
                (<[a:=Binary64.average_of a q s]> averages) a Ha)
      as (_ & H2 & H3 & H4).
    unfold Binary64.average_of in *. rewrite H2, H3, H4. simpl.
    rewrite !lookup_insert_eq. rewrite E. done.
  - apply elem_of_cons in Hw as [Hw|Hw]; [done|].
    destruct (IH (Make (windowSizes self) (<[a:=q]> (queues self))
                     (<[a:=s]> (sums self)))
                 (<[a:=Binary64.average_of a q s]> averages) w Hnd Hw)
      as (H2 & H3 & H4).
    unfold Binary64.average_of in *. rewrite H2, H3, H4. simpl.
    by rewrite !lookup_insert_ne by done.
Qed.

Lemma b64_window_fold_sizes data ws : forall self averages,
  windowSizes (fold_left (window_step data) ws (self, averages)).1
  = windowSizes self.
Proof.
  induction ws as [|a ws IH]; intros self averages; simpl; [done|].
  destruct (push_window a (Binary64.close data) _ _) as [q s]. by rewrite IH.
Qed.

Lemma running_sum_S w cs j :
  Binary64.running_sum w cs (S j) =
  if w <=? j
  then (Binary64.running_sum w cs j + nth j cs 0 - nth (j - w) cs 0)%float
  else (Binary64.running_sum w cs j + nth j cs 0)%float.
Proof. reflexivity. Qed.

(** The running sum of the first [k] closes does not read the later ones. *)
Lemma running_sum_app w cs cs' : forall k,
  k <= length cs ->
  Binary64.running_sum w (cs ++ cs') k = Binary64.running_sum w cs k.
Proof.
  induction k as [|j IH]; intros Hk; [done|].
  rewrite !running_sum_S. rewrite IH by lia.
  rewrite (app_nth1 cs cs') by lia.
  destruct (w <=? j) eqn:E; [|done].
  by rewrite (app_nth1 cs cs') by lia.
Qed.

Lemma nth_drop_hd {A} (l : list A) n (x : A) :
  hd x (drop n l) = nth n l x.
Proof.
  revert n. induction l as [|a l IH]; intros [|n]; simpl; try done.
Qed.

(** One push keeps the queue equal to the last [min k w] closes read and
    makes the sum the next running sum. *)
Lemma b64_push_window_inv w c cs q s :
  0 < w ->
  q = last_n (min (length cs) w) cs ->
  s = Binary64.running_sum w cs (length cs) ->
  let qs := push_window w c q s in
  qs.1 = last_n (min (length cs + 1) w) (cs ++ [c])
  /\ qs.2 = Binary64.running_sum w (cs ++ [c]) (S (length cs)).
Proof.
  intros Hw Hq Hs. unfold push_window.
  assert (Hlen : length q = min (length cs) w).
  { rewrite Hq, last_n_length. lia. }
  rewrite running_sum_S.
  rewrite running_sum_app by lia. rewrite <- Hs.
  rewrite nth_middle.
  rewrite length_app. simpl.
  destruct (w <? length q + 1) eqn:Hcmp.
  - apply Nat.ltb_lt in Hcmp.
    assert (Hge : w <= length cs) by lia.
    rewrite (proj2 (Nat.leb_le _ _) Hge).
    rewrite app_nth1 by lia.
    destruct q as [|x q'] eqn:Eq; [simpl in Hlen; lia|]. simpl.
    split.
    + unfold last_n in *. rewrite length_app. simpl.
      replace (length cs + 1 - min (length cs + 1) w)
        with (S (length cs - min (length cs) w)) by lia.
      rewrite drop_app_le by lia.
      f_equal.
      replace (S (length cs - min (length cs) w))
        with ((length cs - min (length cs) w) + 1) by lia.
      by rewrite <- drop_drop, <- Hq.
    + f_equal.
      assert (Hx : hd 0%float (x :: q') = nth (length cs - w) cs 0%float).
      { rewrite Hq. unfold last_n. rewrite nth_drop_hd. f_equal. lia. }
      exact Hx.
  - apply Nat.ltb_ge in Hcmp. simpl.
    assert (Hlt : length cs < w) by lia.
    rewrite (proj2 (Nat.leb_gt _ _) Hlt).
    split; [|done].
    unfold last_n in *. rewrite length_app. simpl.
    replace (length cs + 1 - min (length cs + 1) w) with 0 by lia.
    replace (length cs - min (length cs) w) with 0 in Hq by lia.
    simpl in *. by subst.
Qed.

Lemma b64_average_of w q s :
  Binary64.average_of w q s = (s / Binary64.of_nat (length q))%float.
Proof.
  unfold Binary64.average_of. destruct (length q =? w) eqn:E; [|done].
  apply Nat.eqb_eq in E. by rewrite E.
Qed.

Lemma b64_run_inv self l :
  NoDup (windowSizes self) ->
  let r := fold_left data_step l (reset self, []) in
  let cs := map Binary64.close l in
  windowSizes r.1 = windowSizes self
  /\ length r.2 = length l
  /\ (forall w, w ∈ windowSizes self -> 0 < w ->
        queues r.1 !! w = Some (last_n (min (length l) w) cs)
        /\ sums r.1 !! w = Some (Binary64.running_sum w cs (length l)))
  /\ (forall i d w, w ∈ windowSizes self -> 0 < w -> l !! i = Some d ->
        exists rec, r.2 !! i = Some rec
          /\ Binary64.ma_date rec = Binary64.date d
          /\ Binary64.ma rec !! w
             = Some (Binary64.running_sum w cs (S i)
                     / Binary64.of_nat (min (S i) w))%float).
Proof.
  intros Hnd. induction l as [|d l IH] using rev_ind; cbv zeta.
  - simpl. destruct (b64_reset_spec self) as [Hws Hlk].
    split; [done|]. split; [done|]. split.
    + intros w Hw _. destruct (Hlk w Hw) as [Hq Hs]. by rewrite Hq, Hs.
    + intros i d w _ _ Hi. done.
  - rewrite fold_left_app. simpl.
    destruct (fold_left data_step l (reset self, [])) as [self1 res1] eqn:E1.
    cbv zeta in IH. simpl in IH. destruct IH as (Hws & Hlen & Hinv & Hres).
    unfold data_step.
    destruct (fold_left (window_step d) (windowSizes self1) (self1, ∅))
      as [self2 avgs] eqn:E2.
    simpl. rewrite map_app. simpl.
    set (cs := map Binary64.close l) in *.
    assert (Hcs : length cs = length l) by (unfold cs; by rewrite length_map).
    assert (Hhit : forall w, w ∈ windowSizes self -> 0 < w ->
              queues self2 !! w
                = Some (last_n (min (length l + 1) w) (cs ++ [Binary64.close d]))
              /\ sums self2 !! w
                 = Some (Binary64.running_sum w (cs ++ [Binary64.close d])
                           (S (length l)))
              /\ avgs !! w
                 = Some (Binary64.running_sum w (cs ++ [Binary64.close d])
                           (S (length l))
                         / Binary64.of_nat (min (S (length l)) w))%float).
    { intros w Hw Hpos.
      destruct (Hinv w Hw Hpos) as (Hq & Hs).
      pose proof (b64_window_fold_hit d (windowSizes self1) self1 ∅ w) as Hh.
      rewrite Hws in Hh. specialize (Hh Hnd Hw). cbv zeta in Hh.
      rewrite <- Hws in Hh. rewrite E2 in Hh. simpl in Hh.
      rewrite Hq, Hs in Hh. simpl in Hh.
      destruct (b64_push_window_inv w (Binary64.close d) cs
                  (last_n (min (length l) w) cs)
                  (Binary64.running_sum w cs (length l)) Hpos)
        as [Hp1 Hp2].
      { by rewrite Hcs. }
      { by rewrite Hcs. }
      rewrite Hcs in Hp1, Hp2.
      destruct Hh as (H1 & H2 & H3).
      rewrite Hp1 in H1. rewrite Hp2 in H2.
      split; [done|]. split; [done|].
      rewrite H3, b64_average_of, Hp1, Hp2, last_n_length.
      assert (Hm : min (min (length l + 1) w)
                     (length (cs ++ [Binary64.close d]))
                   = min (S (length l)) w).
      { rewrite length_app, Hcs. cbn [length]. lia. }
      by rewrite Hm. }
    split.
    { pose proof (b64_window_fold_sizes d (windowSizes self1) self1 ∅) as Hs.
      rewrite E2 in Hs. simpl in Hs. congruence. }
    split.
    { rewrite length_app, length_app. simpl. lia. }
    split.
    { intros w Hw Hpos. destruct (Hhit w Hw Hpos) as (H1 & H2 & _).
      rewrite length_app. simpl. by rewrite Nat.add_1_r in *. }
    intros i d' w Hw Hpos Hi.
    destruct (decide (i < length l)) as [Hlt|Hge].
    + rewrite lookup_app_l in Hi by done.
      destruct (Hres i d' w Hw Hpos Hi) as (rec & Hr & Hd & Hm).
      exists rec. rewrite lookup_app_l by lia.
      repeat (split; [done|]).
      rewrite running_sum_app by (rewrite Hcs; lia). done.
    + assert (i = length l) as ->.
      { apply lookup_lt_Some in Hi. rewrite length_app in Hi. simpl in Hi. lia. }
      rewrite lookup_app_r in Hi by lia. rewrite Nat.sub_diag in Hi.
      simpl in Hi. inversion Hi; subst d'.
      destruct (Hhit w Hw Hpos) as (_ & _ & H3).
      eexists. rewrite lookup_app_r by lia.
      rewrite Hlen, Nat.sub_diag. simpl. split; [done|]. split; [done|].
      simpl. by rewrite H3.
Qed.

Lemma no_rounding_le w cs j k :
  j <= k -> Binary64.no_rounding w cs k -> Binary64.no_rounding w cs j.
Proof. intros Hjk H i Hi. apply H. lia. Qed.

Lemma Qsum_map_snoc {A} (f : A -> Q) l x :
  (Qsum (map f (l ++ [x])) == Qsum (map f l) + f x)%Q.
Proof. rewrite map_app. simpl. apply Qsum_snoc. Qed.

(** When no step rounds, the running sum stands for the sum of the closes
    in the window. *)
Lemma running_sum_exact w cs : forall k,
  0 < w -> k <= length cs -> Binary64.no_rounding w cs k ->
  (Binary64.rational (Binary64.running_sum w cs k)
   == Qsum (map Binary64.rational (last_n (min k w) (take k cs))))%Q.
Proof.
  induction k as [|j IH]; intros Hw Hk Hex.
  - vm_compute. reflexivity.
  - assert (Hj : cs !! j = Some (nth j cs 0%float)).
    { rewrite nth_lookup. destruct (cs !! j) eqn:E; [done|].
      apply lookup_ge_None in E. lia. }
    specialize (IH Hw ltac:(lia) (no_rounding_le w cs j (S j) ltac:(lia) Hex)).
    destruct (Hex j ltac:(lia)) as [[_ Hadd] Hsub]. cbv zeta in Hsub.
    rewrite running_sum_S. rewrite (take_S_r cs j _ Hj).
    assert (Hlt : length (take j cs) = j) by (rewrite length_take; lia).
    destruct (w <=? j) eqn:E.
    + apply Nat.leb_le in E. destruct (Hsub E) as [_ Hs]. rewrite Hs, Hadd, IH.
      assert (Hold : take j cs !! (j - w) = Some (nth (j - w) cs 0%float)).
      { rewrite lookup_take_lt by lia. rewrite nth_lookup.
        destruct (cs !! (j - w)) eqn:E'; [done|].
        apply lookup_ge_None in E'. lia. }
      unfold last_n. rewrite length_app, Hlt. cbn [length].
      replace (min j w) with w by lia.
      replace (min (S j) w) with w by lia.
      replace (j + 1 - w) with (S (j - w)) by lia.
      rewrite drop_app_le by lia.
      rewrite (drop_S _ _ _ Hold). rewrite Qsum_map_snoc. simpl. ring.
    + apply Nat.leb_gt in E. rewrite Hadd, IH.
      unfold last_n. rewrite length_app, Hlt. cbn [length].
      replace (min j w) with j by lia.
      replace (min (S j) w) with (S j) by lia.
      replace (j + 1 - S j) with 0 by lia.
      rewrite Nat.sub_diag. rewrite !drop_0.
      by rewrite Qsum_map_snoc.
Qed.

End Binary64MovingAverage.

Section Binary64Claims.
Import PrimFloat.
#[local] Set Warnings "-inexact-float".

Lemma window_of_rationals cs i w :
  i < length cs ->
  map Binary64.rational (last_n (min (S i) w) (take (S i) cs))
  = last_n (min (i + 1) w) (take (i + 1) (map Binary64.rational cs)).
Proof.
  intros Hi. unfold last_n. rewrite Nat.add_1_r.
  by rewrite <- fmap_take, length_map, fmap_drop.
Qed.

(** C3.  Provided the configured window sizes are distinct, the value the
    engine reports for a positive window size [w] at index [i] is the
    quotient, rounded, of the running sum by [min (i+1) w], the running sum
    being what adding every close and subtracting every close that leaves
    the window gives in binary64; it stands for the exact mean of the last
    [min (i+1) w] closes whenever none of these operations rounds, and with
    window 3 on [1,2,3,4,5] the values are [1, 1.5, 2, 3, 4]. *)
Theorem calculateMovingAverages_is_rounded_running_sum
    (self : Binary64.MovingAverageCalculator.t)
    (stockData : list Binary64.StockData) :
  NoDup (Binary64.MovingAverageCalculator.windowSizes self) ->
  let result :=
    (Binary64.MovingAverageCalculator.calculateMovingAverages
       self stockData).1 in
  let closes := map Binary64.close stockData in
  (forall w i d,
      w ∈ Binary64.MovingAverageCalculator.windowSizes self -> 0 < w ->
      stockData !! i = Some d ->
      exists r average,
        result !! i = Some r /\ Binary64.ma r !! w = Some average
        /\ average = (Binary64.running_sum w closes (S i)
                      / Binary64.of_nat (min (S i) w))%float
        /\ (Binary64.no_rounding w closes (S i) ->
            Binary64.exactly average
              (Binary64.rational (Binary64.running_sum w closes (S i))
               / of_nat (min (S i) w)) ->
            (Binary64.rational average
             == window_mean (map Binary64.rational closes) i w)%Q))
  /\ map (fun r => Binary64.ma r !! 3)
       (Binary64.MovingAverageCalculator.calculateMovingAverages
          (Binary64.MovingAverageCalculator.new [3])
          (map Binary64.bar [1; 2; 3; 4; 5]%float)).1
     = [Some 1; Some 1.5; Some 2; Some 3; Some 4]%float.
Proof.
  intros Hnd. cbv zeta. split; [|vm_compute; reflexivity].
  intros w i d Hw Hpos Hi.
  rewrite (surjective_pairing
             (Binary64.MovingAverageCalculator.calculateMovingAverages
                self stockData)).
  unfold Binary64.MovingAverageCalculator.calculateMovingAverages.
  destruct (b64_run_inv self stockData Hnd) as (_ & _ & _ & Hres).
  destruct (fold_left Binary64.MovingAverageCalculator.data_step stockData
              (Binary64.MovingAverageCalculator.reset self, []))
    as [self' res] eqn:E.
  simpl in *.
  destruct (Hres i d w Hw Hpos Hi) as (r & Hr & _ & Hm).
  exists r. eexists. split; [exact Hr|]. split; [exact Hm|].
  split; [reflexivity|].
  intros Hex [_ Hdiv]. rewrite Hdiv.
  assert (Hlen : i < length (map Binary64.close stockData)).
  { rewrite length_map. by eapply lookup_lt_Some. }
  pose proof (running_sum_exact w (map Binary64.close stockData) (S i)
                Hpos ltac:(lia) Hex) as Hrs.
  rewrite Hrs.
  unfold window_mean. rewrite <- window_of_rationals by done.
  unfold mean. rewrite length_map, last_n_length, length_take.
  replace (min (min (S i) w)
             (min (S i) (length (map Binary64.close stockData))))
    with (min (S i) w) by lia.
  reflexivity.
Qed.

Lemma calculateMovingAverages_is_rounded_running_sum_witness :
  exists r average,
    (Binary64.MovingAverageCalculator.calculateMovingAverages
       (Binary64.MovingAverageCalculator.new [3])
       (map Binary64.bar [1; 2; 3; 4; 5]%float)).1 !! 4 = Some r
    /\ Binary64.ma r !! 3 = Some average
    /\ (Binary64.rational average
        == window_mean (map Binary64.rational [1; 2; 3; 4; 5]%float) 4 3)%Q.
Proof.
  destruct (calculateMovingAverages_is_rounded_running_sum
              (Binary64.MovingAverageCalculator.new [3])
              (map Binary64.bar [1; 2; 3; 4; 5]%float)
              ltac:(by apply (bool_decide_unpack _))) as [H _].
  destruct (H 3 4 (Binary64.bar 5) ltac:(by apply (bool_decide_unpack _))
              ltac:(lia) eq_refl) as (r & average & Hr & Hm & Ha & Hex).
  exists r, average. split; [exact Hr|]. split; [exact Hm|].
  apply Hex.
  - intros [|[|[|[|[|j]]]]] Hj; try lia;
      (split; [|intros Hle]; try lia; vm_compute; split; reflexivity).
  - rewrite Ha. vm_compute. split; reflexivity.
Defined.

(** With window 1 the engine does not return the series: on the closes
    0.1 and 0.2 the second value is [(0.1 + 0.2) - 0.1], which is
    0.20000000000000004 in binary64 and not the close 0.2, the mean of the
    one close in the window. *)
Lemma window_one_does_not_reproduce_the_series :
  map (fun r => Binary64.ma r !! 1)
    (Binary64.MovingAverageCalculator.calculateMovingAverages
       (Binary64.MovingAverageCalculator.new [1])
       (map Binary64.bar [0.1; 0.2]%float)).1
  = [Some 0.1; Some 0.20000000000000004]%float
  /\ (0.20000000000000004 =? 0.2)%float = false
  /\ ~ (Binary64.rational 0.20000000000000004%float
        == window_mean (map Binary64.rational [0.1; 0.2]%float) 1 1)%Q.
Proof.
  split; [vm_compute; reflexivity|]. split; [vm_compute; reflexivity|].
  vm_compute. discriminate.
Qed.

(** X6.  After a calculation over [n] bars the queue of a positive window
    size [w] (the sizes being distinct) holds the last [min n w] closes, so
    never more than [w] values; the sum kept beside it is the rounded running
    sum, not recomputed from the queue. *)
Theorem calculateMovingAverages_queue_bounded
    (self : Binary64.MovingAverageCalculator.t)
    (stockData : list Binary64.StockData) (w : nat) :
  NoDup (Binary64.MovingAverageCalculator.windowSizes self) ->
  w ∈ Binary64.MovingAverageCalculator.windowSizes self -> 0 < w ->
  let after :=
    (Binary64.MovingAverageCalculator.calculateMovingAverages
       self stockData).2 in
  let closes := map Binary64.close stockData in
  exists queue,
    Binary64.MovingAverageCalculator.queues after !! w = Some queue
    /\ queue = last_n (min (length stockData) w) closes
    /\ length queue <= w
    /\ Binary64.MovingAverageCalculator.sums after !! w
       = Some (Binary64.running_sum w closes (length stockData)).
Proof.
  intros Hnd Hw Hpos. cbv zeta.
  rewrite (surjective_pairing
             (Binary64.MovingAverageCalculator.calculateMovingAverages
                self stockData)).
  unfold Binary64.MovingAverageCalculator.calculateMovingAverages.
  destruct (b64_run_inv self stockData Hnd) as (_ & _ & Hinv & _).
  destruct (fold_left Binary64.MovingAverageCalculator.data_step stockData
              (Binary64.MovingAverageCalculator.reset self, []))
    as [self' res] eqn:E.
  simpl in *. destruct (Hinv w Hw Hpos) as [Hq Hs].
  eexists. split; [exact Hq|]. split; [reflexivity|]. split; [|exact Hs].
  rewrite last_n_length. lia.
Qed.

Lemma calculateMovingAverages_queue_bounded_witness :
  exists queue,
    Binary64.MovingAverageCalculator.queues
      (Binary64.MovingAverageCalculator.calculateMovingAverages
         (Binary64.MovingAverageCalculator.new [2; 3])
         (map Binary64.bar [7; 9; 4; 1]%float)).2 !! 2 = Some queue
    /\ queue = [4; 1]%float
    /\ length queue <= 2.
Proof.
  destruct (calculateMovingAverages_queue_bounded
              (Binary64.MovingAverageCalculator.new [2; 3])
              (map Binary64.bar [7; 9; 4; 1]%float) 2
              ltac:(by apply (bool_decide_unpack _))
              ltac:(by apply (bool_decide_unpack _)) ltac:(lia))
    as (queue & Hq & Heq & Hlen & _).
  exists queue. split; [exact Hq|]. split; [exact Heq|exact Hlen].
Defined.

(** X9.  An average can leave the range of the closes in its window: three
    closes of 0.1 give a third average above 0.1, and on the closes 1e16, 1,
    1 the window of 2 reports 0 for the last bar, whose window holds 1 and
    1. *)
Theorem calculateMovingAverages_can_leave_the_range :
  (exists r v,
     (Binary64.MovingAverageCalculator.calculateMovingAverages
        (Binary64.MovingAverageCalculator.new
           Binary64.MovingAverageCalculator.defaultWindowSizes)
        (map Binary64.bar [0.1; 0.1; 0.1]%float)).1 !! 2 = Some r
     /\ Binary64.ma r !! 5 = Some v
     /\ v = 0.10000000000000002%float /\ (0.1 <? v)%float = true)
  /\ (exists r v,
        (Binary64.MovingAverageCalculator.calculateMovingAverages
           (Binary64.MovingAverageCalculator.new [2])
           (map Binary64.bar [1e16; 1; 1]%float)).1 !! 2 = Some r
        /\ Binary64.ma r !! 2 = Some v
        /\ v = 0%float /\ (v <? 1)%float = true).
Proof.
  split; eexists _, _; (split; [vm_compute; reflexivity|]);
    (split; [vm_compute; reflexivity|]); split; vm_compute; reflexivity.
Qed.

(** C4.  On six sentiment scores of 0.3 paired with the spans 1, 2, 3, 1, 2,
    3 the correlation is [NaN]: the scores have zero variance, but
    [n * sumXX - sumX * sumX] is rounded to a number below 0, its product
    with the positive variance term of the spans is negative, [Math.sqrt]
    returns [NaN], and the test [denominator === 0] lets it through. *)
Theorem correlation_of_constant_scores_is_NaN :
  let x := [0.3; 0.3; 0.3; 0.3; 0.3; 0.3]%float in
  let y := [1; 2; 3; 1; 2; 3]%float in
  Binary64.SentimentAnalyzer.calculateSentimentSpanCorrelation
    (map Binary64.scored x) (map Binary64.spanned y) = nan
  /\ (Binary64.of_nat 6 * fold_left (fun sum xi => sum + xi * xi) x 0
      - fold_left add x 0 * fold_left add x 0 <? 0)%float = true
  /\ (0 <? Binary64.of_nat 6 * fold_left (fun sum yi => sum + yi * yi) y 0
           - fold_left add y 0 * fold_left add y 0)%float = true.
Proof. cbv zeta. repeat split; vm_compute; reflexivity. Qed.

(** X10.  The correlation is not confined to the interval from -1 to 1: the
    scores 0.3 and 0.4 with the spans 1 and 2 give 1.000000000000002. *)
Theorem correlation_can_exceed_one :
  Binary64.SentimentAnalyzer.calculateSentimentSpanCorrelation
    (map Binary64.scored [0.3; 0.4]%float)
    (map Binary64.spanned [1; 2]%float)
  = 1.000000000000002%float
  /\ (1 <? 1.000000000000002)%float = true.
Proof. split; vm_compute; reflexivity. Qed.

(** X11.  Spans that are an exact affine function of scores that are not
    all equal do not always give 1: for the scores 0.5, 0.5 + 2^-31 and
    0.5 + 2^-30 and the spans 1, 2, 3, [n * sumXX - sumX * sumX] is rounded
    to 0 and the guard returns 0. *)
Theorem correlation_of_affine_series_can_be_zero :
  let x := [0.5; 0.5 + 0x1p-31; 0.5 + 0x1p-30]%float in
  let y := [1; 2; 3]%float in
  Binary64.SentimentAnalyzer.calculateSentimentSpanCorrelation
    (map Binary64.scored x) (map Binary64.spanned y) = 0%float
  /\ (Binary64.of_nat 3 * fold_left (fun sum xi => sum + xi * xi) x 0
      - fold_left add x 0 * fold_left add x 0)%float = 0%float
  /\ Forall2 (fun xi yi =>
                Binary64.rational yi
                == (Binary64.rational xi - (1 # 2)) * inject_Z (2 ^ 31) + 1)%Q
       x y
  /\ (0.5 <? 0.5 + 0x1p-31)%float = true
  /\ (0.5 + 0x1p-31 <? 0.5 + 0x1p-30)%float = true.
Proof.
  cbv zeta. split; [vm_compute; reflexivity|].
  split; [vm_compute; reflexivity|].
  split; [repeat constructor; vm_compute; reflexivity|].
  split; vm_compute; reflexivity.
Qed.

(** Three places where the exact model and binary64 part, which the
    statements on the exact model leave room for: the confidence
    [0.6 + Math.random() * 0.4] is 1 for the largest value [Math.random()]
    can return; the products of the two numbers just below 1/3 and 2/3 by 3
    are rounded to 1 and 2; a positive number divided by the negative zero
    is [-Infinity]. *)
Lemma binary64_boundaries :
  (0.6 + 0x1.fffffffffffffp-1 * 0.4 = 1)%float
  /\ (0.3333333333333333 * 3 = 1)%float
  /\ (0.6666666666666666 * 3 = 2)%float
  /\ (5 / - 0 = neg_infinity)%float.
Proof. repeat split; vm_compute; reflexivity. Qed.

End Binary64Claims.
